(** * Verification of kubectl-check-ownerreferences

    A shallow embedding of pkg/verify.go ([VerifyGCOptions.Validate],
    [VerifyGCOptions.Run] and [pluralize]), of [main] and of the [normalize]
    of verify_test.go, with the properties C1 to C10 of the owner-reference
    validation engine and further properties X1 to X23 of the code.

    - The locals of [Run] are threaded explicitly: the counters and the two
      output streams in a record, the maps as finite maps.
    - What the two clients answer is data of the run: the errors of the two
      discovery calls, the REST mapper, the set of resource types, and for
      every resource type the pages that the pager receives.
    - [schema.ParseGroupVersion], [strings.ToLower] and the klog verbosity are
      parameters; the properties hold for all of them.  Module [Scenarios]
      gives the library functions and the clusters of verify_test.go, on which
      the model is run.
    - Module [Unchecked] has the options with the fields that may be nil, and
      module [Cmd] the flags, the exits and the body of [main].
    - Module [Testing] has [normalize] on Go strings as bytes.
    - Module [Spec] holds the specification's reading of each step, against
      which the code is compared. *)

From Stdlib Require Import ZArith List String Ascii Lia Permutation DecimalString.
From Stdlib Require Import DecimalPos DecimalZ.
From Stdlib Require Import OrderedTypeEx.
From stdpp Require Import base gmap strings list sorting.

Local Open Scope string_scope.
Local Open Scope list_scope.
Local Open Scope Z_scope.

(** ** Data model (k8s.io/apimachinery schema and metav1 types) *)

(** Go's [error] values are observed by the program only through a nil test
    and [Error()]; an error is modelled by its message. *)
Definition error := string.

Record GroupVersion := mkGV { gv_Group : string; gv_Version : string }.
Record GroupResource := mkGR { gr_Group : string; gr_Resource : string }.
Record GroupKind := mkGK { gk_Group : string; gk_Kind : string }.
Record GroupVersionResource :=
  mkGVR { gvr_Group : string; gvr_Version : string; gvr_Resource : string }.
Record GroupVersionKind :=
  mkGVK { gvk_Group : string; gvk_Version : string; gvk_Kind : string }.

(** metav1.OwnerReference: the fields the program reads. *)
Record OwnerReference := mkOwnerRef {
  or_APIVersion : string;
  or_Kind : string;
  or_Name : string;
  or_UID : string
}.

(** metav1.PartialObjectMetadata: TypeMeta and the ObjectMeta fields read. *)
Record PartialObjectMetadata := mkObj {
  APIVersion : string;
  Kind : string;
  Namespace : string;
  Name : string;
  UID : string;
  OwnerReferences : list OwnerReference
}.

Global Instance GroupVersion_eq_dec : EqDecision GroupVersion.
Proof. solve_decision. Defined.
Global Instance GroupResource_eq_dec : EqDecision GroupResource.
Proof. solve_decision. Defined.
Global Instance GroupVersionResource_eq_dec : EqDecision GroupVersionResource.
Proof. solve_decision. Defined.
Global Instance OwnerReference_eq_dec : EqDecision OwnerReference.
Proof. solve_decision. Defined.
Global Instance PartialObjectMetadata_eq_dec : EqDecision PartialObjectMetadata.
Proof. solve_decision. Defined.

Global Instance GroupVersion_countable : Countable GroupVersion.
Proof.
  refine (inj_countable' (fun gv => (gv_Group gv, gv_Version gv))
                         (fun p => mkGV p.1 p.2) _).
  by intros [].
Defined.
Global Instance GroupResource_countable : Countable GroupResource.
Proof.
  refine (inj_countable' (fun gr => (gr_Group gr, gr_Resource gr))
                         (fun p => mkGR p.1 p.2) _).
  by intros [].
Defined.
Global Instance GroupVersionResource_countable : Countable GroupVersionResource.
Proof.
  refine (inj_countable'
            (fun g => (gvr_Group g, gvr_Version g, gvr_Resource g))
            (fun p => mkGVR p.1.1 p.1.2 p.2) _).
  by intros [].
Defined.

(** schema helpers used by Run *)
Definition GVR_GroupVersion (gvr : GroupVersionResource) : GroupVersion :=
  mkGV (gvr_Group gvr) (gvr_Version gvr).
Definition GVR_GroupResource (gvr : GroupVersionResource) : GroupResource :=
  mkGR (gvr_Group gvr) (gvr_Resource gvr).
Definition GVK_GroupVersion (gvk : GroupVersionKind) : GroupVersion :=
  mkGV (gvk_Group gvk) (gvk_Version gvk).
Definition GVK_GroupKind (gvk : GroupVersionKind) : GroupKind :=
  mkGK (gvk_Group gvk) (gvk_Kind gvk).
Definition WithKind (gv : GroupVersion) (kind : string) : GroupVersionKind :=
  mkGVK (gv_Group gv) (gv_Version gv) kind.

(** len(s) == 0 *)
Definition isEmpty (s : string) : bool := String.eqb s "".

(** GroupVersionKind.Empty *)
Definition GVK_Empty (gvk : GroupVersionKind) : bool :=
  isEmpty (gvk_Group gvk) && isEmpty (gvk_Version gvk) && isEmpty (gvk_Kind gvk).

(** The String methods that [%v] and [%s] print. *)
Definition GroupVersion_String (gv : GroupVersion) : string :=
  if isEmpty (gv_Group gv) then gv_Version gv
  else gv_Group gv +:+ "/" +:+ gv_Version gv.
Definition GroupResource_String (gr : GroupResource) : string :=
  if isEmpty (gr_Group gr) then gr_Resource gr
  else gr_Resource gr +:+ "." +:+ gr_Group gr.
Definition GroupVersionResource_String (gvr : GroupVersionResource) : string :=
  gvr_Group gvr +:+ "/" +:+ gvr_Version gvr +:+ ", Resource=" +:+ gvr_Resource gvr.

(** [%d] of a Go int *)
Definition itoa (n : Z) : string := NilZero.string_of_int (Z.to_int n).


Definition nl : string := String (ascii_of_nat 10) "".
Definition tab : string := String (ascii_of_nat 9) "".
Definition quote : string := String (ascii_of_nat 34) "".

(** strings.Join *)
Fixpoint Join (elems : list string) (sep : string) : string :=
  match elems with
  | [] => ""
  | [e] => e
  | e :: rest => e +:+ sep +:+ Join rest sep
  end.

(** A call that returns a pointer and an error. *)
Inductive res (A : Type) : Type :=
| Ok (a : A)
| Err (e : error).
Arguments Ok {A} a.
Arguments Err {A} e.

(** ** The collaborators behind the two clients *)

Inductive RESTScopeName := RESTScopeNameNamespace | RESTScopeNameRoot.

(** meta.RESTMapping *)
Record RESTMapping := mkMapping {
  mapping_Resource : GroupVersionResource;
  mapping_GroupVersionKind : GroupVersionKind;
  mapping_Scope : RESTScopeName
}.

(** meta.RESTMapper: the two methods Run calls.  [KindFor] returns a value
    and an error, and Run drops the error. *)
Record RESTMapper := mkMapper {
  mapper_RESTMapping : GroupKind -> string -> res RESTMapping;
  mapper_KindFor : GroupVersionResource -> GroupVersionKind * option error
}.

(** The [err] of a discovery call, as Run tells the cases apart:
    nil, an [*ErrGroupDiscoveryFailed] (found by [errors.As]) with its
    [Groups] map, or any other error, which Run returns. *)
Inductive DiscoveryError :=
| NoError
| ErrGroupDiscoveryFailed (Groups : gmap GroupVersion error)
| OtherError (e : error).

(** What Run obtains from [v.DiscoveryClient]:
    - the error of [restmapper.GetAPIGroupResources] and the mapper that
      [restmapper.NewDiscoveryRESTMapper] builds from its result;
    - the error of [discovery.ServerPreferredResources];
    - [discovery.GroupVersionResources] of the preferred resources that
      support list, get and delete: the key set of [gvrMap], or an error. *)
Record DiscoveryInterface := mkDiscovery {
  GetAPIGroupResources_err : DiscoveryError;
  restMapper : RESTMapper;
  ServerPreferredResources_err : DiscoveryError;
  GroupVersionResources : res (gset GroupVersionResource)
}.

(** What [v.MetadataClient.Resource(gvr).List] answers to the pager, request
    after request: a page without continue token, a page with one followed by
    the answers to the next requests, or an error.  [pager.EachListItem] calls
    the list function until a page has no continue token or the call fails,
    and hands the items of every page it received to the item callback. *)
Inductive Listing :=
| LastPage (items : list PartialObjectMetadata)
| NextPage (items : list PartialObjectMetadata) (more : Listing)
| ListErr (err : error).

Record VerifyGCOptions := mkOptions {
  DiscoveryClient : DiscoveryInterface;
  MetadataClient : GroupVersionResource -> Listing;
  Output : string
}.

(** The last check of [Validate]; the clients and the two writers are never
    nil in this model. *)
Definition Validate (v : VerifyGCOptions) : option error :=
  if negb (String.eqb (Output v) "") && negb (String.eqb (Output v) "json")
  then Some ("invalid output format, only '' and 'json' are supported: " +:+ Output v)
  else None.

(** ** Program state *)

Definition levelError : string := "Error".
Definition levelWarning : string := "Warning".

Record invalidReference := mkInvalidReference {
  ir_Resource : GroupVersionResource;
  ir_Kind : GroupVersionKind;
  ir_Namespace : string;
  ir_Name : string;
  ir_OwnerReference : OwnerReference;
  ir_Level : string;
  ir_Message : string
}.

(** Calls on the writers that end in [v.Stdout]. *)
Inductive OutEvent :=
| TabWrite (line : string)          (* tabwriter.Write([]byte(line)) *)
| TabFlush                          (* tabwriter.Flush() *)
| JsonEncode (r : invalidReference) (* json.NewEncoder(v.Stdout).Encode(r) *).

(** A finding: the arguments of one call of [outputRefMessage]. *)
Record Finding := mkFinding {
  f_gvr : GroupVersionResource;
  f_item : PartialObjectMetadata;
  f_ownerRef : OwnerReference;
  f_level : string;
  f_msg : string
}.

(** The counters, the tabular sink's flag and the two streams: [Stdout] holds
    the calls on the tab writer and the JSON encoder, [Stderr] one string per
    [Fprintf].  [emitted] is a history variable: the calls of
    [outputRefMessage] so far, in order. *)
Record Streams := mkStreams {
  errorCount : Z;
  warningCount : Z;
  initialized : bool;
  Stdout : list OutEvent;
  Stderr : list string;
  emitted : list Finding
}.

Definition initialStreams : Streams := mkStreams 0 0 false [] [] [].

(** The two counters are Go ints, 64 bits wide on the targets that the
    Makefile builds (amd64 and arm64); [n++] wraps around. *)
Definition wrapInt (n : Z) : Z := (n + 2 ^ 63) mod 2 ^ 64 - 2 ^ 63.

Definition incr (n : Z) : Z := wrapInt (n + 1).

Definition incError (s : Streams) : Streams :=
  mkStreams (incr (errorCount s)) (warningCount s) (initialized s)
            (Stdout s) (Stderr s) (emitted s).
Definition incWarning (s : Streams) : Streams :=
  mkStreams (errorCount s) (incr (warningCount s)) (initialized s)
            (Stdout s) (Stderr s) (emitted s).
Definition setInitialized (s : Streams) : Streams :=
  mkStreams (errorCount s) (warningCount s) true
            (Stdout s) (Stderr s) (emitted s).
Definition toStdout (e : OutEvent) (s : Streams) : Streams :=
  mkStreams (errorCount s) (warningCount s) (initialized s)
            (Stdout s ++ [e]) (Stderr s) (emitted s).
Definition toStderr (line : string) (s : Streams) : Streams :=
  mkStreams (errorCount s) (warningCount s) (initialized s)
            (Stdout s) (Stderr s ++ [line]) (emitted s).
Definition logFinding (f : Finding) (s : Streams) : Streams :=
  mkStreams (errorCount s) (warningCount s) (initialized s)
            (Stdout s) (Stderr s) (emitted s ++ [f]).

(** ** pluralize *)

Definition pluralize (count : Z) (singular plural : string) : string :=
  if count =? 1 then itoa count +:+ " " +:+ singular
  else itoa count +:+ " " +:+ plural.

(** ** sort.Slice *)

(** The comparison closure that Run passes to [sort.Slice]. *)
Definition gvrLess (a b : GroupVersionResource) : bool :=
  if negb (String.eqb (gvr_Group a) (gvr_Group b))
  then String.ltb (gvr_Group a) (gvr_Group b)
  else if negb (String.eqb (gvr_Version a) (gvr_Version b))
  then String.ltb (gvr_Version a) (gvr_Version b)
  else String.ltb (gvr_Resource a) (gvr_Resource b).

(** [sort.Slice] reorders the slice so that no element is less than one
    before it; it is modelled by insertion. *)
Fixpoint insertBy {A : Type} (less : A -> A -> bool) (x : A) (l : list A) : list A :=
  match l with
  | [] => [x]
  | y :: l' => if less x y then x :: y :: l' else y :: insertBy less x l'
  end.

Definition sortSlice {A : Type} (less : A -> A -> bool) (l : list A) : list A :=
  foldr (insertBy less) [] l.

(** ** Run *)

Inductive Outcome :=
| Returned (err : option error) (s : Streams)
| Panicked.

(** The local maps that the fetch loop fills, with the counters and streams. *)
Record Fetch := mkFetch {
  grListErrors : gmap GroupResource error;
  byGVR : gmap GroupVersionResource (list PartialObjectMetadata);
  byUID : gmap string (list PartialObjectMetadata);
  fetchOut : Streams
}.

(** The locals of the loop over [actualOwners]. *)
Record CrossCheck := mkCrossCheck {
  namespaceOk : bool;
  actualNamespace : string;
  nameOk : bool;
  actualName : string;
  groupKindOk : bool;
  actualGVK : GroupVersionKind
}.

Definition refMessageFn : Type :=
  GroupVersionResource -> PartialObjectMetadata -> OwnerReference ->
  string -> string -> Streams -> Streams.

(** A loop whose body may panic. *)
Fixpoint forEach {A : Type} (body : A -> Streams -> option Streams)
         (l : list A) (s : Streams) : option Streams :=
  match l with
  | [] => Some s
  | x :: l' =>
      match body x s with
      | Some s' => forEach body l' s'
      | None => None
      end
  end.

Section WithLibraries.

(** Library functions and the global verbosity, left open:
    [schema.ParseGroupVersion] (a value and an error), [strings.ToLower],
    and the level that [klog.V(n).Enabled()] compares [n] with. *)
Variable ParseGroupVersion : string -> GroupVersion * option error.
Variable ToLower : string -> string.
Variable klogV : Z.

(** *** Discovery (lines 77-107) *)

(** One iteration of [for failedGV, err := range groupDiscoveryError.Groups]. *)
Definition discoveryFailed (st : gmap GroupVersion error * Streams)
           (entry : GroupVersion * error) : gmap GroupVersion error * Streams :=
  let '(failedGV, err) := entry in
  match st.1 !! failedGV with
  | Some _ => st
  | None =>
      (<[failedGV := err]> st.1,
       toStderr ("warning: could not discover resources in "
                   +:+ GroupVersion_String failedGV +:+ ": " +:+ err)
                (incWarning st.2))
  end.

Definition tolerateDiscoveryFailure (groups : list (GroupVersion * error))
           (st : gmap GroupVersion error * Streams) :=
  fold_left discoveryFailed groups st.

(** [if errors.As(err, &groupDiscoveryError) {...} else if err != nil
    { return err }]: the left result is the returned error.  Go leaves open
    in which order [range] visits the entries of the map; [map_to_list] fixes
    one, and what is proved of the loop holds for every list of the entries. *)
Definition discoveryPass (err : DiscoveryError)
           (st : gmap GroupVersion error * Streams)
  : error + gmap GroupVersion error * Streams :=
  match err with
  | ErrGroupDiscoveryFailed Groups =>
      inr (tolerateDiscoveryFailure (map_to_list Groups) st)
  | OtherError e => inl e
  | NoError => inr st
  end.

(** *** Fetching (lines 127-163) *)

(** The item callback of [EachListItem]; its type assertion cannot fail on
    the items of a PartialObjectMetadataList. *)
Definition backfill (gvk : GroupVersionKind) (item : PartialObjectMetadata)
  : PartialObjectMetadata :=
  if isEmpty (APIVersion item) && isEmpty (Kind item) && negb (GVK_Empty gvk)
  then mkObj (GroupVersion_String (GVK_GroupVersion gvk)) (gvk_Kind gvk)
             (Namespace item) (Name item) (UID item) (OwnerReferences item)
  else item.

Definition eachItem (gvr : GroupVersionResource) (gvk : GroupVersionKind)
           (st : Fetch) (object : PartialObjectMetadata) : Fetch :=
  let item := backfill gvk object in
  mkFetch (grListErrors st)
          (<[gvr := default [] (byGVR st !! gvr) ++ [item]]> (byGVR st))
          (<[UID item := default [] (byUID st !! UID item) ++ [item]]> (byUID st))
          (fetchOut st).

(** The list function given to [pager.New], on an error and on a page. *)
Definition listFailed (gvr : GroupVersionResource) (err : error) (st : Fetch) : Fetch :=
  mkFetch (<[GVR_GroupResource gvr := err]> (grListErrors st))
          (byGVR st) (byUID st)
          (toStderr ("warning: could not list " +:+ GroupVersionResource_String gvr
                       +:+ ": " +:+ err +:+ nl)
                    (incWarning (fetchOut st))).

(** [len(list.Items)] is the length of a slice, which fits an int. *)
Definition listed (items : list PartialObjectMetadata) (st : Fetch) : Fetch :=
  if 3 <=? klogV
  then mkFetch (grListErrors st) (byGVR st) (byUID st)
               (toStderr ("got " +:+ pluralize (Z.of_nat (length items)) "item" "items" +:+ nl)
                         (fetchOut st))
  else st.

Fixpoint eachListItem (gvr : GroupVersionResource) (gvk : GroupVersionKind)
         (answers : Listing) (st : Fetch) : Fetch :=
  match answers with
  | ListErr err => listFailed gvr err st
  | LastPage items => fold_left (eachItem gvr gvk) items (listed items st)
  | NextPage items more =>
      eachListItem gvr gvk more (fold_left (eachItem gvr gvk) items (listed items st))
  end.

(** The body of [for _, gvr := range gvrs] at line 133; the error that
    [EachListItem] returns is dropped. *)
Definition fetchResource (mapper : RESTMapper)
           (client : GroupVersionResource -> Listing)
           (st : Fetch) (gvr : GroupVersionResource) : Fetch :=
  let gvk := (mapper_KindFor mapper gvr).1 in
  let st :=
    if 2 <=? klogV
    then mkFetch (grListErrors st) (byGVR st) (byUID st)
                 (toStderr ("fetching " +:+ GroupVersion_String (GVR_GroupVersion gvr)
                              +:+ ", " +:+ gvr_Resource gvr +:+ nl)
                           (fetchOut st))
    else st in
  eachListItem gvr gvk (client gvr) st.

Definition fetchAll (mapper : RESTMapper) (client : GroupVersionResource -> Listing)
           (gvrs : list GroupVersionResource) (st : Fetch) : Fetch :=
  fold_left (fetchResource mapper client) gvrs st.

(** *** The two sinks (lines 165-197) *)

Definition tabularRefMessage : refMessageFn :=
  fun gvr item ownerRef level msg s =>
    let s := if String.eqb level levelError then incError s else incWarning s in
    let s :=
      if negb (initialized s)
      then toStdout
             (TabWrite (Join ["GROUP"; "RESOURCE"; "NAMESPACE"; "NAME";
                              "OWNER_UID"; "LEVEL"; "MESSAGE"] tab +:+ nl))
             (setInitialized s)
      else s in
    toStdout
      (TabWrite (Join [gvr_Group gvr; gvr_Resource gvr; Namespace item; Name item;
                       or_UID ownerRef; level; msg] tab +:+ nl))
      s.

Definition jsonRefMessage : refMessageFn :=
  fun gvr item ownerRef level msg s =>
    toStdout
      (JsonEncode
         (mkInvalidReference
            (mkGVR (gvr_Group gvr) (gvr_Version gvr) (gvr_Resource gvr))
            (mkGVK (gvr_Group gvr) (gvr_Version gvr) (Kind item))
            (Namespace item) (Name item) ownerRef level msg))
      s.

(** [var outputRefMessage func(...)] stays nil for any other [v.Output]. *)
Definition outputRefMessage (output : string) : option refMessageFn :=
  if String.eqb output "" then Some tabularRefMessage
  else if String.eqb output "json" then Some jsonRefMessage
  else None.

(** A call of [outputRefMessage]; calling the nil function panics. *)
Definition callRefMessage (out : option refMessageFn)
           (gvr : GroupVersionResource) (item : PartialObjectMetadata)
           (ownerRef : OwnerReference) (level msg : string) (s : Streams)
  : option Streams :=
  match out with
  | Some f => Some (logFinding (mkFinding gvr item ownerRef level msg)
                               (f gvr item ownerRef level msg s))
  | None => None
  end.

(** *** Validation (lines 199-296) *)

(** The body of [for _, actualOwner := range actualOwners]. *)
Definition crossCheckStep (child : PartialObjectMetadata) (ownerRef : OwnerReference)
           (ownerGV : GroupVersion) (c : CrossCheck)
           (actualOwner : PartialObjectMetadata) : CrossCheck :=
  let '(nameOk', actualName') :=
    if String.eqb (Name actualOwner) (or_Name ownerRef)
    then (true, actualName c)
    else (nameOk c, Name actualOwner) in
  let '(namespaceOk', actualNamespace') :=
    if isEmpty (Namespace actualOwner)
       || String.eqb (Namespace actualOwner) (Namespace child)
    then (true, actualNamespace c)
    else (namespaceOk c, Namespace actualOwner) in
  let '(groupKindOk', actualGVK') :=
    if isEmpty (APIVersion actualOwner) || isEmpty (Kind actualOwner)
    then (true, actualGVK c)
    else
      let actualOwnerGV := (ParseGroupVersion (APIVersion actualOwner)).1 in
      if String.eqb (Kind actualOwner) (or_Kind ownerRef)
         && String.eqb (gv_Group actualOwnerGV) (gv_Group ownerGV)
      then (true, actualGVK c)
      else if String.eqb (ToLower (Kind actualOwner)) (or_Kind ownerRef)
              && String.eqb (gv_Group actualOwnerGV) (gv_Group ownerGV)
      then (true, actualGVK c)
      else (groupKindOk c, WithKind actualOwnerGV (Kind actualOwner)) in
  mkCrossCheck namespaceOk' actualNamespace' nameOk' actualName'
               groupKindOk' actualGVK'.

Definition crossCheckInit : CrossCheck :=
  mkCrossCheck false "" false "" false (mkGVK "" "" "").

Definition crossCheck (child : PartialObjectMetadata) (ownerRef : OwnerReference)
           (ownerGV : GroupVersion) (actualOwners : list PartialObjectMetadata)
  : CrossCheck :=
  fold_left (crossCheckStep child ownerRef ownerGV) actualOwners crossCheckInit.

Section Validation.

(** What the validation loops read and never write. *)
Variable mapper : RESTMapper.
Variable gvDiscoveryFailures : gmap GroupVersion error.
Variable grListErrs : gmap GroupResource error.
Variable byGVR' : gmap GroupVersionResource (list PartialObjectMetadata).
Variable byUID' : gmap string (list PartialObjectMetadata).
Variable out : option refMessageFn.

(** The body of [for _, ownerRef := range child.OwnerReferences]; every
    call of [outputRefMessage] is followed by [continue]. *)
Definition validateOwnerRef (gvr : GroupVersionResource)
           (child : PartialObjectMetadata) (ownerRef : OwnerReference)
           (s : Streams) : option Streams :=
  let '(ownerGV, err) := ParseGroupVersion (or_APIVersion ownerRef) in
  match err with
  | Some err =>
      callRefMessage out gvr child ownerRef levelError
        ("invalid owner apiVersion " +:+ or_APIVersion ownerRef +:+ ": " +:+ err) s
  | None =>
      let ownerGVK := WithKind ownerGV (or_Kind ownerRef) in
      match mapper_RESTMapping mapper (GVK_GroupKind ownerGVK) (gvk_Version ownerGVK) with
      | Err err =>
          match gvDiscoveryFailures !! ownerGV with
          | Some discoveryErr =>
              callRefMessage out gvr child ownerRef levelWarning
                ("failed resolving resources for " +:+ or_APIVersion ownerRef
                   +:+ ": " +:+ discoveryErr) s
          | None =>
              callRefMessage out gvr child ownerRef levelError
                ("cannot resolve owner apiVersion/kind: " +:+ err) s
          end
      | Ok mapping =>
          let ownerGR := GVR_GroupResource (mapping_Resource mapping) in
          if (match mapping_Scope mapping with
              | RESTScopeNameNamespace => true
              | RESTScopeNameRoot => false
              end) && isEmpty (Namespace child)
          then
            callRefMessage out gvr child ownerRef levelError
              ("cannot reference namespaced type as owner (apiVersion="
                 +:+ GroupVersion_String (GVK_GroupVersion ownerGVK)
                 +:+ ",kind=" +:+ gvk_Kind ownerGVK +:+ ")") s
          else
            let actualOwners := default [] (byUID' !! or_UID ownerRef) in
            if Nat.eqb (length actualOwners) 0
            then
              match grListErrs !! ownerGR with
              | Some _ =>
                  callRefMessage out gvr child ownerRef levelWarning
                    ("could not list parent resource " +:+ GroupResource_String ownerGR) s
              | None =>
                  callRefMessage out gvr child ownerRef levelError
                    "no object found for uid" s
              end
            else
              let c := crossCheck child ownerRef ownerGV actualOwners in
              if negb (namespaceOk c)
              then
                callRefMessage out gvr child ownerRef levelError
                  ("child namespace does not match owner namespace ("
                     +:+ actualNamespace c +:+ ")") s
              else if negb (nameOk c)
              then
                callRefMessage out gvr child ownerRef levelError
                  ("ownerReference name (" +:+ or_Name ownerRef
                     +:+ ") does not match owner name (" +:+ actualName c +:+ ")") s
              else if negb (groupKindOk c)
              then
                callRefMessage out gvr child ownerRef levelError
                  ("ownerReference group/kind (" +:+ gv_Group ownerGV +:+ "/"
                     +:+ or_Kind ownerRef
                     +:+ ") does not match owner group/kind ("
                     +:+ gvk_Group (actualGVK c) +:+ "/"
                     +:+ gvk_Kind (actualGVK c) +:+ ")") s
              else Some s
      end
  end.

(** [for _, child := range byGVR[gvr]] *)
Definition validateChild (gvr : GroupVersionResource)
           (child : PartialObjectMetadata) (s : Streams) : option Streams :=
  forEach (validateOwnerRef gvr child) (OwnerReferences child) s.

(** The body of [for _, gvr := range gvrs] at line 200, with the flush
    after each type. *)
Definition validateResource (gvr : GroupVersionResource) (s : Streams)
  : option Streams :=
  match forEach (validateChild gvr) (default [] (byGVR' !! gvr)) s with
  | Some s' => Some (toStdout TabFlush s')
  | None => None
  end.

Definition validateAll (gvrs : list GroupVersionResource) (s : Streams)
  : option Streams :=
  forEach validateResource gvrs s.

End Validation.

(** *** The summary (lines 298-302) *)

Definition summarize (s : Streams) : Streams :=
  if (0 <? errorCount s) || (0 <? warningCount s)
  then toStderr (pluralize (errorCount s) "error" "errors" +:+ ", "
                   +:+ pluralize (warningCount s) "warning" "warnings" +:+ nl) s
  else toStderr ("No invalid ownerReferences found" +:+ nl) s.

(** *** Run, phase by phase *)

Definition emptyFetch (s : Streams) : Fetch := mkFetch ∅ ∅ ∅ s.

(** Lines 77-107: the two discovery calls; on the left, the error that
    Run returns and the streams at that point. *)
Definition discover (d : DiscoveryInterface)
  : error * Streams + gmap GroupVersion error * Streams :=
  match discoveryPass (GetAPIGroupResources_err d) (∅, initialStreams) with
  | inl err => inl (err, initialStreams)
  | inr st1 =>
      match discoveryPass (ServerPreferredResources_err d) st1 with
      | inl err => inl (err, st1.2)
      | inr st2 => inr st2
      end
  end.

(** Lines 113-125: the keys of [gvrMap], sorted.  Go leaves open in which
    order [range] collects the keys; [elements] fixes one, and the sorted
    slice is the same for every order. *)
Definition catalog (gvrMap : gset GroupVersionResource) : list GroupVersionResource :=
  sortSlice gvrLess (elements gvrMap).

Definition Run (v : VerifyGCOptions) : Outcome :=
  let d := DiscoveryClient v in
  match discover d with
  | inl (err, s) => Returned (Some err) s
  | inr (gvDiscoveryFailures, s) =>
      match GroupVersionResources d with
      | Err err => Returned (Some err) s
      | Ok gvrMap =>
          let gvrs := catalog gvrMap in
          let fetched :=
            fetchAll (restMapper d) (MetadataClient v) gvrs (emptyFetch s) in
          match validateAll (restMapper d) gvDiscoveryFailures (grListErrors fetched)
                            (byGVR fetched) (byUID fetched)
                            (outputRefMessage (Output v))
                            gvrs (fetchOut fetched) with
          | Some s' => Returned None (summarize s')
          | None => Panicked
          end
      end
  end.

End WithLibraries.

(** ** Validate on options as a caller fills them (lines 52-69) *)

Module Unchecked.

(** [VerifyGCOptions] before [Validate]: the two clients and the two writers
    are interface values, nil until they are set.  A client that is set is
    what it answers; of a writer only whether it is set matters here, what
    is written to it is kept in [Streams]. *)
Record Options := mkOptions {
  o_DiscoveryClient : option DiscoveryInterface;
  o_MetadataClient : option (GroupVersionResource -> Listing);
  o_Output : string;
  o_Stderr : bool;
  o_Stdout : bool
}.

Definition Validate (v : Options) : option error :=
  match o_DiscoveryClient v with
  | None => Some "discovery client is required"
  | Some _ =>
      match o_MetadataClient v with
      | None => Some "metadata client is required"
      | Some _ =>
          if negb (o_Stderr v) then Some "stderr is required"
          else if negb (o_Stdout v) then Some "stdout is required"
          else if negb (String.eqb (o_Output v) "")
                  && negb (String.eqb (o_Output v) "json")
          then Some ("invalid output format, only '' and 'json' are supported: "
                       +:+ o_Output v)
          else None
      end
  end.

End Unchecked.

(** The options that [Run] reads, when both clients are set. *)
Definition withClients (o : Unchecked.Options) : option VerifyGCOptions :=
  match Unchecked.o_DiscoveryClient o, Unchecked.o_MetadataClient o with
  | Some d, Some m => Some (mkOptions d m (Unchecked.o_Output o))
  | _, _ => None
  end.

(** ** main.go *)

(** strings.Contains *)
Fixpoint Contains (s substr : string) : bool :=
  String.prefix substr s
  || match s with
     | EmptyString => false
     | String _ s' => Contains s' substr
     end.

Module Cmd.

(** The flags after [pflag.Parse()]: [-version], [-o], [--burst], [--qps]
    and klog's [-v]. *)
Record Flags := mkFlags {
  version : bool;
  output : string;
  burst : Z;
  qps : Z;
  verbosity : Z
}.

(** rest.WarningHandler: the default one, or [rest.NoWarnings{}]. *)
Inductive WarningHandler := DefaultWarnings | NoWarnings.

(** How the process ends: [os.Exit(0)] after the version line, [klog.Fatalf],
    [checkErr] on an error ([klog.Error] and [os.Exit(1)]), the return of
    [main], or a panic.  [log] holds the warnings given to klog before, and
    the streams are what [Run] has written. *)
Inductive Exit :=
| ExitVersion (line : string)
| Fatalf (msg : string)
| ExitError (log : list string) (s : Streams) (msg : string)
| Return (log : list string) (s : Streams)
| Panic (log : list string) .

Section Main.

Variable ParseGroupVersion : string -> GroupVersion * option error.
Variable ToLower : string -> string.

(** pkg.Version and pkg.GoVersion, set at link time. *)
Variable Version : string.
Variable GoVersion : string.

(** Go's float32 with the conversion from int, and the fields of rest.Config
    that main leaves as they were loaded. *)
Variable float32 : Type.
Variable toFloat32 : Z -> float32.
Variable Loaded : Type.

Record Config := mkConfig {
  cfg_Loaded : Loaded;
  cfg_Burst : Z;
  cfg_QPS : float32;
  cfg_WarningHandler : WarningHandler;
  cfg_AcceptContentTypes : string
}.

(** The calls of main that reach outside the process. *)
Record Env := mkEnv {
  ToRESTConfig : res Config;
  InClusterConfig : res Config;
  NewDiscoveryClientForConfig : Config -> res DiscoveryInterface;
  NewForConfig : Config -> res (GroupVersionResource -> Listing)
}.

(** [x, err := call; checkErr(err)] *)
Definition checkErr {A : Type} (r : res A) (log : list string) (s : Streams)
           (next : A -> Exit) : Exit :=
  match r with
  | Ok a => next a
  | Err e => ExitError log s e
  end.

(** Lines 80-87 of main.go: the client configuration, with the fall back to
    the in-cluster one. *)
Definition loadConfig (env : Env) : res Config * list string :=
  match ToRESTConfig env with
  | Err e =>
      if Contains e "incomplete configuration" || Contains e "no configuration"
      then (InClusterConfig env,
            ["attempting to use in-cluster config, error loading client config: " +:+ e])
      else (Err e, [])
  | Ok config => (Ok config, [])
  end.

Definition main (f : Flags) (env : Env) : Exit :=
  if version f
  then ExitVersion ("kubectl-check-ownerreferences version " +:+ Version
                      +:+ " (built with " +:+ GoVersion +:+ ")" +:+ nl)
  else if burst f <=? 0 then Fatalf "invalid burst rate, must be > 0"
  else if qps f <? -1 then Fatalf "invalid qps, must be >= 0"
  else
    let '(config, log) := loadConfig env in
    checkErr config log initialStreams (fun config =>
    let config :=
      mkConfig (cfg_Loaded config) (burst f) (toFloat32 (qps f)) NoWarnings
               "application/vnd.kubernetes.protobuf,application/json" in
    checkErr (NewDiscoveryClientForConfig env config) log initialStreams
             (fun discoveryClient =>
    checkErr (NewForConfig env config) log initialStreams (fun metadataClient =>
    let opts :=
      Unchecked.mkOptions (Some discoveryClient) (Some metadataClient)
                          (output f) true true in
    match Unchecked.Validate opts with
    | Some err => ExitError log initialStreams err
    | None =>
        match Run ParseGroupVersion ToLower (verbosity f)
                  (mkOptions discoveryClient metadataClient (output f)) with
        | Returned (Some err) s => ExitError log s err
        | Returned None s => Return log s
        | Panicked => Panic log
        end
    end))).

End Main.

End Cmd.

(** ** verify_test.go: normalize *)

Module Testing.

(** A Go string as its bytes. *)
Definition byte (n : nat) : ascii := ascii_of_nat n.

Definition newline : ascii := byte 10.

(** The matches of the regular expression "[ \t]+" are the maximal runs of
    spaces and tabs; [ReplaceAllString(in, " ")] puts one space for each. *)
Definition isBlank (c : ascii) : bool :=
  Ascii.eqb c (byte 32) || Ascii.eqb c (byte 9).

Fixpoint replaceBlanks (inRun : bool) (s : list ascii) : list ascii :=
  match s with
  | [] => []
  | c :: s' =>
      if isBlank c
      then if inRun then replaceBlanks true s' else byte 32 :: replaceBlanks true s'
      else c :: replaceBlanks false s'
  end.

Definition ReplaceAllString (s : list ascii) : list ascii := replaceBlanks false s.

(** The UTF-8 encodings of the characters of which unicode.IsSpace holds:
    tab, line feed, vertical tab, form feed, carriage return, space, U+0085,
    U+00A0, U+1680, U+2000 to U+200A, U+2028, U+2029, U+202F, U+205F, U+3000. *)
Definition whiteSpace : list (list ascii) :=
  map (map byte)
      [ [9]; [10]; [11]; [12]; [13]; [32];
        [194; 133]; [194; 160]; [225; 154; 128];
        [226; 128; 128]; [226; 128; 129]; [226; 128; 130]; [226; 128; 131];
        [226; 128; 132]; [226; 128; 133]; [226; 128; 134]; [226; 128; 135];
        [226; 128; 136]; [226; 128; 137]; [226; 128; 138];
        [226; 128; 168]; [226; 128; 169]; [226; 128; 175];
        [226; 129; 159]; [227; 128; 128] ]%nat.

Fixpoint hasPrefix (e s : list ascii) : bool :=
  match e, s with
  | [], _ => true
  | a :: e', b :: s' => Ascii.eqb a b && hasPrefix e' s'
  | _ :: _, [] => false
  end.

(** One step of trimming: the string without the white space character that
    it starts with, if it starts with one. *)
Definition stripOne (ws : list (list ascii)) (s : list ascii) : option (list ascii) :=
  match List.find (fun e => hasPrefix e s) ws with
  | Some e => Some (drop (length e) s)
  | None => None
  end.

Fixpoint trimLeftN (ws : list (list ascii)) (n : nat) (s : list ascii) : list ascii :=
  match n with
  | O => s
  | S n' =>
      match stripOne ws s with
      | Some s' => trimLeftN ws n' s'
      | None => s
      end
  end.

(** strings.TrimLeftFunc(s, unicode.IsSpace): the characters are decoded from
    the first byte on, one step for each. *)
Definition TrimLeft (ws : list (list ascii)) (s : list ascii) : list ascii :=
  trimLeftN ws (length s) s.

(** strings.TrimRightFunc(s, unicode.IsSpace): the characters are decoded
    from the last byte back. *)
Definition TrimRight (ws : list (list ascii)) (s : list ascii) : list ascii :=
  reverse (TrimLeft (reverse <$> ws) (reverse s)).

(** strings.TrimSpace *)
Definition TrimSpace (s : list ascii) : list ascii :=
  TrimRight whiteSpace (TrimLeft whiteSpace s).

(** strings.Split(s, "\n") *)
Fixpoint Split (s : list ascii) : list (list ascii) :=
  match s with
  | [] => [[]]
  | c :: s' =>
      if Ascii.eqb c newline then [] :: Split s'
      else match Split s' with
           | line :: rest => (c :: line) :: rest
           | [] => [[c]]
           end
  end.

Definition normalize (input : list ascii) : list (list ascii) :=
  map TrimSpace (Split (TrimSpace (ReplaceAllString input))).

(** The lines put together again, with a line feed between two of them. *)
Fixpoint joinLines (lines : list (list ascii)) : list ascii :=
  match lines with
  | [] => []
  | [line] => line
  | line :: rest => line ++ newline :: joinLines rest
  end.

(** No tab, and no two blanks in a row. *)
Fixpoint collapsed (s : list ascii) : bool :=
  match s with
  | [] => true
  | c :: s' =>
      negb (Ascii.eqb c (byte 9))
      && negb (isBlank c && match s' with
                            | c' :: _ => isBlank c'
                            | [] => false
                            end)
      && collapsed s'
  end.

(** No white space character at the start of [s], and none at its end. *)
Definition leftFixed (ws : list (list ascii)) (s : list ascii) : Prop :=
  forall e, e ∈ ws -> hasPrefix e s = false.

Definition rightFixed (ws : list (list ascii)) (s : list ascii) : Prop :=
  leftFixed (reverse <$> ws) (reverse s).

Definition noNewline (s : list ascii) : Prop := newline ∉ s.

Definition startsBlank (s : list ascii) : bool :=
  match s with
  | c :: _ => isBlank c
  | [] => false
  end.

(** What TestVerify compares: the expected and the actual text of a stream,
    both normalized. *)
Definition sameText (expect actual : string) : Prop :=
  normalize (list_ascii_of_string expect) = normalize (list_ascii_of_string actual).

(** The text that reaches a writer: the lines written to stderr, and the
    rows given to the tab writer.  The tab writer puts blanks for the tabs
    that end the cells, which [normalize] does not tell apart from one
    blank. *)
Definition streamText (lines : list string) : string :=
  fold_right String.append "" lines.

Fixpoint tableText (out : list OutEvent) : string :=
  match out with
  | [] => ""
  | TabWrite line :: rest => line +:+ tableText rest
  | _ :: rest => tableText rest
  end.

End Testing.

(** ** The library functions, and the clusters of verify_test.go *)

Module Scenarios.

(** schema.ParseGroupVersion of k8s.io/apimachinery. *)
Fixpoint countSlash (s : string) : nat :=
  match s with
  | EmptyString => 0%nat
  | String c s' =>
      if Ascii.eqb c "/"%char then S (countSlash s') else countSlash s'
  end.

Fixpoint beforeSlash (s : string) : string :=
  match s with
  | EmptyString => ""
  | String c s' => if Ascii.eqb c "/"%char then "" else String c (beforeSlash s')
  end.

Fixpoint afterSlash (s : string) : string :=
  match s with
  | EmptyString => ""
  | String c s' => if Ascii.eqb c "/"%char then s' else afterSlash s'
  end.

Definition ParseGroupVersion (gv : string) : GroupVersion * option error :=
  if isEmpty gv || String.eqb gv "/" then (mkGV "" "", None)
  else
    match countSlash gv with
    | O => (mkGV "" gv, None)
    | S O => (mkGV (beforeSlash gv) (afterSlash gv), None)
    | _ => (mkGV "" "", Some ("unexpected GroupVersion string: " +:+ gv))
    end.

(** strings.ToLower on ASCII letters. *)
Definition lowerAscii (c : ascii) : ascii :=
  let n := nat_of_ascii c in
  if (Nat.leb 65 n && Nat.leb n 90)%bool then ascii_of_nat (n + 32) else c.

Fixpoint ToLower (s : string) : string :=
  match s with
  | EmptyString => ""
  | String c s' => String (lowerAscii c) (ToLower s')
  end.

(** A discovery document: group/version, resource name, namespaced, kind. *)
Record APIResource := mkAPIResource {
  res_GroupVersion : string;
  res_Name : string;
  res_Namespaced : bool;
  res_Kind : string
}.

Definition resourceGV (r : APIResource) : GroupVersion :=
  (ParseGroupVersion (res_GroupVersion r)).1.

Definition resourceGVR (r : APIResource) : GroupVersionResource :=
  mkGVR (gv_Group (resourceGV r)) (gv_Version (resourceGV r)) (res_Name r).

(** A mapper over a discovery document, standing in for the one that
    [restmapper.NewDiscoveryRESTMapper] builds in the tests. *)
Definition tableMapper (table : list APIResource) : RESTMapper :=
  mkMapper
    (fun gk version =>
       match List.find (fun r => String.eqb (gv_Group (resourceGV r)) (gk_Group gk)
                                 && String.eqb (gv_Version (resourceGV r)) version
                                 && (String.eqb (res_Kind r) (gk_Kind gk)
                                     || String.eqb (ToLower (res_Kind r)) (gk_Kind gk)))
                       table with
       | Some r =>
           Ok (mkMapping (resourceGVR r)
                         (WithKind (resourceGV r) (res_Kind r))
                         (if res_Namespaced r then RESTScopeNameNamespace
                          else RESTScopeNameRoot))
       | None =>
           Err ("no matches for kind " +:+ quote +:+ gk_Kind gk +:+ quote
                  +:+ " in version " +:+ quote
                  +:+ GroupVersion_String (mkGV (gk_Group gk) version) +:+ quote)
       end)
    (fun gvr =>
       match List.find (fun r => if decide (resourceGVR r = gvr) then true else false)
                       table with
       | Some r => (WithKind (resourceGV r) (res_Kind r), None)
       | None => (mkGVK "" "" "", Some "no matches for resource")
       end).

Definition v1Resources : list APIResource :=
  [ mkAPIResource "v1" "nodes" false "Node";
    mkAPIResource "v1" "pods" true "Pod" ].

Definition cluster (table : list APIResource)
           (objects : GroupVersionResource -> Listing) (output : string)
  : VerifyGCOptions :=
  mkOptions (mkDiscovery NoError (tableMapper table) NoError
                         (Ok (list_to_set (map resourceGVR table))))
            objects output.

Definition run (verbosity : Z) (v : VerifyGCOptions) : Outcome :=
  Run ParseGroupVersion ToLower verbosity v.

Definition node1 : PartialObjectMetadata := mkObj "v1" "Node" "" "node1" "node1uid" [].
Definition pod1 (owners : list OwnerReference) : PartialObjectMetadata :=
  mkObj "v1" "Pod" "ns1" "pod1" "poduid1" owners.

Definition listOf (objects : list (GroupVersionResource * Listing))
           (gvr : GroupVersionResource) : Listing :=
  match List.find (fun p => if decide (p.1 = gvr) then true else false) objects with
  | Some p => p.2
  | None => LastPage []
  end.

Definition nodes : GroupVersionResource := mkGVR "" "v1" "nodes".
Definition pods : GroupVersionResource := mkGVR "" "v1" "pods".

(** "simple" *)
Definition simple (output : string) : VerifyGCOptions :=
  cluster v1Resources
          (listOf [ (nodes, LastPage [node1]);
                    (pods, LastPage [pod1 [mkOwnerRef "v1" "Node" "node1" "node1uid"]]) ])
          output.

(** "forbidden" *)
Definition forbiddenTable : list APIResource :=
  v1Resources ++ [ mkAPIResource "forbidden/v1" "forbiddenresources" true "ForbiddenKind" ].

Definition forbidden (output : string) : VerifyGCOptions :=
  cluster forbiddenTable
          (listOf [ (nodes, LastPage [node1]);
                    (pods, LastPage [pod1 [mkOwnerRef "v1" "Node" "node1" "node1uid";
                                           mkOwnerRef "forbidden/v1" "ForbiddenKind"
                                                      "forbiddenparent" "forbiddenparentuid"]]);
                    (mkGVR "forbidden" "v1" "forbiddenresources",
                     ListErr "forbiddenresources is forbidden: not authorized") ])
          output.

(** "unavailable version" *)
Definition unavailableVersion (output : string) : VerifyGCOptions :=
  cluster v1Resources
          (listOf [ (nodes, LastPage [node1]);
                    (pods, LastPage [pod1 [mkOwnerRef "v2" "Node" "node1" "node1uid"]]) ])
          output.

(** "mismatched name" *)
Definition mismatchedName (output : string) : VerifyGCOptions :=
  cluster v1Resources
          (listOf [ (nodes, LastPage [node1]);
                    (pods, LastPage [pod1 [mkOwnerRef "v1" "Node" "nodex" "node1uid"]]) ])
          output.

(** "mismatched kind" *)
Definition mismatchedKind (output : string) : VerifyGCOptions :=
  cluster v1Resources
          (listOf [ (nodes, LastPage [node1]);
                    (pods, LastPage [pod1 [mkOwnerRef "v1" "Pod" "node1" "node1uid"]]) ])
          output.

(** "cluster child, namespaced owner" *)
Definition clusterChild (output : string) : VerifyGCOptions :=
  cluster v1Resources
          (listOf [ (nodes, LastPage [mkObj "v1" "Node" "" "node1" "node1uid"
                                            [mkOwnerRef "v1" "Pod" "pod1" "poduid1"]]);
                    (pods, LastPage [pod1 []]) ])
          output.

(** "mismatched namespace" *)
Definition mismatchedNamespace (output : string) : VerifyGCOptions :=
  cluster v1Resources
          (listOf [ (pods, LastPage [ pod1 [];
                                      mkObj "v1" "Pod" "ns2" "pod2" "poduid2"
                                            [mkOwnerRef "v1" "Pod" "pod1" "poduid1"] ]) ])
          output.

(** A listing of the pods that fails on its second page. *)
Definition expiring (output : string) : VerifyGCOptions :=
  cluster v1Resources
          (listOf [ (nodes, LastPage [node1]);
                    (pods, NextPage [pod1 [mkOwnerRef "v1" "Node" "node1" "node1uid"]]
                                    (ListErr "The provided continue parameter is too old")) ])
          output.

(** A group/version that fails in both discovery calls. *)
Definition metrics : GroupVersion := mkGV "metrics.k8s.io" "v1beta1".

Definition partialDiscovery (output : string) : VerifyGCOptions :=
  mkOptions
    (mkDiscovery
       (ErrGroupDiscoveryFailed {[ metrics := "the server is currently unable to handle the request" ]})
       (tableMapper v1Resources)
       (ErrGroupDiscoveryFailed {[ metrics := "service unavailable" ]})
       (Ok (list_to_set (map resourceGVR v1Resources))))
    (listOf [ (nodes, LastPage [node1]);
              (pods, LastPage [pod1 [mkOwnerRef "v1" "Node" "node1" "node1uid"]]) ])
    output.

(** Metadata-only objects without apiVersion and kind. *)
Definition bare (output : string) : VerifyGCOptions :=
  cluster v1Resources
          (listOf [ (nodes, LastPage [mkObj "" "" "" "node1" "node1uid" []]);
                    (pods, LastPage [mkObj "" "" "ns1" "pod1" "poduid1"
                                           [mkOwnerRef "v1" "Node" "node1" "node1uid"]]) ])
          output.

(** "unavailable" *)
Definition unavailableTable : list APIResource :=
  v1Resources
    ++ [ mkAPIResource "unavailable/v1" "unavailableresources" true "UnavailableKind" ].

Definition unavailable (output : string) : VerifyGCOptions :=
  cluster unavailableTable
          (listOf [ (nodes, LastPage [node1]);
                    (pods, LastPage [pod1 [mkOwnerRef "v1" "Node" "node1" "node1uid";
                                           mkOwnerRef "unavailable/v1" "UnavailableKind"
                                                      "unavailableparent"
                                                      "unavailableparentuid"]]);
                    (mkGVR "unavailable" "v1" "unavailableresources",
                     ListErr "server is unavailable") ])
          output.

(** "multigroup object" *)
Definition multigroupTable : list APIResource :=
  v1Resources
    ++ [ mkAPIResource "group1/v1" "multigroupresources" true "MultiGroupKind";
         mkAPIResource "group2/v1beta1" "multigroupresources" true "MultiGroupKind" ].

Definition multigroup (output : string) : VerifyGCOptions :=
  cluster multigroupTable
          (listOf [ (mkGVR "group1" "v1" "multigroupresources",
                     LastPage [mkObj "group1/v1" "MultiGroupKind" "ns1" "mgr1" "mgruid1" []]);
                    (mkGVR "group2" "v1beta1" "multigroupresources",
                     LastPage [mkObj "group2/v1beta1" "MultiGroupKind" "ns1" "mgr1"
                                     "mgruid1" []]);
                    (pods, LastPage [pod1 [mkOwnerRef "group2/v1beta1" "MultiGroupKind"
                                                      "mgr1" "mgruid1"]]) ])
          output.

(** "non-preferred version": the mapper knows both versions of group1, the
    preferred resources hold v1 only. *)
Definition nonPreferredTable : list APIResource :=
  v1Resources
    ++ [ mkAPIResource "group1/v1" "multiversionresources" true "MultiVersionKind";
         mkAPIResource "group1/v1beta1" "multiversionresources" true "MultiVersionKind" ].

Definition nonPreferred (output : string) : VerifyGCOptions :=
  mkOptions
    (mkDiscovery NoError (tableMapper nonPreferredTable) NoError
                 (Ok (list_to_set [nodes; pods;
                                   mkGVR "group1" "v1" "multiversionresources"])))
    (listOf [ (mkGVR "group1" "v1" "multiversionresources",
               LastPage [mkObj "group1/v1" "MultiVersionKind" "ns1" "mgr1" "mgruid1" []]);
              (pods, LastPage [pod1 [mkOwnerRef "group1/v1beta1" "MultiVersionKind"
                                                "mgr1" "mgruid1"]]) ])
    output.

(** The lines of an expected stderr, and an expected row of the table. *)
Definition lines (l : list string) : list string := map (fun x => x +:+ nl) l.

Definition cells (l : list string) : OutEvent := TabWrite (Join l tab +:+ nl).

Definition headerRow : OutEvent :=
  cells ["GROUP"; "RESOURCE"; "NAMESPACE"; "NAME"; "OWNER_UID"; "LEVEL"; "MESSAGE"].

(** The streams a run ends with. *)
Definition finalStreams (o : Outcome) : Streams :=
  match o with
  | Returned _ s => s
  | Panicked => initialStreams
  end.

End Scenarios.


(** ** The specification's reading of the same steps *)

Module Spec.

(** The objects of the pages received before the listing ends or fails,
    and the error it ends with, if any. *)
Fixpoint retrieved (answers : Listing) : list PartialObjectMetadata :=
  match answers with
  | LastPage items => items
  | NextPage items more => items ++ retrieved more
  | ListErr _ => []
  end.

Fixpoint listingError (answers : Listing) : option error :=
  match answers with
  | LastPage _ => None
  | NextPage _ more => listingError more
  | ListErr err => Some err
  end.

(** (group, version, resource) ascending, strings compared byte by byte. *)
Definition gvrCompare (a b : GroupVersionResource) : comparison :=
  match String.compare (gvr_Group a) (gvr_Group b) with
  | Eq =>
      match String.compare (gvr_Version a) (gvr_Version b) with
      | Eq => String.compare (gvr_Resource a) (gvr_Resource b)
      | c => c
      end
  | c => c
  end.

Definition gvrLe (a b : GroupVersionResource) : Prop := gvrCompare a b <> Gt.

Definition countLevel (level : string) (findings : list Finding) : nat :=
  length (filter (fun f => f_level f = level) findings).

(** The failure sets of the two discovery calls, and their union with the
    first call's entry kept where both have one. *)
Definition groupsOf (err : DiscoveryError) : gmap GroupVersion error :=
  match err with
  | ErrGroupDiscoveryFailed Groups => Groups
  | _ => ∅
  end.

Definition recordedDiscoveryFailures (d : DiscoveryInterface)
  : gmap GroupVersion error :=
  groupsOf (GetAPIGroupResources_err d) ∪ groupsOf (ServerPreferredResources_err d).

Definition discoveryNotice (entry : GroupVersion * error) : string :=
  "warning: could not discover resources in "
    +:+ GroupVersion_String entry.1 +:+ ": " +:+ entry.2.

(** The entries a notice is due for: those of the first call, then those of
    the second call whose group/version the first call did not report. *)
Definition noticed (d : DiscoveryInterface) : list (GroupVersion * error) :=
  map_to_list (groupsOf (GetAPIGroupResources_err d))
    ++ filter (fun entry => groupsOf (GetAPIGroupResources_err d) !! entry.1 = None)
              (map_to_list (groupsOf (ServerPreferredResources_err d))).

Definition isDiscoveryNotice (line : string) : bool :=
  String.prefix "warning: could not discover" line.

(** The objects of a resource type that reach the indexes, in fetch order. *)
Definition fetchedOf (mapper : RESTMapper) (client : GroupVersionResource -> Listing)
           (gvr : GroupVersionResource) : list PartialObjectMetadata :=
  map (backfill (mapper_KindFor mapper gvr).1) (retrieved (client gvr)).

Definition failedListings (client : GroupVersionResource -> Listing)
           (gvrs : list GroupVersionResource) : list GroupVersionResource :=
  filter (fun gvr => is_Some (listingError (client gvr))) gvrs.

(** A counter after [n] increments. *)
Definition bump (n : nat) (c : Z) : Z := Nat.iter n incr c.

(** 1 for a listing that ends in an error, 0 otherwise. *)
Definition failureCount (answers : Listing) : nat :=
  match listingError answers with
  | Some _ => 1%nat
  | None => 0%nat
  end.

(** What fetching may do to the counters and streams: [n] warnings are
    counted, and lines that are not discovery notices go to stderr. *)
Definition diagnosed (n : nat) (s s' : Streams) : Prop :=
  errorCount s' = errorCount s
  /\ warningCount s' = bump n (warningCount s)
  /\ initialized s' = initialized s
  /\ Stdout s' = Stdout s
  /\ emitted s' = emitted s
  /\ exists lines, Stderr s' = Stderr s ++ lines
                   /\ Forall (fun line => isDiscoveryNotice line = false) lines.

(** What validating may do to the counters and streams when it emits the
    findings [fs]: the tabular sink counts them by level, the JSON sink
    leaves the counters alone, and stderr is not written. *)
Definition validated (output : string) (fs : list Finding) (s s' : Streams) : Prop :=
  emitted s' = emitted s ++ fs
  /\ Stderr s' = Stderr s
  /\ (output = "" ->
      errorCount s' = bump (countLevel levelError fs) (errorCount s)
      /\ warningCount s' = bump (countLevel levelWarning fs) (warningCount s))
  /\ (output = "json" ->
      errorCount s' = errorCount s /\ warningCount s' = warningCount s).

(** "<N> noun(s)": the singular exactly for the count 1. *)
Definition counted (n : Z) (noun : string) : string :=
  itoa n +:+ " " +:+ noun +:+ (if decide (n = 1) then "" else "s").

(** The last line on stderr for the final counters. *)
Definition summaryLine (errors warnings : Z) : string :=
  if decide (errors = 0 /\ warnings = 0)
  then "No invalid ownerReferences found" +:+ nl
  else counted errors "error" +:+ ", " +:+ counted warnings "warning" +:+ nl.

(** The enumerable resource types of a run, in catalog order. *)
Definition resourceTypes (d : DiscoveryInterface) : list GroupVersionResource :=
  match GroupVersionResources d with
  | Ok gvrMap => catalog gvrMap
  | Err _ => []
  end.

(** The owner references carried by the objects that the run retrieves. *)
Definition ownerReferencesOf (client : GroupVersionResource -> Listing)
           (gvrs : list GroupVersionResource) : list OwnerReference :=
  flat_map (fun gvr => flat_map OwnerReferences (retrieved (client gvr))) gvrs.

(** What a run can count: recorded discovery failures, resource types and
    retrieved owner references.  All of them are held in memory, so their
    number is within the range of an int. *)
Definition load (v : VerifyGCOptions) : nat :=
  size (recordedDiscoveryFailures (DiscoveryClient v))
  + length (resourceTypes (DiscoveryClient v))
  + length (ownerReferencesOf (MetadataClient v) (resourceTypes (DiscoveryClient v))).

Definition fitsInt (v : VerifyGCOptions) : Prop := Z.of_nat (load v) < 2 ^ 63.

(** What the two sinks show of a finding: the tab-separated row, and the
    record that is encoded as JSON. *)
Definition header : string :=
  Join ["GROUP"; "RESOURCE"; "NAMESPACE"; "NAME"; "OWNER_UID"; "LEVEL"; "MESSAGE"] tab
    +:+ nl.

Definition row (f : Finding) : string :=
  Join [gvr_Group (f_gvr f); gvr_Resource (f_gvr f); Namespace (f_item f);
        Name (f_item f); or_UID (f_ownerRef f); f_level f; f_msg f] tab
    +:+ nl.

Definition record (f : Finding) : invalidReference :=
  mkInvalidReference
    (mkGVR (gvr_Group (f_gvr f)) (gvr_Version (f_gvr f)) (gvr_Resource (f_gvr f)))
    (mkGVK (gvr_Group (f_gvr f)) (gvr_Version (f_gvr f)) (Kind (f_item f)))
    (Namespace (f_item f)) (Name (f_item f)) (f_ownerRef f) (f_level f) (f_msg f).

(** The writes to stdout, the flushes left out. *)
Definition writes (out : list OutEvent) : list OutEvent :=
  List.filter (fun e => match e with TabFlush => false | _ => true end) out.

(** The table for a list of findings: nothing for none, else the header and
    one row per finding. *)
Definition table (fs : list Finding) : list OutEvent :=
  match fs with
  | [] => []
  | _ :: _ => TabWrite header :: map (fun f => TabWrite (row f)) fs
  end.

(** The state of the tabular sink and of the JSON sink agrees with the
    findings emitted so far. *)
Definition tabularSinkOk (s : Streams) : Prop :=
  writes (Stdout s) = table (emitted s)
  /\ (initialized s = false <-> emitted s = []).

Definition jsonSinkOk (s : Streams) : Prop :=
  writes (Stdout s) = map (fun f => JsonEncode (record f)) (emitted s).

(** A check fires with a severity and a message, or does not fire. *)
Definition Verdict : Type := option (string * string).

Fixpoint firstFiring (checks : list Verdict) : Verdict :=
  match checks with
  | [] => None
  | Some f :: _ => Some f
  | None :: rest => firstFiring rest
  end.

Section Checks.

Variable ParseGroupVersion : string -> GroupVersion * option error.
Variable ToLower : string -> string.
Variable mapper : RESTMapper.
Variable discoveryFailures : gmap GroupVersion error.
Variable listFailures : gmap GroupResource error.
Variable uidBuckets : gmap string (list PartialObjectMetadata).

(** The three aspects of the multi-candidate cross-check. *)
Definition nameAspect (ownerRef : OwnerReference)
           (candidate : PartialObjectMetadata) : bool :=
  String.eqb (Name candidate) (or_Name ownerRef).

Definition namespaceAspect (child candidate : PartialObjectMetadata) : bool :=
  isEmpty (Namespace candidate)
  || String.eqb (Namespace candidate) (Namespace child).

Definition kindGroupAspect (ownerRef : OwnerReference)
           (candidate : PartialObjectMetadata) : bool :=
  (isEmpty (APIVersion candidate) || isEmpty (Kind candidate))
  || (String.eqb (gv_Group (ParseGroupVersion (APIVersion candidate)).1)
                 (gv_Group (ParseGroupVersion (or_APIVersion ownerRef)).1)
      && (String.eqb (Kind candidate) (or_Kind ownerRef)
          || String.eqb (ToLower (Kind candidate)) (or_Kind ownerRef))).

Definition ownerGV (ownerRef : OwnerReference) : GroupVersion :=
  (ParseGroupVersion (or_APIVersion ownerRef)).1.

Definition resolved (ownerRef : OwnerReference) : res RESTMapping :=
  mapper_RESTMapping mapper (mkGK (gv_Group (ownerGV ownerRef)) (or_Kind ownerRef))
                     (gv_Version (ownerGV ownerRef)).

Definition bucket (ownerRef : OwnerReference) : list PartialObjectMetadata :=
  default [] (uidBuckets !! or_UID ownerRef).

(** 1. Parse owner apiVersion. *)
Definition parseCheck (ownerRef : OwnerReference) : Verdict :=
  match (ParseGroupVersion (or_APIVersion ownerRef)).2 with
  | Some err =>
      Some (levelError,
            "invalid owner apiVersion " +:+ or_APIVersion ownerRef +:+ ": " +:+ err)
  | None => None
  end.

(** 2. Resolve owner kind. *)
Definition resolveCheck (ownerRef : OwnerReference) : Verdict :=
  match resolved ownerRef with
  | Err err =>
      match discoveryFailures !! ownerGV ownerRef with
      | Some discoveryErr =>
          Some (levelWarning,
                "failed resolving resources for " +:+ or_APIVersion ownerRef
                  +:+ ": " +:+ discoveryErr)
      | None => Some (levelError, "cannot resolve owner apiVersion/kind: " +:+ err)
      end
  | Ok _ => None
  end.

(** 3. Scope check. *)
Definition scopeCheck (child : PartialObjectMetadata) (ownerRef : OwnerReference)
  : Verdict :=
  match resolved ownerRef with
  | Ok mapping =>
      match mapping_Scope mapping with
      | RESTScopeNameNamespace =>
          if isEmpty (Namespace child)
          then Some (levelError,
                     "cannot reference namespaced type as owner (apiVersion="
                       +:+ GroupVersion_String (ownerGV ownerRef)
                       +:+ ",kind=" +:+ or_Kind ownerRef +:+ ")")
          else None
      | RESTScopeNameRoot => None
      end
  | Err _ => None
  end.

(** 4. Existence check. *)
Definition existenceCheck (ownerRef : OwnerReference) : Verdict :=
  match bucket ownerRef with
  | [] =>
      match resolved ownerRef with
      | Ok mapping =>
          match listFailures !! GVR_GroupResource (mapping_Resource mapping) with
          | Some _ =>
              Some (levelWarning,
                    "could not list parent resource "
                      +:+ GroupResource_String
                            (GVR_GroupResource (mapping_Resource mapping)))
          | None => Some (levelError, "no object found for uid")
          end
      | Err _ => Some (levelError, "no object found for uid")
      end
  | _ :: _ => None
  end.

(** 5. Multi-candidate cross-check: each aspect holds when some candidate
    of the bucket has it; the message shows the last candidate. *)
Definition crossCheckVerdict (child : PartialObjectMetadata)
           (ownerRef : OwnerReference) : Verdict :=
  let candidates := bucket ownerRef in
  if negb (existsb (namespaceAspect child) candidates)
  then Some (levelError,
             "child namespace does not match owner namespace ("
               +:+ default "" (Namespace <$> last candidates) +:+ ")")
  else if negb (existsb (nameAspect ownerRef) candidates)
  then Some (levelError,
             "ownerReference name (" +:+ or_Name ownerRef
               +:+ ") does not match owner name ("
               +:+ default "" (Name <$> last candidates) +:+ ")")
  else if negb (existsb (kindGroupAspect ownerRef) candidates)
  then Some (levelError,
             "ownerReference group/kind (" +:+ gv_Group (ownerGV ownerRef) +:+ "/"
               +:+ or_Kind ownerRef
               +:+ ") does not match owner group/kind ("
               +:+ default "" ((fun c => gv_Group (ParseGroupVersion (APIVersion c)).1)
                                 <$> last candidates)
               +:+ "/" +:+ default "" (Kind <$> last candidates) +:+ ")")
  else None.

Definition orderedChecks (child : PartialObjectMetadata)
           (ownerRef : OwnerReference) : list Verdict :=
  [ parseCheck ownerRef; resolveCheck ownerRef; scopeCheck child ownerRef;
    existenceCheck ownerRef; crossCheckVerdict child ownerRef ].

Definition verdict (child : PartialObjectMetadata) (ownerRef : OwnerReference)
  : Verdict :=
  firstFiring (orderedChecks child ownerRef).

(** The findings of one owner reference, one object, one resource type. *)
Definition findingsOfRef (gvr : GroupVersionResource)
           (child : PartialObjectMetadata) (ownerRef : OwnerReference)
  : list Finding :=
  match verdict child ownerRef with
  | Some (level, msg) => [mkFinding gvr child ownerRef level msg]
  | None => []
  end.

(** What reporting a verdict through a sink does to the streams. *)
Definition report (sink : refMessageFn) (gvr : GroupVersionResource)
           (child : PartialObjectMetadata) (ownerRef : OwnerReference)
           (v : Verdict) (s : Streams) : Streams :=
  match v with
  | Some (level, msg) =>
      logFinding (mkFinding gvr child ownerRef level msg)
                 (sink gvr child ownerRef level msg s)
  | None => s
  end.

Definition findingsOfChild (gvr : GroupVersionResource)
           (child : PartialObjectMetadata) : list Finding :=
  flat_map (findingsOfRef gvr child) (OwnerReferences child).

(** The findings over an index by resource type. *)
Definition findingsOver
           (byType : gmap GroupVersionResource (list PartialObjectMetadata))
           (gvrs : list GroupVersionResource) : list Finding :=
  flat_map (fun gvr => flat_map (findingsOfChild gvr) (default [] (byType !! gvr)))
           gvrs.

(** Catalog order, then fetch order, then declaration order. *)
Definition findingsOfRun (client : GroupVersionResource -> Listing)
           (gvrs : list GroupVersionResource) : list Finding :=
  flat_map (fun gvr => flat_map (findingsOfChild gvr) (fetchedOf mapper client gvr))
           gvrs.

End Checks.

(** The lines that fetching a resource type writes to stderr at verbosity
    [klogV]: the "fetching" line from level 2, a "got" line per page from
    level 3, and the warning when a request fails. *)
Definition gotLine (klogV : Z) (items : list PartialObjectMetadata) : list string :=
  if 3 <=? klogV
  then ["got " +:+ pluralize (Z.of_nat (length items)) "item" "items" +:+ nl]
  else [].

Fixpoint pageLog (klogV : Z) (gvr : GroupVersionResource) (answers : Listing)
  : list string :=
  match answers with
  | LastPage items => gotLine klogV items
  | NextPage items more => gotLine klogV items ++ pageLog klogV gvr more
  | ListErr err =>
      ["warning: could not list " +:+ GroupVersionResource_String gvr
         +:+ ": " +:+ err +:+ nl]
  end.

Definition fetchLog (klogV : Z) (client : GroupVersionResource -> Listing)
           (gvr : GroupVersionResource) : list string :=
  (if 2 <=? klogV
   then ["fetching " +:+ GroupVersion_String (GVR_GroupVersion gvr)
           +:+ ", " +:+ gvr_Resource gvr +:+ nl]
   else [])
    ++ pageLog klogV gvr (client gvr).

(** The error of the last failed listing among the resource types of a
    group and resource, whatever their version. *)
Definition lastFailure (client : GroupVersionResource -> Listing)
           (gvrs : list GroupVersionResource) (gr : GroupResource) : option error :=
  last (omap (fun gvr => if decide (GVR_GroupResource gvr = gr)
                         then listingError (client gvr) else None)
             gvrs).

(** A table without its header gets it before the first row. *)
Fixpoint withHeader (out : list OutEvent) : list OutEvent :=
  match out with
  | [] => []
  | TabFlush :: rest => TabFlush :: withHeader rest
  | e :: rest => TabWrite header :: e :: rest
  end.

(** What reaches the two writers for the findings of each resource type:
    the rows or the records of a type, then the flush after that type. *)
Definition tabularEvents (findings : GroupVersionResource -> list Finding)
           (gvrs : list GroupVersionResource) : list OutEvent :=
  withHeader
    (flat_map (fun gvr => map (fun f => TabWrite (row f)) (findings gvr) ++ [TabFlush])
              gvrs).

Definition jsonEvents (findings : GroupVersionResource -> list Finding)
           (gvrs : list GroupVersionResource) : list OutEvent :=
  flat_map (fun gvr => map (fun f => JsonEncode (record f)) (findings gvr) ++ [TabFlush])
           gvrs.

(** The streams without what was written to stderr. *)
Definition quiet (s : Streams) : Streams :=
  mkStreams (errorCount s) (warningCount s) (initialized s) (Stdout s) []
            (emitted s).

(** sort.SliceIsSorted: no element is less than the one before it. *)
Fixpoint isSorted {A : Type} (less : A -> A -> bool) (l : list A) : bool :=
  match l with
  | a :: (b :: _) as rest => negb (less b a) && isSorted less rest
  | _ => true
  end.

(** The decimal count that a line starts with: the characters before the
    first space, read as an integer. *)
Fixpoint beforeSpace (s : string) : string :=
  match s with
  | EmptyString => ""
  | String c s' => if Ascii.eqb c " "%char then "" else String c (beforeSpace s')
  end.

Definition readCount (line : string) : option Z :=
  Z.of_int <$> NilZero.int_of_string (beforeSpace line).

End Spec.

(** ** Definitions used in the statements about the two streams *)

(** The tabular sink: the header goes before the first row written. *)
Definition hasWrite (out : list OutEvent) : bool :=
  existsb (fun e => match e with TabFlush => false | _ => true end) out.

Definition withHeaderIf (started : bool) (out : list OutEvent) : list OutEvent :=
  if started then out else Spec.withHeader out.

(** What a piece of the validation does to stdout, for each of the sinks. *)
Definition tabularStep (out : list OutEvent) (s s' : Streams) : Prop :=
  Stdout s' = Stdout s ++ withHeaderIf (initialized s) out
  /\ initialized s' = initialized s || hasWrite out.

Definition jsonStep (out : list OutEvent) (s s' : Streams) : Prop :=
  Stdout s' = Stdout s ++ out.

(** Two states of the fetch loop that differ in what was written to stderr
    only. *)
Definition sameFetch (st1 st2 : Fetch) : Prop :=
  grListErrors st1 = grListErrors st2
  /\ byGVR st1 = byGVR st2
  /\ byUID st1 = byUID st2
  /\ Spec.quiet (fetchOut st1) = Spec.quiet (fetchOut st2).

Fixpoint noSpace (s : string) : bool :=
  match s with
  | EmptyString => true
  | String c s' => negb (Ascii.eqb c " "%char) && noSpace s'
  end.

(** * Properties *)

(** ** Counting with Go ints *)

Lemma bump_add n m c : Spec.bump (n + m) c = Spec.bump m (Spec.bump n c).
Proof. unfold Spec.bump. rewrite Nat.add_comm. apply Nat.iter_add. Qed.

Lemma bump_S n c : Spec.bump (S n) c = Spec.bump n (incr c).
Proof. change (S n) with (1 + n)%nat. apply bump_add. Qed.

(** Below the word size the increments add up. *)
Lemma bump_exact n c :
  0 <= c -> c + Z.of_nat n < 2 ^ 63 -> Spec.bump n c = c + Z.of_nat n.
Proof.
  induction n as [|n IH]; intros Hc Hn; simpl; [lia|].
  fold (Spec.bump n c). rewrite IH by lia.
  unfold incr, wrapInt. rewrite Z.mod_small by lia. lia.
Qed.

(** ** The sinks *)

Lemma Validate_nil v : Validate v = None <-> Output v = "" \/ Output v = "json".
Proof.
  unfold Validate.
  destruct (String.eqb (Output v) "") eqn:E1;
    destruct (String.eqb (Output v) "json") eqn:E2; simpl;
    rewrite ?String.eqb_eq, ?String.eqb_neq in *; intuition congruence.
Qed.

Section SinkFacts.

Lemma outputRefMessage_valid output :
  output = "" \/ output = "json" ->
  outputRefMessage output = Some tabularRefMessage
  \/ outputRefMessage output = Some jsonRefMessage.
Proof. intros [-> | ->]; [left | right]; reflexivity. Qed.

Lemma tabularRefMessage_emitted gvr item ownerRef level msg s :
  emitted (tabularRefMessage gvr item ownerRef level msg s) = emitted s.
Proof.
  unfold tabularRefMessage.
  destruct (String.eqb level levelError); simpl; destruct (initialized s); reflexivity.
Qed.

Lemma jsonRefMessage_emitted gvr item ownerRef level msg s :
  emitted (jsonRefMessage gvr item ownerRef level msg s) = emitted s.
Proof. reflexivity. Qed.

Lemma tabularRefMessage_Stderr gvr item ownerRef level msg s :
  Stderr (tabularRefMessage gvr item ownerRef level msg s) = Stderr s.
Proof.
  unfold tabularRefMessage.
  destruct (String.eqb level levelError); simpl; destruct (initialized s); reflexivity.
Qed.

Lemma tabularRefMessage_errorCount gvr item ownerRef level msg s :
  errorCount (tabularRefMessage gvr item ownerRef level msg s)
  = Spec.bump (if String.eqb level levelError then 1 else 0) (errorCount s).
Proof.
  unfold tabularRefMessage.
  destruct (String.eqb level levelError); simpl; destruct (initialized s);
    reflexivity.
Qed.

Lemma tabularRefMessage_warningCount gvr item ownerRef level msg s :
  warningCount (tabularRefMessage gvr item ownerRef level msg s)
  = Spec.bump (if String.eqb level levelError then 0 else 1) (warningCount s).
Proof.
  unfold tabularRefMessage.
  destruct (String.eqb level levelError); simpl; destruct (initialized s);
    reflexivity.
Qed.

End SinkFacts.

(** ** The loop over the candidates of a UID bucket *)

Lemma default_last_cons {A B : Type} (f : A -> B) (d : B) (a : A) (l : list A) :
  default d (f <$> last (a :: l)) = default (f a) (f <$> last l).
Proof.
  destruct l as [|b l]; [reflexivity|].
  change (last (a :: b :: l)) with (last (b :: l)).
  destruct (last (b :: l)) eqn:E; [reflexivity|].
  apply last_None in E. discriminate.
Qed.

Section CrossCheckFacts.

Variable ParseGroupVersion : string -> GroupVersion * option error.
Variable ToLower : string -> string.
Variable child : PartialObjectMetadata.
Variable ownerRef : OwnerReference.

Let ownerGV := Spec.ownerGV ParseGroupVersion ownerRef.
Let step := crossCheckStep ParseGroupVersion ToLower child ownerRef ownerGV.
Let nsA := Spec.namespaceAspect child.
Let nameA := Spec.nameAspect ownerRef.
Let kindA := Spec.kindGroupAspect ParseGroupVersion ToLower ownerRef.

Lemma step_namespaceOk c a : namespaceOk (step c a) = namespaceOk c || nsA a.
Proof.
  subst step nsA. unfold crossCheckStep, Spec.namespaceAspect.
  repeat case_match; simplify_eq/=;
    rewrite ?orb_true_r, ?orb_false_r; congruence.
Qed.

Lemma step_nameOk c a : nameOk (step c a) = nameOk c || nameA a.
Proof.
  subst step nameA. unfold crossCheckStep, Spec.nameAspect.
  repeat case_match; simplify_eq/=;
    rewrite ?orb_true_r, ?orb_false_r; congruence.
Qed.

Lemma step_groupKindOk c a : groupKindOk (step c a) = groupKindOk c || kindA a.
Proof.
  subst step kindA ownerGV.
  unfold crossCheckStep, Spec.kindGroupAspect, Spec.ownerGV.
  destruct (isEmpty (APIVersion a) || isEmpty (Kind a)) eqn:He;
    destruct (String.eqb (Name a) (or_Name ownerRef));
    destruct (isEmpty (Namespace a) || String.eqb (Namespace a) (Namespace child));
    simpl; rewrite ?orb_true_r; try reflexivity;
    destruct (String.eqb (Kind a) (or_Kind ownerRef));
    destruct (String.eqb (gv_Group (ParseGroupVersion (APIVersion a)).1)
                         (gv_Group (ParseGroupVersion (or_APIVersion ownerRef)).1));
    destruct (String.eqb (ToLower (Kind a)) (or_Kind ownerRef));
    simpl; rewrite ?orb_true_r, ?orb_false_r; reflexivity.
Qed.

Lemma step_actualNamespace c a :
  nsA a = false -> actualNamespace (step c a) = Namespace a.
Proof.
  subst step nsA. unfold crossCheckStep, Spec.namespaceAspect. intros ->.
  repeat case_match; simplify_eq/=; reflexivity.
Qed.

Lemma step_actualName c a :
  nameA a = false -> actualName (step c a) = Name a.
Proof.
  subst step nameA. unfold crossCheckStep, Spec.nameAspect. intros ->.
  repeat case_match; simplify_eq/=; reflexivity.
Qed.

Lemma step_actualGVK c a :
  kindA a = false ->
  actualGVK (step c a) = WithKind (ParseGroupVersion (APIVersion a)).1 (Kind a).
Proof.
  subst step kindA ownerGV.
  unfold crossCheckStep, Spec.kindGroupAspect, Spec.ownerGV. intros H.
  apply orb_false_iff in H as [-> H].
  destruct (String.eqb (Name a) (or_Name ownerRef));
    destruct (isEmpty (Namespace a) || String.eqb (Namespace a) (Namespace child));
    destruct (String.eqb (Kind a) (or_Kind ownerRef));
    destruct (String.eqb (gv_Group (ParseGroupVersion (APIVersion a)).1)
                         (gv_Group (ParseGroupVersion (or_APIVersion ownerRef)).1));
    destruct (String.eqb (ToLower (Kind a)) (or_Kind ownerRef));
    simpl in *; try discriminate; reflexivity.
Qed.

(** The three flags after the loop: each is the disjunction of its aspect
    over the candidates. *)
Lemma fold_flags l c :
  let c' := fold_left step l c in
  namespaceOk c' = namespaceOk c || existsb nsA l
  /\ nameOk c' = nameOk c || existsb nameA l
  /\ groupKindOk c' = groupKindOk c || existsb kindA l.
Proof.
  revert c. induction l as [|a l IH]; intros c; simpl.
  - rewrite !orb_false_r. auto.
  - destruct (IH (step c a)) as (H1 & H2 & H3).
    rewrite H1, H2, H3, step_namespaceOk, step_nameOk, step_groupKindOk.
    rewrite !orb_assoc. auto.
Qed.

(** When an aspect fails on every candidate, the "actual" value kept for the
    message is the one of the last candidate. *)
Lemma fold_actualNamespace l c :
  existsb nsA l = false ->
  actualNamespace (fold_left step l c)
  = default (actualNamespace c) (Namespace <$> last l).
Proof.
  revert c. induction l as [|a l IH]; intros c H; simpl in *; [reflexivity|].
  apply orb_false_iff in H as [Ha Hl].
  rewrite (IH _ Hl), (step_actualNamespace _ _ Ha).
  symmetry. apply default_last_cons.
Qed.

Lemma fold_actualName l c :
  existsb nameA l = false ->
  actualName (fold_left step l c) = default (actualName c) (Name <$> last l).
Proof.
  revert c. induction l as [|a l IH]; intros c H; simpl in *; [reflexivity|].
  apply orb_false_iff in H as [Ha Hl].
  rewrite (IH _ Hl), (step_actualName _ _ Ha).
  symmetry. apply default_last_cons.
Qed.

Lemma fold_actualGVK l c :
  existsb kindA l = false ->
  actualGVK (fold_left step l c)
  = default (actualGVK c)
            ((fun a => WithKind (ParseGroupVersion (APIVersion a)).1 (Kind a)) <$> last l).
Proof.
  revert c. induction l as [|a l IH]; intros c H; simpl in *; [reflexivity|].
  apply orb_false_iff in H as [Ha Hl].
  rewrite (IH _ Hl), (step_actualGVK _ _ Ha).
  symmetry.
  apply (default_last_cons
           (fun a => WithKind (ParseGroupVersion (APIVersion a)).1 (Kind a))).
Qed.

End CrossCheckFacts.

(** ** One owner reference *)

Section ValidationFacts.

Variable ParseGroupVersion : string -> GroupVersion * option error.
Variable ToLower : string -> string.
Variable mapper : RESTMapper.
Variable gvDiscoveryFailures : gmap GroupVersion error.
Variable grListErrs : gmap GroupResource error.
Variable byUID' : gmap string (list PartialObjectMetadata).

Let validate :=
  validateOwnerRef ParseGroupVersion ToLower mapper gvDiscoveryFailures
                   grListErrs byUID'.
Let verdict :=
  Spec.verdict ParseGroupVersion ToLower mapper gvDiscoveryFailures
               grListErrs byUID'.

(** The cross-check of the code on a bucket is the verdict of check 5. *)
Lemma crossCheck_verdict child ownerRef candidates :
  let c := crossCheck ParseGroupVersion ToLower child ownerRef
                      (Spec.ownerGV ParseGroupVersion ownerRef) candidates in
  namespaceOk c = existsb (Spec.namespaceAspect child) candidates
  /\ nameOk c = existsb (Spec.nameAspect ownerRef) candidates
  /\ groupKindOk c
     = existsb (Spec.kindGroupAspect ParseGroupVersion ToLower ownerRef) candidates
  /\ (namespaceOk c = false ->
      actualNamespace c = default "" (Namespace <$> last candidates))
  /\ (nameOk c = false -> actualName c = default "" (Name <$> last candidates))
  /\ (groupKindOk c = false ->
      actualGVK c
      = default (mkGVK "" "" "")
                ((fun a => WithKind (ParseGroupVersion (APIVersion a)).1 (Kind a))
                   <$> last candidates)).
Proof.
  intros c. subst c. unfold crossCheck.
  destruct (fold_flags ParseGroupVersion ToLower child ownerRef candidates
                       crossCheckInit) as (H1 & H2 & H3).
  simpl in H1, H2, H3.
  repeat split; try assumption.
  - rewrite H1. apply fold_actualNamespace.
  - rewrite H2. apply fold_actualName.
  - rewrite H3. apply fold_actualGVK.
Qed.

(** The body of the loop over owner references reports the first check
    that fires, through whichever sink is installed. *)
Lemma validateOwnerRef_verdict sink gvr child ownerRef s :
  validate (Some sink) gvr child ownerRef s
  = Some (Spec.report sink gvr child ownerRef (verdict child ownerRef) s).
Proof.
  subst validate verdict.
  pose proof (crossCheck_verdict child ownerRef
                (default [] (byUID' !! or_UID ownerRef))) as HC.
  unfold validateOwnerRef, Spec.verdict, Spec.orderedChecks, Spec.parseCheck,
    Spec.resolveCheck, Spec.scopeCheck, Spec.existenceCheck,
    Spec.crossCheckVerdict, Spec.resolved, Spec.bucket, Spec.ownerGV in *.
  unfold GVK_GroupKind, GVK_GroupVersion, WithKind.
  destruct (ParseGroupVersion (or_APIVersion ownerRef)) as [[g ver] [e|]] eqn:HP;
    simpl in *; [reflexivity|].
  destruct (mapper_RESTMapping mapper (mkGK g (or_Kind ownerRef)) ver)
    as [m|e] eqn:HM; simpl.
  2:{ destruct (gvDiscoveryFailures !! _); reflexivity. }
  destruct (mapping_Scope m), (isEmpty (Namespace child)); simpl;
    try reflexivity.
  all: destruct (default [] (byUID' !! or_UID ownerRef)) as [|a l] eqn:HB;
    [ simpl; destruct (grListErrs !! _); reflexivity | ].
  all: change (Nat.eqb (length (a :: l)) 0) with false; cbv iota.
  all: destruct HC as (H1 & H2 & H3 & A1 & A2 & A3).
  all: rewrite H1, H2, H3 in *.
  all: destruct (existsb (Spec.namespaceAspect child) (a :: l)); cbn [negb];
    [ | rewrite A1 by reflexivity; reflexivity ].
  all: destruct (existsb (Spec.nameAspect ownerRef) (a :: l)); cbn [negb];
    [ | rewrite A2 by reflexivity; reflexivity ].
  all: destruct (existsb _ (a :: l)); cbn [negb];
    [ reflexivity | rewrite A3 by reflexivity ].
  all: destruct (last (a :: l)); reflexivity.
Qed.

End ValidationFacts.

(** ** The aspects as propositions *)

Lemma isEmpty_true s : isEmpty s = true <-> s = "".
Proof. unfold isEmpty. apply String.eqb_eq. Qed.

Lemma nameAspect_true ownerRef a :
  Spec.nameAspect ownerRef a = true <-> Name a = or_Name ownerRef.
Proof. unfold Spec.nameAspect. apply String.eqb_eq. Qed.

Lemma namespaceAspect_true child a :
  Spec.namespaceAspect child a = true
  <-> Namespace a = "" \/ Namespace a = Namespace child.
Proof.
  unfold Spec.namespaceAspect.
  rewrite orb_true_iff, isEmpty_true, String.eqb_eq. reflexivity.
Qed.

Lemma kindGroupAspect_true ParseGroupVersion ToLower ownerRef a :
  Spec.kindGroupAspect ParseGroupVersion ToLower ownerRef a = true
  <-> (APIVersion a = "" \/ Kind a = "")
      \/ (gv_Group (ParseGroupVersion (APIVersion a)).1
          = gv_Group (ParseGroupVersion (or_APIVersion ownerRef)).1
          /\ (Kind a = or_Kind ownerRef \/ ToLower (Kind a) = or_Kind ownerRef)).
Proof.
  unfold Spec.kindGroupAspect.
  rewrite !orb_true_iff, andb_true_iff, orb_true_iff, !isEmpty_true, !String.eqb_eq.
  reflexivity.
Qed.

Lemma existsb_witness {A : Type} (f : A -> bool) (l : list A) (x : A) :
  x ∈ l -> f x = true -> existsb f l = true.
Proof.
  intros Hin Hf. apply existsb_exists. exists x. split; [|exact Hf].
  apply list_elem_of_In. exact Hin.
Qed.

(** ** Findings of one owner reference, for the two sinks of Run *)

Section EmittedFacts.

Variable ParseGroupVersion : string -> GroupVersion * option error.
Variable ToLower : string -> string.
Variable mapper : RESTMapper.
Variable gvDiscoveryFailures : gmap GroupVersion error.
Variable grListErrs : gmap GroupResource error.
Variable byUID' : gmap string (list PartialObjectMetadata).

Lemma report_emitted output sink gvr child ownerRef v s :
  outputRefMessage output = Some sink ->
  emitted (Spec.report sink gvr child ownerRef v s)
  = emitted s ++ match v with
                 | Some (level, msg) => [mkFinding gvr child ownerRef level msg]
                 | None => []
                 end.
Proof.
  unfold outputRefMessage. intros H.
  destruct v as [[level msg]|]; simpl; [|by rewrite app_nil_r].
  destruct (String.eqb output ""); [|destruct (String.eqb output "json")];
    simplify_eq; [by rewrite tabularRefMessage_emitted | reflexivity].
Qed.

Lemma report_Stderr output sink gvr child ownerRef v s :
  outputRefMessage output = Some sink ->
  Stderr (Spec.report sink gvr child ownerRef v s) = Stderr s.
Proof.
  unfold outputRefMessage. intros H.
  destruct v as [[level msg]|]; simpl; [|reflexivity].
  destruct (String.eqb output ""); [|destruct (String.eqb output "json")];
    simplify_eq; [by rewrite tabularRefMessage_Stderr | reflexivity].
Qed.

(** With a valid output format the body never panics, and it extends the
    findings by those of the first firing check. *)
Lemma validateOwnerRef_emitted output gvr child ownerRef s :
  output = "" \/ output = "json" ->
  exists s',
    validateOwnerRef ParseGroupVersion ToLower mapper gvDiscoveryFailures
                     grListErrs byUID' (outputRefMessage output)
                     gvr child ownerRef s = Some s'
    /\ emitted s'
       = emitted s ++ Spec.findingsOfRef ParseGroupVersion ToLower mapper
                                         gvDiscoveryFailures grListErrs byUID'
                                         gvr child ownerRef
    /\ Stderr s' = Stderr s.
Proof.
  intros Hout.
  destruct (outputRefMessage_valid output Hout) as [E|E]; rewrite E;
    rewrite validateOwnerRef_verdict; eexists; (split; [reflexivity|]);
    (split; [ apply (report_emitted output); exact E
            | apply (report_Stderr output); exact E ]).
Qed.

(** A reference that parses, resolves, passes the scope check and has a
    candidate in each aspect gets no verdict. *)
Lemma verdict_None child ownerRef mapping :
  (ParseGroupVersion (or_APIVersion ownerRef)).2 = None ->
  Spec.resolved ParseGroupVersion mapper ownerRef = Ok mapping ->
  (mapping_Scope mapping = RESTScopeNameNamespace -> Namespace child <> "") ->
  existsb (Spec.namespaceAspect child) (Spec.bucket byUID' ownerRef) = true ->
  existsb (Spec.nameAspect ownerRef) (Spec.bucket byUID' ownerRef) = true ->
  existsb (Spec.kindGroupAspect ParseGroupVersion ToLower ownerRef)
          (Spec.bucket byUID' ownerRef) = true ->
  Spec.verdict ParseGroupVersion ToLower mapper gvDiscoveryFailures grListErrs
               byUID' child ownerRef = None.
Proof.
  intros HP HM HS H1 H2 H3.
  unfold Spec.verdict, Spec.orderedChecks, Spec.parseCheck, Spec.resolveCheck,
    Spec.scopeCheck, Spec.existenceCheck, Spec.crossCheckVerdict.
  rewrite HP, HM, H1, H2, H3.
  destruct (mapping_Scope mapping) eqn:ES;
    [ destruct (isEmpty (Namespace child)) eqn:E;
      [ apply isEmpty_true in E; exfalso; by apply HS | ] | ].
  all: destruct (Spec.bucket byUID' ownerRef); [discriminate|reflexivity].
Qed.

End EmittedFacts.

(** ** Properties of the validator: C2, C4, C5 *)

(** C2. In the multi-candidate cross-check each of the three aspects (name
    equality, namespace compatibility, kind/group compatibility) is evaluated
    on its own over all candidates of the UID bucket: an aspect is fine as
    soon as some candidate has it, also when different candidates carry
    different aspects.  When an aspect fails on every candidate exactly one
    Error is emitted, the namespace mismatch first, then the name mismatch,
    then the group/kind mismatch. *)
Theorem C2_cross_check_aspects
        (ParseGroupVersion : string -> GroupVersion * option error)
        (ToLower : string -> string) (mapper : RESTMapper)
        (gvDiscoveryFailures : gmap GroupVersion error)
        (grListErrs : gmap GroupResource error)
        (byUID' : gmap string (list PartialObjectMetadata))
        (output : string) (gvr : GroupVersionResource)
        (child : PartialObjectMetadata) (ownerRef : OwnerReference)
        (mapping : RESTMapping) (s : Streams) :
  output = "" \/ output = "json" ->
  (ParseGroupVersion (or_APIVersion ownerRef)).2 = None ->
  Spec.resolved ParseGroupVersion mapper ownerRef = Ok mapping ->
  (mapping_Scope mapping = RESTScopeNameNamespace -> Namespace child <> "") ->
  Spec.bucket byUID' ownerRef <> [] ->
  let candidates := Spec.bucket byUID' ownerRef in
  let c := crossCheck ParseGroupVersion ToLower child ownerRef
                      (ParseGroupVersion (or_APIVersion ownerRef)).1 candidates in
  (namespaceOk c = true <-> exists a, a ∈ candidates
                                      /\ (Namespace a = "" \/ Namespace a = Namespace child))
  /\ (nameOk c = true <-> exists a, a ∈ candidates /\ Name a = or_Name ownerRef)
  /\ (groupKindOk c = true
      <-> exists a, a ∈ candidates
                    /\ Spec.kindGroupAspect ParseGroupVersion ToLower ownerRef a = true)
  /\ exists s',
      validateOwnerRef ParseGroupVersion ToLower mapper gvDiscoveryFailures
                       grListErrs byUID' (outputRefMessage output)
                       gvr child ownerRef s = Some s'
      /\ emitted s'
         = emitted s
             ++ (if negb (namespaceOk c)
                 then [mkFinding gvr child ownerRef levelError
                         ("child namespace does not match owner namespace ("
                            +:+ actualNamespace c +:+ ")")]
                 else if negb (nameOk c)
                 then [mkFinding gvr child ownerRef levelError
                         ("ownerReference name (" +:+ or_Name ownerRef
                            +:+ ") does not match owner name (" +:+ actualName c +:+ ")")]
                 else if negb (groupKindOk c)
                 then [mkFinding gvr child ownerRef levelError
                         ("ownerReference group/kind ("
                            +:+ gv_Group (ParseGroupVersion (or_APIVersion ownerRef)).1
                            +:+ "/" +:+ or_Kind ownerRef
                            +:+ ") does not match owner group/kind ("
                            +:+ gvk_Group (actualGVK c) +:+ "/"
                            +:+ gvk_Kind (actualGVK c) +:+ ")")]
                 else []).
Proof.
  intros Hout HP HM HS HB candidates c.
  destruct (crossCheck_verdict ParseGroupVersion ToLower child ownerRef candidates)
    as (F1 & F2 & F3 & A1 & A2 & A3).
  fold (Spec.ownerGV ParseGroupVersion ownerRef) in c. fold c in F1, F2, F3, A1, A2, A3.
  assert (Hex : forall f : PartialObjectMetadata -> bool,
             existsb f candidates = true <-> exists a, a ∈ candidates /\ f a = true).
  { intros f. rewrite existsb_exists.
    split; intros (a & Ha & Hf); exists a; (split; [|exact Hf]);
      by apply list_elem_of_In. }
  split; [|split; [|split]].
  - rewrite F1, Hex. by setoid_rewrite namespaceAspect_true.
  - rewrite F2, Hex. by setoid_rewrite nameAspect_true.
  - rewrite F3, Hex. reflexivity.
  - destruct (validateOwnerRef_emitted ParseGroupVersion ToLower mapper
                gvDiscoveryFailures grListErrs byUID' output gvr child ownerRef s Hout)
      as (s' & Hrun & Hem & _).
    exists s'. split; [exact Hrun|]. rewrite Hem. f_equal.
    unfold Spec.findingsOfRef, Spec.verdict, Spec.orderedChecks, Spec.parseCheck,
      Spec.resolveCheck, Spec.scopeCheck, Spec.existenceCheck, Spec.crossCheckVerdict.
    rewrite HP, HM. fold candidates.
    rewrite <- F1, <- F2, <- F3.
    assert (HE : match candidates with
                 | [] => true
                 | _ :: _ => false
                 end = false) by (subst candidates; by destruct (Spec.bucket _ _)).
    destruct (mapping_Scope mapping) eqn:ES;
      [ destruct (isEmpty (Namespace child)) eqn:E;
        [ apply isEmpty_true in E; exfalso; by apply HS | ] | ].
    all: destruct candidates as [|a0 l0] eqn:EC; [discriminate HE|].
    all: cbn [Spec.firstFiring].
    all: destruct (namespaceOk c) eqn:E1; cbn [negb];
      [ | rewrite A1 by reflexivity; reflexivity ].
    all: destruct (nameOk c) eqn:E2; cbn [negb];
      [ | rewrite A2 by reflexivity; reflexivity ].
    all: destruct (groupKindOk c) eqn:E3; cbn [negb];
      [ reflexivity | rewrite A3 by reflexivity ].
    all: unfold Spec.ownerGV; destruct (last (a0 :: l0)); reflexivity.
Qed.

Lemma C2_cross_check_aspects_witness :
  exists s',
    validateOwnerRef Scenarios.ParseGroupVersion Scenarios.ToLower
                     (Scenarios.tableMapper Scenarios.v1Resources) ∅ ∅
                     {[ "node1uid" := [ mkObj "v1" "Pod" "" "node1" "node1uid" [];
                                        Scenarios.node1 ] ]}
                     (outputRefMessage "") Scenarios.pods
                     (Scenarios.pod1 [mkOwnerRef "v1" "Node" "nodex" "node1uid"])
                     (mkOwnerRef "v1" "Node" "nodex" "node1uid")
                     initialStreams = Some s'
    /\ emitted s'
       = [mkFinding Scenarios.pods
                    (Scenarios.pod1 [mkOwnerRef "v1" "Node" "nodex" "node1uid"])
                    (mkOwnerRef "v1" "Node" "nodex" "node1uid") "Error"
                    "ownerReference name (nodex) does not match owner name (node1)"].
Proof.
  destruct (C2_cross_check_aspects
              Scenarios.ParseGroupVersion Scenarios.ToLower
              (Scenarios.tableMapper Scenarios.v1Resources) ∅ ∅
              {[ "node1uid" := [ mkObj "v1" "Pod" "" "node1" "node1uid" [];
                                 Scenarios.node1 ] ]}
              "" Scenarios.pods
              (Scenarios.pod1 [mkOwnerRef "v1" "Node" "nodex" "node1uid"])
              (mkOwnerRef "v1" "Node" "nodex" "node1uid")
              (mkMapping Scenarios.nodes (mkGVK "" "v1" "Node") RESTScopeNameRoot)
              initialStreams)
    as (_ & _ & _ & s' & Hrun & Hem).
  - left. reflexivity.
  - reflexivity.
  - reflexivity.
  - discriminate.
  - vm_compute. discriminate.
  - exists s'. split; [exact Hrun|]. rewrite Hem. vm_compute. reflexivity.
Defined.

(** C4. A failure to verify is reported as a Warning, not as an Error.  When
    the owner kind does not resolve and the owner's group/version has a
    recorded discovery failure, the finding is the Warning "failed resolving
    resources for <apiVersion>"; without that record it is the Error "cannot
    resolve owner apiVersion/kind".  When the UID bucket is empty and the
    resolved owner's GroupResource has a recorded list failure, the finding is
    the Warning "could not list parent resource"; without that record it is
    the Error "no object found for uid". *)
Theorem C4_unverifiable_is_warning
        (ParseGroupVersion : string -> GroupVersion * option error)
        (ToLower : string -> string) (mapper : RESTMapper)
        (gvDiscoveryFailures : gmap GroupVersion error)
        (grListErrs : gmap GroupResource error)
        (byUID' : gmap string (list PartialObjectMetadata))
        (output : string) (gvr : GroupVersionResource)
        (child : PartialObjectMetadata) (ownerRef : OwnerReference) (s : Streams) :
  output = "" \/ output = "json" ->
  (ParseGroupVersion (or_APIVersion ownerRef)).2 = None ->
  exists s',
    validateOwnerRef ParseGroupVersion ToLower mapper gvDiscoveryFailures
                     grListErrs byUID' (outputRefMessage output)
                     gvr child ownerRef s = Some s'
    /\ (forall err,
          Spec.resolved ParseGroupVersion mapper ownerRef = Err err ->
          emitted s'
          = emitted s
              ++ [match gvDiscoveryFailures
                          !! (ParseGroupVersion (or_APIVersion ownerRef)).1 with
                  | Some discoveryErr =>
                      mkFinding gvr child ownerRef levelWarning
                                ("failed resolving resources for "
                                   +:+ or_APIVersion ownerRef +:+ ": " +:+ discoveryErr)
                  | None =>
                      mkFinding gvr child ownerRef levelError
                                ("cannot resolve owner apiVersion/kind: " +:+ err)
                  end])
    /\ (forall mapping,
          Spec.resolved ParseGroupVersion mapper ownerRef = Ok mapping ->
          (mapping_Scope mapping = RESTScopeNameNamespace -> Namespace child <> "") ->
          Spec.bucket byUID' ownerRef = [] ->
          emitted s'
          = emitted s
              ++ [match grListErrs !! GVR_GroupResource (mapping_Resource mapping) with
                  | Some _ =>
                      mkFinding gvr child ownerRef levelWarning
                                ("could not list parent resource "
                                   +:+ GroupResource_String
                                         (GVR_GroupResource (mapping_Resource mapping)))
                  | None =>
                      mkFinding gvr child ownerRef levelError "no object found for uid"
                  end]).
Proof.
  intros Hout HP.
  destruct (validateOwnerRef_emitted ParseGroupVersion ToLower mapper
              gvDiscoveryFailures grListErrs byUID' output gvr child ownerRef s Hout)
    as (s' & Hrun & Hem & _).
  exists s'. split; [exact Hrun|].
  unfold Spec.findingsOfRef, Spec.verdict, Spec.orderedChecks, Spec.parseCheck,
    Spec.resolveCheck, Spec.scopeCheck, Spec.existenceCheck in Hem.
  rewrite HP in Hem. split.
  - intros err HM. rewrite Hem, HM. unfold Spec.ownerGV. cbn [Spec.firstFiring].
    destruct (gvDiscoveryFailures !! _); reflexivity.
  - intros mapping HM HS HB. rewrite Hem, HM, HB.
    destruct (mapping_Scope mapping) eqn:ES;
      [ destruct (isEmpty (Namespace child)) eqn:E;
        [ apply isEmpty_true in E; exfalso; by apply HS | ] | ].
    all: cbn [Spec.firstFiring]; destruct (grListErrs !! _); reflexivity.
Qed.

Lemma C4_unverifiable_is_warning_witness :
  exists s',
    validateOwnerRef Scenarios.ParseGroupVersion Scenarios.ToLower
                     (Scenarios.tableMapper Scenarios.forbiddenTable) ∅
                     {[ mkGR "forbidden" "forbiddenresources" := "not authorized" ]}
                     {[ "node1uid" := [Scenarios.node1] ]}
                     (outputRefMessage "") Scenarios.pods
                     (Scenarios.pod1 [])
                     (mkOwnerRef "forbidden/v1" "ForbiddenKind" "forbiddenparent"
                                 "forbiddenparentuid")
                     initialStreams = Some s'
    /\ emitted s'
       = [mkFinding Scenarios.pods (Scenarios.pod1 [])
                    (mkOwnerRef "forbidden/v1" "ForbiddenKind" "forbiddenparent"
                                "forbiddenparentuid")
                    "Warning"
                    "could not list parent resource forbiddenresources.forbidden"].
Proof.
  destruct (C4_unverifiable_is_warning
              Scenarios.ParseGroupVersion Scenarios.ToLower
              (Scenarios.tableMapper Scenarios.forbiddenTable) ∅
              {[ mkGR "forbidden" "forbiddenresources" := "not authorized" ]}
              {[ "node1uid" := [Scenarios.node1] ]}
              "" Scenarios.pods (Scenarios.pod1 [])
              (mkOwnerRef "forbidden/v1" "ForbiddenKind" "forbiddenparent"
                          "forbiddenparentuid")
              initialStreams (or_introl eq_refl) eq_refl)
    as (s' & Hrun & _ & Hlist).
  exists s'. split; [exact Hrun|].
  rewrite (Hlist (mkMapping (mkGVR "forbidden" "v1" "forbiddenresources")
                            (mkGVK "forbidden" "v1" "ForbiddenKind")
                            RESTScopeNameNamespace)).
  - vm_compute. reflexivity.
  - reflexivity.
  - intros _. discriminate.
  - vm_compute. reflexivity.
Defined.

(** C5. A candidate of the UID bucket satisfies the kind/group aspect exactly
    when its apiVersion or its kind is empty, or when the group parsed from
    its apiVersion equals the group parsed from the owner reference and its
    kind, as it is or lowercased, equals the kind of the owner reference (the
    owner reference's kind is never lowercased).  So a bucket of one candidate
    with empty apiVersion and kind and one with fully matching metadata, in
    either order, validates: no finding. *)
Theorem C5_kind_group_compatibility
        (ParseGroupVersion : string -> GroupVersion * option error)
        (ToLower : string -> string) (mapper : RESTMapper)
        (gvDiscoveryFailures : gmap GroupVersion error)
        (grListErrs : gmap GroupResource error)
        (byUID' : gmap string (list PartialObjectMetadata))
        (output : string) (gvr : GroupVersionResource)
        (child : PartialObjectMetadata) (ownerRef : OwnerReference) (s : Streams) :
  output = "" \/ output = "json" ->
  (forall candidate,
      groupKindOk (crossCheck ParseGroupVersion ToLower child ownerRef
                              (ParseGroupVersion (or_APIVersion ownerRef)).1
                              [candidate]) = true
      <-> (APIVersion candidate = "" \/ Kind candidate = "")
          \/ (gv_Group (ParseGroupVersion (APIVersion candidate)).1
              = gv_Group (ParseGroupVersion (or_APIVersion ownerRef)).1
              /\ (Kind candidate = or_Kind ownerRef
                  \/ ToLower (Kind candidate) = or_Kind ownerRef)))
  /\ (forall mapping partial full,
        (ParseGroupVersion (or_APIVersion ownerRef)).2 = None ->
        Spec.resolved ParseGroupVersion mapper ownerRef = Ok mapping ->
        (mapping_Scope mapping = RESTScopeNameNamespace -> Namespace child <> "") ->
        Spec.bucket byUID' ownerRef ≡ₚ [partial; full] ->
        APIVersion partial = "" -> Kind partial = "" ->
        Name full = or_Name ownerRef ->
        (Namespace full = "" \/ Namespace full = Namespace child) ->
        Kind full = or_Kind ownerRef ->
        gv_Group (ParseGroupVersion (APIVersion full)).1
        = gv_Group (ParseGroupVersion (or_APIVersion ownerRef)).1 ->
        exists s',
          validateOwnerRef ParseGroupVersion ToLower mapper gvDiscoveryFailures
                           grListErrs byUID' (outputRefMessage output)
                           gvr child ownerRef s = Some s'
          /\ emitted s' = emitted s).
Proof.
  intros Hout. split.
  - intros candidate.
    destruct (crossCheck_verdict ParseGroupVersion ToLower child ownerRef [candidate])
      as (_ & _ & F3 & _).
    unfold Spec.ownerGV in F3. rewrite F3. cbn [existsb]. rewrite orb_false_r.
    apply kindGroupAspect_true.
  - intros mapping partial full HP HM HS HB Hpa Hpk Hname Hns Hkind Hgroup.
    destruct (validateOwnerRef_emitted ParseGroupVersion ToLower mapper
                gvDiscoveryFailures grListErrs byUID' output gvr child ownerRef s Hout)
      as (s' & Hrun & Hem & _).
    exists s'. split; [exact Hrun|]. rewrite Hem. unfold Spec.findingsOfRef.
    assert (Hin : full ∈ Spec.bucket byUID' ownerRef).
    { rewrite HB. apply list_elem_of_In. simpl. auto. }
    rewrite (verdict_None ParseGroupVersion ToLower mapper gvDiscoveryFailures
               grListErrs byUID' child ownerRef mapping HP HM HS).
    + apply app_nil_r.
    + apply (existsb_witness _ _ full Hin). by apply namespaceAspect_true.
    + apply (existsb_witness _ _ full Hin). by apply nameAspect_true.
    + apply (existsb_witness _ _ full Hin). apply kindGroupAspect_true. auto.
Qed.

Lemma C5_kind_group_compatibility_witness :
  exists s',
    validateOwnerRef Scenarios.ParseGroupVersion Scenarios.ToLower
                     (Scenarios.tableMapper Scenarios.v1Resources) ∅ ∅
                     {[ "node1uid" := [ mkObj "" "" "ns9" "other" "node1uid" [];
                                        Scenarios.node1 ] ]}
                     (outputRefMessage "json") Scenarios.pods
                     (Scenarios.pod1 [mkOwnerRef "v1" "Node" "node1" "node1uid"])
                     (mkOwnerRef "v1" "Node" "node1" "node1uid")
                     initialStreams = Some s'
    /\ emitted s' = [].
Proof.
  destruct (C5_kind_group_compatibility
              Scenarios.ParseGroupVersion Scenarios.ToLower
              (Scenarios.tableMapper Scenarios.v1Resources) ∅ ∅
              {[ "node1uid" := [ mkObj "" "" "ns9" "other" "node1uid" [];
                                 Scenarios.node1 ] ]}
              "json" Scenarios.pods
              (Scenarios.pod1 [mkOwnerRef "v1" "Node" "node1" "node1uid"])
              (mkOwnerRef "v1" "Node" "node1" "node1uid")
              initialStreams (or_intror eq_refl))
    as (_ & Hbucket).
  apply (Hbucket (mkMapping Scenarios.nodes (mkGVK "" "v1" "Node") RESTScopeNameRoot)
                 (mkObj "" "" "ns9" "other" "node1uid" []) Scenarios.node1).
  - reflexivity.
  - reflexivity.
  - discriminate.
  - vm_compute. reflexivity.
  - reflexivity.
  - reflexivity.
  - reflexivity.
  - left. reflexivity.
  - reflexivity.
  - reflexivity.
Defined.

(** ** The fetch loop *)

Lemma diagnosed_refl s : Spec.diagnosed 0 s s.
Proof.
  unfold Spec.diagnosed. do 5 (split; [reflexivity|]).
  exists []. split; [by rewrite app_nil_r | constructor].
Qed.

Lemma diagnosed_trans n m s1 s2 s3 :
  Spec.diagnosed n s1 s2 -> Spec.diagnosed m s2 s3 -> Spec.diagnosed (n + m) s1 s3.
Proof.
  intros (A1 & A2 & A3 & A4 & A5 & l1 & A6 & A7) (B1 & B2 & B3 & B4 & B5 & l2 & B6 & B7).
  unfold Spec.diagnosed.
  split; [congruence|]. split; [by rewrite B2, A2, bump_add|].
  do 3 (split; [congruence|]).
  exists (l1 ++ l2). split.
  - rewrite B6, A6. by rewrite app_assoc.
  - by apply Forall_app.
Qed.

Lemma diagnosed_line line s :
  Spec.isDiscoveryNotice line = false -> Spec.diagnosed 0 s (toStderr line s).
Proof.
  intros H. unfold Spec.diagnosed. simpl. do 5 (split; [reflexivity|]).
  exists [line]. split; [reflexivity|]. by constructor.
Qed.

Lemma diagnosed_warning line s :
  Spec.isDiscoveryNotice line = false ->
  Spec.diagnosed 1 s (toStderr line (incWarning s)).
Proof.
  intros H. unfold Spec.diagnosed. simpl. do 5 (split; [reflexivity|]).
  exists [line]. split; [reflexivity|]. by constructor.
Qed.

(** The decimal form of an integer starts with a digit or a minus sign, so a
    line that starts with a count is no notice. *)
Lemma pluralize_not_notice n singular plural rest :
  Spec.isDiscoveryNotice (pluralize n singular plural +:+ rest) = false.
Proof.
  unfold Spec.isDiscoveryNotice, pluralize, itoa.
  destruct (n =? 1); destruct (Z.to_int n) as [[]|[]]; reflexivity.
Qed.

Section FetchFacts.

Variable klogV : Z.
Variable mapper : RESTMapper.
Variable client : GroupVersionResource -> Listing.

Lemma eachItem_fold gvr gvk items st :
  let st' := fold_left (eachItem gvr gvk) items st in
  grListErrors st' = grListErrors st
  /\ fetchOut st' = fetchOut st
  /\ (forall g, default [] (byGVR st' !! g)
                = default [] (byGVR st !! g)
                    ++ (if decide (gvr = g) then map (backfill gvk) items else []))
  /\ (forall u, default [] (byUID st' !! u)
                = default [] (byUID st !! u)
                    ++ filter (fun o => UID o = u) (map (backfill gvk) items)).
Proof.
  revert st. induction items as [|o items IH]; intros st; simpl.
  - repeat split; intros; [destruct (decide _)|]; by rewrite app_nil_r.
  - destruct (IH (eachItem gvr gvk st o)) as (H1 & H2 & H3 & H4).
    split; [exact H1|]. split; [exact H2|]. split.
    + intros g. rewrite H3. simpl.
      destruct (decide (gvr = g)) as [->|Hne].
      * rewrite lookup_insert_eq. simpl. by rewrite <- app_assoc.
      * rewrite lookup_insert_ne by done. by rewrite !app_nil_r.
    + intros u. rewrite H4. simpl. rewrite filter_cons.
      destruct (decide (UID (backfill gvk o) = u)) as [<-|Hne].
      * rewrite lookup_insert_eq. simpl. by rewrite <- app_assoc.
      * by rewrite lookup_insert_ne.
Qed.

Lemma listed_spec items st :
  grListErrors (listed klogV items st) = grListErrors st
  /\ byGVR (listed klogV items st) = byGVR st
  /\ byUID (listed klogV items st) = byUID st
  /\ Spec.diagnosed 0 (fetchOut st) (fetchOut (listed klogV items st)).
Proof.
  unfold listed. destruct (3 <=? klogV); simpl.
  - do 3 (split; [reflexivity|]). apply diagnosed_line. reflexivity.
  - do 3 (split; [reflexivity|]). apply diagnosed_refl.
Qed.

(** One resource type, page after page. *)
Lemma eachListItem_spec gvr gvk answers st :
  let st' := eachListItem klogV gvr gvk answers st in
  grListErrors st'
  = match Spec.listingError answers with
    | Some err => <[GVR_GroupResource gvr := err]> (grListErrors st)
    | None => grListErrors st
    end
  /\ Spec.diagnosed (Spec.failureCount answers)
                    (fetchOut st) (fetchOut st')
  /\ (forall g, default [] (byGVR st' !! g)
                = default [] (byGVR st !! g)
                    ++ (if decide (gvr = g)
                        then map (backfill gvk) (Spec.retrieved answers) else []))
  /\ (forall u, default [] (byUID st' !! u)
                = default [] (byUID st !! u)
                    ++ filter (fun o => UID o = u)
                              (map (backfill gvk) (Spec.retrieved answers))).
Proof.
  revert st. induction answers as [items|items more IH|err]; intros st; simpl.
  - destruct (eachItem_fold gvr gvk items (listed klogV items st))
      as (H1 & H2 & H3 & H4).
    destruct (listed_spec items st) as (L1 & L2 & L3 & L4).
    rewrite H1, H2, L1. split; [reflexivity|]. split; [exact L4|].
    split; intros x; [rewrite H3, L2 | rewrite H4, L3]; reflexivity.
  - destruct (IH (fold_left (eachItem gvr gvk) items (listed klogV items st)))
      as (I1 & I2 & I3 & I4).
    destruct (eachItem_fold gvr gvk items (listed klogV items st))
      as (H1 & H2 & H3 & H4).
    destruct (listed_spec items st) as (L1 & L2 & L3 & L4).
    rewrite H1, L1 in I1. rewrite H2 in I2.
    split; [exact I1|]. split.
    + change (Spec.failureCount (NextPage items more))
        with (Spec.failureCount more).
      change (Spec.failureCount more) with (0 + Spec.failureCount more)%nat.
      eapply diagnosed_trans; eassumption.
    + split; intros x.
      * rewrite I3, H3, L2, map_app. destruct (decide (gvr = x));
          by rewrite <- ?app_assoc, ?app_nil_r.
      * rewrite I4, H4, L3, map_app, filter_app. by rewrite <- app_assoc.
  - split; [reflexivity|]. split.
    + apply diagnosed_warning. reflexivity.
    + split; intros x; [destruct (decide _)|]; by rewrite app_nil_r.
Qed.

Lemma fetchResource_spec gvr st :
  let st' := fetchResource klogV mapper client st gvr in
  grListErrors st'
  = match Spec.listingError (client gvr) with
    | Some err => <[GVR_GroupResource gvr := err]> (grListErrors st)
    | None => grListErrors st
    end
  /\ Spec.diagnosed (Spec.failureCount (client gvr))
                    (fetchOut st) (fetchOut st')
  /\ (forall g, default [] (byGVR st' !! g)
                = default [] (byGVR st !! g)
                    ++ (if decide (gvr = g)
                        then Spec.fetchedOf mapper client gvr else []))
  /\ (forall u, default [] (byUID st' !! u)
                = default [] (byUID st !! u)
                    ++ filter (fun o => UID o = u) (Spec.fetchedOf mapper client gvr)).
Proof.
  unfold fetchResource, Spec.fetchedOf.
  destruct (2 <=? klogV).
  - match goal with
    | |- context [eachListItem _ _ ?k ?a ?s0] =>
        destruct (eachListItem_spec gvr k a s0) as (H1 & H2 & H3 & H4)
    end.
    simpl in *. split; [exact H1|]. split; [|split; assumption].
    change (Spec.failureCount (client gvr))
      with (0 + Spec.failureCount (client gvr))%nat.
    eapply diagnosed_trans; [|exact H2].
    apply diagnosed_line. reflexivity.
  - apply eachListItem_spec.
Qed.

(** The whole fetch loop, from any state. *)
Lemma fetchAll_spec gvrs st :
  let st' := fetchAll klogV mapper client gvrs st in
  (forall gr, is_Some (grListErrors st' !! gr)
              <-> is_Some (grListErrors st !! gr)
                  \/ exists gvr, gvr ∈ gvrs /\ GVR_GroupResource gvr = gr
                                 /\ is_Some (Spec.listingError (client gvr)))
  /\ Spec.diagnosed (length (Spec.failedListings client gvrs))
                    (fetchOut st) (fetchOut st')
  /\ (forall g, default [] (byGVR st' !! g)
                = default [] (byGVR st !! g)
                    ++ flat_map (fun gvr => if decide (gvr = g)
                                            then Spec.fetchedOf mapper client gvr
                                            else []) gvrs)
  /\ (forall u, default [] (byUID st' !! u)
                = default [] (byUID st !! u)
                    ++ filter (fun o => UID o = u)
                              (flat_map (Spec.fetchedOf mapper client) gvrs)).
Proof.
  revert st. induction gvrs as [|gvr gvrs IH]; intros st; simpl.
  - split; [|split; [|split]].
    + intros gr. split; [auto|]. intros [H|(g & Hg & _)]; [exact H|].
      by apply not_elem_of_nil in Hg.
    + apply diagnosed_refl.
    + intros. by rewrite app_nil_r.
    + intros. by rewrite app_nil_r.
  - destruct (IH (fetchResource klogV mapper client st gvr)) as (I1 & I2 & I3 & I4).
    destruct (fetchResource_spec gvr st) as (R1 & R2 & R3 & R4).
    split; [|split; [|split]].
    + intros gr. rewrite I1, R1. split.
      * intros [H|(g & Hg & Hgr & Hf)].
        -- destruct (Spec.listingError (client gvr)) as [err|] eqn:E; [|by left].
           destruct (decide (GVR_GroupResource gvr = gr)) as [Heq|Hne].
           ++ right. exists gvr. rewrite E. split; [apply list_elem_of_here|].
              split; [exact Heq | eauto].
           ++ rewrite lookup_insert_ne in H by done. by left.
        -- right. exists g. split; [by apply list_elem_of_further|]. auto.
      * intros [H|(g & Hg & Hgr & Hf)].
        -- left. destruct (Spec.listingError (client gvr)); [|exact H].
           destruct (decide (GVR_GroupResource gvr = gr)) as [<-|Hne].
           ++ rewrite lookup_insert_eq. eauto.
           ++ by rewrite lookup_insert_ne.
        -- apply elem_of_cons in Hg as [->|Hg].
           ++ left. destruct Hf as [err Hf]. rewrite Hf, <- Hgr, lookup_insert_eq.
              eauto.
           ++ right. exists g. auto.
    + unfold Spec.failedListings. rewrite filter_cons.
      destruct (decide (is_Some (Spec.listingError (client gvr)))) as [Hs|Hn].
      * destruct Hs as [err Hs]. unfold Spec.failureCount in R2. rewrite Hs in R2.
        change (length (gvr :: filter _ gvrs))
          with (1 + length (Spec.failedListings client gvrs))%nat.
        eapply diagnosed_trans; eassumption.
      * unfold Spec.failureCount in R2.
        destruct (Spec.listingError (client gvr)) eqn:E;
          [exfalso; apply Hn; eauto|].
        change (length (filter _ gvrs))
          with (0 + length (Spec.failedListings client gvrs))%nat.
        eapply diagnosed_trans; eassumption.
    + intros g. rewrite I3, R3. by rewrite <- app_assoc.
    + intros u. rewrite I4, R4, filter_app. by rewrite <- app_assoc.
Qed.

End FetchFacts.

(** ** The catalog order *)

Lemma string_compare_refl (a : string) : String.compare a a = Eq.
Proof.
  pose proof (String.compare_antisym a a) as H.
  destruct (String.compare a a); simpl in H; congruence.
Qed.

Lemma string_compare_lt_trans (a b c : string) :
  String.compare a b = Lt -> String.compare b c = Lt -> String.compare a c = Lt.
Proof.
  intros H1 H2. apply String_as_OT.cmp_lt.
  apply String_as_OT.lt_trans with b; by apply String_as_OT.cmp_lt.
Qed.

Lemma string_eqb_false_compare (a b : string) :
  String.eqb a b = false -> String.compare a b <> Eq.
Proof.
  intros H E. apply String.compare_eq_iff in E. subst.
  by rewrite String.eqb_refl in H.
Qed.

Lemma string_compare_empty (a : string) : String.compare a "" <> Gt -> a = "".
Proof. destruct a; [reflexivity|]. simpl. congruence. Qed.

Lemma gvrCompare_refl a : Spec.gvrCompare a a = Eq.
Proof. unfold Spec.gvrCompare. by rewrite !string_compare_refl. Qed.

Lemma gvrCompare_eq a b : Spec.gvrCompare a b = Eq -> a = b.
Proof.
  destruct a as [g1 v1 r1], b as [g2 v2 r2]. unfold Spec.gvrCompare. simpl.
  destruct (String.compare g1 g2) eqn:E1; try discriminate.
  destruct (String.compare v1 v2) eqn:E2; try discriminate.
  intros E3.
  apply String.compare_eq_iff in E1, E2, E3. by subst.
Qed.

Lemma gvrCompare_antisym a b :
  Spec.gvrCompare a b = CompOpp (Spec.gvrCompare b a).
Proof.
  destruct a as [g1 v1 r1], b as [g2 v2 r2]. unfold Spec.gvrCompare. simpl.
  rewrite (String.compare_antisym g2 g1), (String.compare_antisym v2 v1),
    (String.compare_antisym r2 r1).
  destruct (String.compare g1 g2), (String.compare v1 v2),
    (String.compare r1 r2); reflexivity.
Qed.

Lemma gvrCompare_lt_trans a b c :
  Spec.gvrCompare a b = Lt -> Spec.gvrCompare b c = Lt -> Spec.gvrCompare a c = Lt.
Proof.
  destruct a as [g1 v1 r1], b as [g2 v2 r2], c as [g3 v3 r3].
  unfold Spec.gvrCompare. simpl.
  destruct (String.compare g1 g2) eqn:G12; try discriminate.
  2:{ intros _.
      destruct (String.compare g2 g3) eqn:G23; try discriminate.
      - apply String.compare_eq_iff in G23. subst. by rewrite G12.
      - by rewrite (string_compare_lt_trans _ _ _ G12 G23). }
  apply String.compare_eq_iff in G12. subst g2.
  destruct (String.compare g1 g3) eqn:G13; try discriminate; [|reflexivity].
  destruct (String.compare v1 v2) eqn:V12; try discriminate.
  2:{ intros _.
      destruct (String.compare v2 v3) eqn:V23; try discriminate.
      - apply String.compare_eq_iff in V23. subst. by rewrite V12.
      - by rewrite (string_compare_lt_trans _ _ _ V12 V23). }
  apply String.compare_eq_iff in V12. subst v2.
  destruct (String.compare v1 v3) eqn:V13; try discriminate; [|reflexivity].
  apply string_compare_lt_trans.
Qed.

(** The closure given to sort.Slice is the strict order of the triples. *)
Lemma gvrLess_compare a b : gvrLess a b = true <-> Spec.gvrCompare a b = Lt.
Proof.
  destruct a as [g1 v1 r1], b as [g2 v2 r2].
  unfold gvrLess, Spec.gvrCompare, String.ltb. simpl.
  destruct (String.eqb g1 g2) eqn:G; simpl.
  2:{ apply string_eqb_false_compare in G.
      destruct (String.compare g1 g2); [done | done | split; discriminate]. }
  apply String.eqb_eq in G. subst. rewrite string_compare_refl.
  destruct (String.eqb v1 v2) eqn:V; simpl.
  2:{ apply string_eqb_false_compare in V.
      destruct (String.compare v1 v2); [done | done | split; discriminate]. }
  apply String.eqb_eq in V. subst. rewrite string_compare_refl.
  destruct (String.compare r1 r2); [split; discriminate | done | split; discriminate].
Qed.

Global Instance gvrLe_trans : Transitive Spec.gvrLe.
Proof.
  intros a b c. unfold Spec.gvrLe. intros H1 H2.
  destruct (Spec.gvrCompare a b) eqn:E1; [| |done].
  - apply gvrCompare_eq in E1. by subst.
  - destruct (Spec.gvrCompare b c) eqn:E2; [| |done].
    + apply gvrCompare_eq in E2. subst. by rewrite E1.
    + by rewrite (gvrCompare_lt_trans _ _ _ E1 E2).
Qed.

Global Instance gvrLe_antisym : AntiSymm (=) Spec.gvrLe.
Proof.
  intros a b. unfold Spec.gvrLe. intros H1 H2.
  rewrite gvrCompare_antisym in H2.
  destruct (Spec.gvrCompare a b) eqn:E; simpl in *; [|done|done].
  by apply gvrCompare_eq.
Qed.

Lemma gvrLess_false_le a b : gvrLess a b = false -> Spec.gvrLe b a.
Proof.
  intros H. unfold Spec.gvrLe. rewrite gvrCompare_antisym.
  destruct (Spec.gvrCompare a b) eqn:E; simpl; try discriminate.
  apply gvrLess_compare in E. congruence.
Qed.

Lemma gvrLess_true_le a b : gvrLess a b = true -> Spec.gvrLe a b.
Proof.
  intros H. apply gvrLess_compare in H. unfold Spec.gvrLe. by rewrite H.
Qed.

Lemma insertBy_Permutation {A : Type} (less : A -> A -> bool) x l :
  insertBy less x l ≡ₚ x :: l.
Proof.
  induction l as [|y l IH]; simpl; [done|].
  destruct (less x y); [done|].
  rewrite IH. apply Permutation_swap.
Qed.

Lemma sortSlice_Permutation {A : Type} (less : A -> A -> bool) l :
  sortSlice less l ≡ₚ l.
Proof.
  induction l as [|x l IH]; simpl; [done|].
  fold (sortSlice less l). by rewrite insertBy_Permutation, IH.
Qed.

Lemma insertBy_sorted x l :
  StronglySorted Spec.gvrLe l -> StronglySorted Spec.gvrLe (insertBy gvrLess x l).
Proof.
  induction l as [|y l IH]; intros HS; simpl.
  - repeat constructor.
  - apply StronglySorted_inv in HS as [HS Hy].
    destruct (gvrLess x y) eqn:E.
    + apply gvrLess_true_le in E.
      constructor; [by constructor|].
      constructor; [exact E|].
      eapply Forall_impl; [exact Hy|]. intros z Hz. by transitivity y.
    + apply gvrLess_false_le in E.
      constructor; [by apply IH|].
      rewrite insertBy_Permutation. by constructor.
Qed.

Lemma sortSlice_sorted l : StronglySorted Spec.gvrLe (sortSlice gvrLess l).
Proof.
  induction l as [|x l IH]; simpl; [constructor|].
  by apply insertBy_sorted.
Qed.

(** The sorted slice does not depend on the order in which the keys of the
    map were visited. *)
Lemma sortSlice_order_independent l l' :
  l ≡ₚ l' -> sortSlice gvrLess l = sortSlice gvrLess l'.
Proof.
  intros HP. apply (StronglySorted_unique Spec.gvrLe); try apply sortSlice_sorted.
  by rewrite !sortSlice_Permutation.
Qed.

Lemma catalog_NoDup gvrMap : NoDup (catalog gvrMap).
Proof.
  unfold catalog. rewrite sortSlice_Permutation. apply NoDup_elements.
Qed.

Lemma elem_of_catalog gvr gvrMap : gvr ∈ catalog gvrMap <-> gvr ∈ gvrMap.
Proof.
  unfold catalog. rewrite sortSlice_Permutation. apply elem_of_elements.
Qed.

(** ** The validation loops *)

Lemma countLevel_app level fs1 fs2 :
  Spec.countLevel level (fs1 ++ fs2)
  = (Spec.countLevel level fs1 + Spec.countLevel level fs2)%nat.
Proof. unfold Spec.countLevel. by rewrite filter_app, length_app. Qed.

Lemma validated_refl output s : Spec.validated output [] s s.
Proof.
  unfold Spec.validated, Spec.countLevel. rewrite app_nil_r, filter_nil. simpl.
  repeat split; reflexivity.
Qed.

Lemma validated_trans output fs1 fs2 s1 s2 s3 :
  Spec.validated output fs1 s1 s2 -> Spec.validated output fs2 s2 s3 ->
  Spec.validated output (fs1 ++ fs2) s1 s3.
Proof.
  intros (A1 & A2 & A3 & A4) (B1 & B2 & B3 & B4). unfold Spec.validated.
  split; [by rewrite B1, A1, app_assoc|]. split; [congruence|]. split.
  - intros E. destruct (A3 E) as [A3e A3w], (B3 E) as [B3e B3w].
    rewrite !countLevel_app, !bump_add. by rewrite B3e, B3w, A3e, A3w.
  - intros E. destruct (A4 E), (B4 E). split; congruence.
Qed.

Lemma validated_flush output fs s s' :
  Spec.validated output fs s s' -> Spec.validated output fs s (toStdout TabFlush s').
Proof. intros H. exact H. Qed.

Section LoopFacts.

Variable ParseGroupVersion : string -> GroupVersion * option error.
Variable ToLower : string -> string.
Variable mapper : RESTMapper.
Variable gvDiscoveryFailures : gmap GroupVersion error.
Variable grListErrs : gmap GroupResource error.
Variable byGVR' : gmap GroupVersionResource (list PartialObjectMetadata).
Variable byUID' : gmap string (list PartialObjectMetadata).
Variable output : string.
Hypothesis output_valid : output = "" \/ output = "json".

Let verdict :=
  Spec.verdict ParseGroupVersion ToLower mapper gvDiscoveryFailures
               grListErrs byUID'.

(** Every verdict is an Error or a Warning. *)
Lemma verdict_level child ownerRef level msg :
  verdict child ownerRef = Some (level, msg) ->
  level = levelError \/ level = levelWarning.
Proof.
  subst verdict.
  unfold Spec.verdict, Spec.orderedChecks, Spec.parseCheck, Spec.resolveCheck,
    Spec.scopeCheck, Spec.existenceCheck, Spec.crossCheckVerdict.
  intros H.
  destruct (ParseGroupVersion (or_APIVersion ownerRef)).2;
    [simplify_eq/=; auto|].
  destruct (Spec.resolved ParseGroupVersion mapper ownerRef) as [m|e];
    [|destruct (gvDiscoveryFailures !! _); simplify_eq/=; auto].
  destruct (mapping_Scope m), (isEmpty (Namespace child));
    try (simplify_eq/=; auto; fail).
  all: destruct (Spec.bucket byUID' ownerRef) as [|a l];
    [destruct (grListErrs !! _); simplify_eq/=; auto|].
  all: destruct (existsb (Spec.namespaceAspect child) (a :: l));
    [|simplify_eq/=; auto].
  all: destruct (existsb (Spec.nameAspect ownerRef) (a :: l));
    [|simplify_eq/=; auto].
  all: destruct (existsb _ (a :: l)); simplify_eq/=; auto.
Qed.

Lemma report_validated sink gvr child ownerRef s :
  outputRefMessage output = Some sink ->
  Spec.validated output
    (Spec.findingsOfRef ParseGroupVersion ToLower mapper gvDiscoveryFailures
                        grListErrs byUID' gvr child ownerRef)
    s (Spec.report sink gvr child ownerRef (verdict child ownerRef) s).
Proof.
  intros Hsink. unfold Spec.findingsOfRef. fold verdict.
  destruct (verdict child ownerRef) as [[level msg]|] eqn:E;
    [|apply validated_refl].
  apply verdict_level in E.
  unfold Spec.validated, Spec.countLevel.
  split; [by apply (report_emitted output sink gvr child ownerRef (Some (level, msg)))|].
  split; [by apply (report_Stderr output sink gvr child ownerRef (Some (level, msg)))|].
  unfold outputRefMessage in Hsink. split.
  - intros ->. simpl in Hsink. simplify_eq.
    unfold Spec.report, logFinding. cbn [errorCount warningCount].
    rewrite tabularRefMessage_errorCount, tabularRefMessage_warningCount.
    rewrite !filter_cons, !filter_nil. cbn [f_level].
    destruct E as [-> | ->]; repeat case_decide; try discriminate;
      try congruence; split; reflexivity.
  - intros ->. simpl in Hsink. simplify_eq. simpl. split; reflexivity.
Qed.

Lemma validateOwnerRef_validated gvr child ownerRef s :
  exists s',
    validateOwnerRef ParseGroupVersion ToLower mapper gvDiscoveryFailures
                     grListErrs byUID' (outputRefMessage output)
                     gvr child ownerRef s = Some s'
    /\ Spec.validated output
         (Spec.findingsOfRef ParseGroupVersion ToLower mapper gvDiscoveryFailures
                             grListErrs byUID' gvr child ownerRef) s s'.
Proof.
  destruct (outputRefMessage_valid output output_valid) as [E|E]; rewrite E;
    rewrite validateOwnerRef_verdict; eexists; (split; [reflexivity|]);
    by apply report_validated.
Qed.

(** A loop whose body never panics and extends the findings by [f x]. *)
Lemma forEach_validated {A : Type} (body : A -> Streams -> option Streams)
      (f : A -> list Finding) (l : list A) :
  (forall x s, exists s', body x s = Some s' /\ Spec.validated output (f x) s s') ->
  forall s, exists s',
    forEach body l s = Some s' /\ Spec.validated output (flat_map f l) s s'.
Proof.
  intros Hbody. induction l as [|x l IH]; intros s; simpl.
  - exists s. split; [reflexivity | apply validated_refl].
  - destruct (Hbody x s) as (s1 & E1 & V1). rewrite E1.
    destruct (IH s1) as (s2 & E2 & V2).
    exists s2. split; [exact E2|]. by eapply validated_trans.
Qed.

Lemma validateChild_validated gvr child s :
  exists s',
    validateChild ParseGroupVersion ToLower mapper gvDiscoveryFailures
                  grListErrs byUID' (outputRefMessage output) gvr child s = Some s'
    /\ Spec.validated output
         (Spec.findingsOfChild ParseGroupVersion ToLower mapper gvDiscoveryFailures
                               grListErrs byUID' gvr child) s s'.
Proof.
  unfold validateChild, Spec.findingsOfChild.
  apply forEach_validated. intros. apply validateOwnerRef_validated.
Qed.

Lemma validateAll_validated gvrs s :
  exists s',
    validateAll ParseGroupVersion ToLower mapper gvDiscoveryFailures
                grListErrs byGVR' byUID' (outputRefMessage output) gvrs s = Some s'
    /\ Spec.validated output
         (Spec.findingsOver ParseGroupVersion ToLower mapper gvDiscoveryFailures
                            grListErrs byUID' byGVR' gvrs) s s'.
Proof.
  unfold validateAll, Spec.findingsOver.
  apply forEach_validated. intros gvr s0. unfold validateResource.
  destruct (forEach_validated
              (validateChild ParseGroupVersion ToLower mapper gvDiscoveryFailures
                             grListErrs byUID' (outputRefMessage output) gvr)
              (Spec.findingsOfChild ParseGroupVersion ToLower mapper
                                    gvDiscoveryFailures grListErrs byUID' gvr)
              (default [] (byGVR' !! gvr))
              (fun child s => validateChild_validated gvr child s) s0)
    as (s1 & E1 & V1).
  rewrite E1. eexists. split; [reflexivity|]. by apply validated_flush.
Qed.

End LoopFacts.

(** ** The two discovery calls *)

Lemma filter_iff_elem_of {A : Type} (P1 P2 : A -> Prop)
      `{!forall x, Decision (P1 x), !forall x, Decision (P2 x)} (l : list A) :
  (forall x, x ∈ l -> P1 x <-> P2 x) -> filter P1 l = filter P2 l.
Proof.
  induction l as [|a l IH]; intros Hiff; [done|].
  assert (Ha : P1 a <-> P2 a) by (apply Hiff, list_elem_of_here).
  assert (Hl : filter P1 l = filter P2 l).
  { apply IH. intros x Hx. apply Hiff. by apply list_elem_of_further. }
  destruct (decide (P1 a)).
  - rewrite !filter_cons_True by tauto. by rewrite Hl.
  - rewrite !filter_cons_False by tauto. exact Hl.
Qed.

Lemma filter_unrecorded_empty (l : list (GroupVersion * error)) :
  filter (fun entry => (∅ : gmap GroupVersion error) !! entry.1 = None) l = l.
Proof.
  induction l as [|a l IH]; [done|].
  rewrite filter_cons_True by apply lookup_empty. by rewrite IH.
Qed.

(** The loop over the failed groups of one call: a group/version that is
    already recorded is skipped; any other is recorded, counted and noticed. *)
Lemma tolerateDiscoveryFailure_spec (groups : list (GroupVersion * error))
      (m : gmap GroupVersion error) (s : Streams) :
  NoDup groups.*1 ->
  let st' := tolerateDiscoveryFailure groups (m, s) in
  let fresh := filter (fun entry => m !! entry.1 = None) groups in
  st'.1 = m ∪ list_to_map groups
  /\ errorCount st'.2 = errorCount s
  /\ warningCount st'.2 = Spec.bump (length fresh) (warningCount s)
  /\ initialized st'.2 = initialized s
  /\ Stdout st'.2 = Stdout s
  /\ emitted st'.2 = emitted s
  /\ Stderr st'.2 = Stderr s ++ map Spec.discoveryNotice fresh.
Proof.
  revert m s. induction groups as [|[k e] groups IH]; intros m s Hnd; simpl.
  - rewrite (right_id_L ∅ (∪)), app_nil_r.
    repeat split; reflexivity.
  - simpl in Hnd. apply NoDup_cons in Hnd as [Hk Hnd].
    destruct (m !! k) as [x|] eqn:Hm.
    + destruct (IH m s Hnd) as (H1 & H2 & H3 & H4 & H5 & H6 & H7).
      rewrite filter_cons_False by (simpl; congruence).
      split; [|by repeat split].
      rewrite H1. apply map_eq. intros i.
      destruct (decide (i = k)) as [->|Hne].
      * rewrite !lookup_union_l' by eauto. reflexivity.
      * rewrite !lookup_union, lookup_insert_ne by done. reflexivity.
    + destruct (IH (<[k:=e]> m)
                   (toStderr ("warning: could not discover resources in "
                                +:+ GroupVersion_String k +:+ ": " +:+ e)
                             (incWarning s)) Hnd)
        as (H1 & H2 & H3 & H4 & H5 & H6 & H7).
      rewrite filter_cons_True by (simpl; congruence).
      assert (Hf : filter (fun entry => <[k:=e]> m !! entry.1 = None) groups
                   = filter (fun entry => m !! entry.1 = None) groups).
      { apply filter_iff_elem_of. intros [k' e'] Hin. simpl.
        rewrite lookup_insert_ne; [done|].
        intros ->. apply Hk. by apply (list_elem_of_fmap_2 fst) in Hin. }
      rewrite Hf in H3, H7. simpl in *.
      split; [|repeat split; try assumption].
      * rewrite H1, <- insert_union_l. by rewrite insert_union_r.
      * rewrite H3. symmetry. apply (bump_S _ (warningCount s)).
      * rewrite H7, <- app_assoc. reflexivity.
Qed.

Lemma discoveryPass_spec err m s :
  match discoveryPass err (m, s) with
  | inl e => err = OtherError e
  | inr st' =>
      st' = tolerateDiscoveryFailure (map_to_list (Spec.groupsOf err)) (m, s)
      /\ forall e, err <> OtherError e
  end.
Proof.
  destruct err as [|G|e]; simpl; [|done|done].
  rewrite map_to_list_empty. done.
Qed.

Lemma noticed_Permutation d :
  Spec.noticed d ≡ₚ map_to_list (Spec.recordedDiscoveryFailures d).
Proof.
  unfold Spec.noticed, Spec.recordedDiscoveryFailures.
  set (G1 := Spec.groupsOf (GetAPIGroupResources_err d)).
  set (G2 := Spec.groupsOf (ServerPreferredResources_err d)).
  apply NoDup_Permutation.
  - apply NoDup_app. split; [apply NoDup_map_to_list|]. split.
    + intros [k e] H1 H2. apply elem_of_map_to_list in H1.
      apply list_elem_of_filter in H2 as [H2 _]. simpl in H2. congruence.
    + apply NoDup_filter, NoDup_map_to_list.
  - apply NoDup_map_to_list.
  - intros [k e]. rewrite elem_of_app, list_elem_of_filter, !elem_of_map_to_list.
    rewrite lookup_union_Some_raw. simpl. reflexivity.
Qed.

(** The state after the two calls, when none of them is fatal. *)
Lemma discover_spec d failures s :
  discover d = inr (failures, s) ->
  failures = Spec.recordedDiscoveryFailures d
  /\ errorCount s = 0
  /\ warningCount s = Spec.bump (size (Spec.recordedDiscoveryFailures d)) 0
  /\ initialized s = false
  /\ Stdout s = []
  /\ emitted s = []
  /\ Stderr s = map Spec.discoveryNotice (Spec.noticed d).
Proof.
  unfold discover. intros H.
  pose proof (discoveryPass_spec (GetAPIGroupResources_err d) ∅ initialStreams) as P1.
  destruct (discoveryPass (GetAPIGroupResources_err d) (∅, initialStreams))
    as [e1|[m1 s1]]; [discriminate|].
  destruct P1 as [P1 _].
  pose proof (discoveryPass_spec (ServerPreferredResources_err d) m1 s1) as P2.
  destruct (discoveryPass (ServerPreferredResources_err d) (m1, s1))
    as [e2|[m2 s2]]; [discriminate|].
  destruct P2 as [P2 _]. injection H as -> ->.
  set (G1 := Spec.groupsOf (GetAPIGroupResources_err d)) in *.
  set (G2 := Spec.groupsOf (ServerPreferredResources_err d)) in *.
  destruct (tolerateDiscoveryFailure_spec (map_to_list G1) ∅ initialStreams
              (NoDup_fst_map_to_list G1)) as (A1 & A2 & A3 & A4 & A5 & A6 & A7).
  rewrite <- P1 in A1, A2, A3, A4, A5, A6, A7. simpl in *.
  rewrite list_to_map_to_list, (left_id_L ∅ (∪)) in A1. subst m1.
  destruct (tolerateDiscoveryFailure_spec (map_to_list G2) G1 s1
              (NoDup_fst_map_to_list G2)) as (B1 & B2 & B3 & B4 & B5 & B6 & B7).
  rewrite <- P2 in B1, B2, B3, B4, B5, B6, B7. simpl in *.
  rewrite list_to_map_to_list in B1.
  rewrite filter_unrecorded_empty in A3, A7.
  assert (Hlen : length (Spec.noticed d)
                 = size (Spec.recordedDiscoveryFailures d)).
  { rewrite (Permutation_length (noticed_Permutation d)).
    apply length_map_to_list. }
  split; [exact B1|]. split; [congruence|]. split.
  { rewrite B3, A3, <- Hlen. unfold Spec.noticed. fold G1 G2.
    by rewrite length_app, bump_add. }
  split; [congruence|]. split; [congruence|]. split; [congruence|].
  rewrite B7, A7. unfold Spec.noticed. fold G1 G2. by rewrite map_app.
Qed.

(** ** The run as a whole *)

Lemma flat_map_select {B : Type} (F : GroupVersionResource -> list B)
      (g : GroupVersionResource) (gvrs : list GroupVersionResource) :
  NoDup gvrs -> g ∈ gvrs ->
  flat_map (fun gvr => if decide (gvr = g) then F gvr else []) gvrs = F g.
Proof.
  induction gvrs as [|a gvrs IH]; intros Hnd Hin; [by apply elem_of_nil in Hin|].
  apply NoDup_cons in Hnd as [Ha Hnd]. simpl.
  assert (Hnone : forall l : list GroupVersionResource, g ∉ l ->
            flat_map (fun gvr => if decide (gvr = g) then F gvr else []) l = []).
  { clear. induction l as [|b l IHl]; intros Hb; [done|].
    apply not_elem_of_cons in Hb as [Hne Hb]. simpl.
    destruct (decide (b = g)); [congruence|]. by apply IHl. }
  destruct (decide (a = g)) as [->|Hne].
  - rewrite (Hnone gvrs Ha). apply app_nil_r.
  - apply elem_of_cons in Hin as [->|Hin]; [done|]. by apply IH.
Qed.

Lemma flat_map_ext_elem_of {A B : Type} (f g : A -> list B) (l : list A) :
  (forall x, x ∈ l -> f x = g x) -> flat_map f l = flat_map g l.
Proof.
  induction l as [|a l IH]; intros H; [done|]. simpl.
  rewrite (H a) by apply list_elem_of_here.
  rewrite IH; [done|]. intros x Hx. apply H. by apply list_elem_of_further.
Qed.

Section RunFacts.

Variable ParseGroupVersion : string -> GroupVersion * option error.
Variable ToLower : string -> string.
Variable klogV : Z.

(** The two indexes after the fetch loop over distinct resource types. *)
Lemma fetchAll_index mapper client gvrs s0 :
  NoDup gvrs ->
  let fetched := fetchAll klogV mapper client gvrs (emptyFetch s0) in
  (forall g, g ∈ gvrs ->
             default [] (byGVR fetched !! g) = Spec.fetchedOf mapper client g)
  /\ (forall u, default [] (byUID fetched !! u)
                = filter (fun o => UID o = u)
                         (flat_map (Spec.fetchedOf mapper client) gvrs)).
Proof.
  intros Hnd fetched.
  destruct (fetchAll_spec klogV mapper client gvrs (emptyFetch s0))
    as (_ & _ & H3 & H4).
  fold fetched in H3, H4. split.
  - intros g Hg. rewrite H3. simpl. rewrite lookup_empty. simpl.
    by apply flat_map_select.
  - intros u. rewrite H4. simpl. rewrite lookup_empty. reflexivity.
Qed.

(** A body that cannot report, because no sink is installed, either panics
    or leaves the streams as they are. *)
Lemma validateOwnerRef_no_sink mapper failures listErrs byUID' gvr child ownerRef s s' :
  validateOwnerRef ParseGroupVersion ToLower mapper failures listErrs byUID'
                   None gvr child ownerRef s = Some s' ->
  s' = s.
Proof.
  unfold validateOwnerRef, callRefMessage.
  destruct (ParseGroupVersion (or_APIVersion ownerRef)) as [gv [e|]]; [done|].
  destruct (mapper_RESTMapping _ _ _) as [m|e];
    [|destruct (failures !! gv); done].
  destruct (_ && _); [done|].
  destruct (Nat.eqb _ _); [destruct (listErrs !! _); done|].
  destruct (negb _); [done|].
  destruct (negb _); [done|].
  destruct (negb _); [done|].
  congruence.
Qed.

Lemma forEach_frame {A : Type} (P : Streams -> Streams -> Prop)
      (body : A -> Streams -> option Streams) (l : list A) :
  (forall s, P s s) ->
  (forall s1 s2 s3, P s1 s2 -> P s2 s3 -> P s1 s3) ->
  (forall x s s', body x s = Some s' -> P s s') ->
  forall s s', forEach body l s = Some s' -> P s s'.
Proof.
  intros Hrefl Htrans Hbody. induction l as [|x l IH]; intros s s' H; simpl in H.
  - injection H as <-. apply Hrefl.
  - destruct (body x s) as [s1|] eqn:E; [|discriminate].
    apply (Htrans s s1 s'); [by apply (Hbody x) | by apply IH].
Qed.

(** Whatever the output format, validation writes nothing to stderr and
    increments each counter at most once per finding. *)
Lemma validateAll_frame mapper failures listErrs byGVR' byUID' output gvrs s s' :
  validateAll ParseGroupVersion ToLower mapper failures listErrs byGVR' byUID'
              (outputRefMessage output) gvrs s = Some s' ->
  Stderr s' = Stderr s
  /\ exists e w : nat,
      (e <= length (Spec.findingsOver ParseGroupVersion ToLower mapper failures
                                      listErrs byUID' byGVR' gvrs))%nat
      /\ (w <= length (Spec.findingsOver ParseGroupVersion ToLower mapper failures
                                         listErrs byUID' byGVR' gvrs))%nat
      /\ errorCount s' = Spec.bump e (errorCount s)
      /\ warningCount s' = Spec.bump w (warningCount s).
Proof.
  destruct (outputRefMessage output) as [sink|] eqn:E.
  - assert (Hv : output = "" \/ output = "json").
    { unfold outputRefMessage in E.
      destruct (String.eqb output "") eqn:E1; [left; by apply String.eqb_eq|].
      destruct (String.eqb output "json") eqn:E2; [right; by apply String.eqb_eq|].
      discriminate. }
    rewrite <- E. intros H.
    destruct (validateAll_validated ParseGroupVersion ToLower mapper failures
                listErrs byGVR' byUID' output Hv gvrs s) as (s1 & H1 & V).
    rewrite H in H1. injection H1 as <-.
    destruct V as (_ & V2 & V3 & V4). split; [exact V2|].
    destruct Hv as [Hv|Hv].
    + destruct (V3 Hv) as [Ve Vw].
      eexists _, _. split; [|split; [|split; [exact Ve | exact Vw]]];
        unfold Spec.countLevel; apply length_filter.
    + destruct (V4 Hv) as [Ve Vw].
      exists 0%nat, 0%nat. repeat split; try lia; assumption.
  - intros H. cut (Stderr s' = Stderr s /\ errorCount s' = errorCount s
                   /\ warningCount s' = warningCount s).
    { intros (A1 & A2 & A3). split; [exact A1|].
      exists 0%nat, 0%nat. repeat split; try lia; assumption. }
    revert s s' H. unfold validateAll.
    apply (forEach_frame
             (fun s s' => Stderr s' = Stderr s /\ errorCount s' = errorCount s
                          /\ warningCount s' = warningCount s)).
    + intros. repeat split.
    + intros s1 s2 s3 (A1 & A2 & A3) (B1 & B2 & B3).
      repeat split; congruence.
    + intros gvr s0 s0'. unfold validateResource.
      destruct (forEach _ _ s0) as [s1|] eqn:E1; [|discriminate].
      intros H. injection H as <-.
      assert (s1 = s0) as ->.
      { revert E1.
        apply (forEach_frame (fun s s' => s' = s)); [done | congruence |].
        intros child t t'. unfold validateChild.
        apply (forEach_frame (fun s s' => s' = s)); [done | congruence |].
        intros ownerRef u u'. apply validateOwnerRef_no_sink. }
      simpl. repeat split.
Qed.

Lemma summarize_spec s :
  errorCount (summarize s) = errorCount s
  /\ warningCount (summarize s) = warningCount s
  /\ emitted (summarize s) = emitted s
  /\ Stdout (summarize s) = Stdout s
  /\ exists line, Stderr (summarize s) = Stderr s ++ [line]
                  /\ Spec.isDiscoveryNotice line = false
                  /\ (0 <= errorCount s -> 0 <= warningCount s ->
                      line = Spec.summaryLine (errorCount s) (warningCount s)).
Proof.
  unfold summarize.
  destruct ((0 <? errorCount s) || (0 <? warningCount s)) eqn:E; simpl.
  - do 4 (split; [reflexivity|]). eexists. split; [reflexivity|]. split.
    + apply pluralize_not_notice.
    + intros He Hw. unfold Spec.summaryLine.
      apply orb_true_iff in E. rewrite !Z.ltb_lt in E.
      destruct (decide (errorCount s = 0 /\ warningCount s = 0)); [lia|].
      unfold pluralize, Spec.counted.
      destruct (Z.eqb_spec (errorCount s) 1), (Z.eqb_spec (warningCount s) 1);
        repeat destruct (decide _); try lia; reflexivity.
  - do 4 (split; [reflexivity|]). eexists. split; [reflexivity|]. split.
    + reflexivity.
    + intros He Hw. unfold Spec.summaryLine.
      apply orb_false_iff in E. rewrite !Z.ltb_ge in E.
      destruct (decide (errorCount s = 0 /\ warningCount s = 0)); [done|lia].
Qed.

(** A run that returns nil went through all the phases. *)
Lemma Run_returned v s :
  Run ParseGroupVersion ToLower klogV v = Returned None s ->
  exists failures s0 gvrMap s1,
    discover (DiscoveryClient v) = inr (failures, s0)
    /\ GroupVersionResources (DiscoveryClient v) = Ok gvrMap
    /\ (let fetched := fetchAll klogV (restMapper (DiscoveryClient v))
                                (MetadataClient v) (catalog gvrMap) (emptyFetch s0) in
        validateAll ParseGroupVersion ToLower (restMapper (DiscoveryClient v))
                    failures (grListErrors fetched) (byGVR fetched) (byUID fetched)
                    (outputRefMessage (Output v)) (catalog gvrMap) (fetchOut fetched)
        = Some s1)
    /\ s = summarize s1.
Proof.
  unfold Run.
  destruct (discover (DiscoveryClient v)) as [[e s0]|[failures s0]]; [discriminate|].
  destruct (GroupVersionResources (DiscoveryClient v)) as [gvrMap|e]; [|discriminate].
  destruct (validateAll _ _ _ _ _ _ _ _ _ _) as [s1|] eqn:E; [|discriminate].
  intros H. injection H as <-.
  exists failures, s0, gvrMap, s1. done.
Qed.

(** Over the catalog, the index by resource type lists the fetched objects. *)
Lemma findingsOver_fetched mapper failures listErrs uids client gvrMap s0 :
  Spec.findingsOver ParseGroupVersion ToLower mapper failures listErrs uids
                    (byGVR (fetchAll klogV mapper client (catalog gvrMap)
                                     (emptyFetch s0)))
                    (catalog gvrMap)
  = Spec.findingsOfRun ParseGroupVersion ToLower mapper failures listErrs uids
                       client (catalog gvrMap).
Proof.
  unfold Spec.findingsOver, Spec.findingsOfRun.
  apply flat_map_ext_elem_of. intros gvr Hgvr.
  destruct (fetchAll_index mapper client (catalog gvrMap) s0
              (catalog_NoDup gvrMap)) as [Hidx _].
  by rewrite Hidx.
Qed.

(** There is at most one finding per retrieved owner reference. *)
Lemma findingsOfRun_length mapper failures listErrs uids client gvrs :
  (length (Spec.findingsOfRun ParseGroupVersion ToLower mapper failures listErrs
                              uids client gvrs)
   <= length (Spec.ownerReferencesOf client gvrs))%nat.
Proof.
  unfold Spec.findingsOfRun, Spec.ownerReferencesOf.
  induction gvrs as [|gvr gvrs IH]; simpl; [lia|].
  rewrite !length_app.
  apply Nat.add_le_mono; [|exact IH].
  unfold Spec.fetchedOf.
  induction (Spec.retrieved (client gvr)) as [|o objs IHo]; simpl; [lia|].
  rewrite !length_app.
  apply Nat.add_le_mono; [|exact IHo].
  unfold Spec.findingsOfChild.
  replace (OwnerReferences (backfill (mapper_KindFor mapper gvr).1 o))
    with (OwnerReferences o) by (unfold backfill; by destruct (_ && _)).
  generalize (backfill (mapper_KindFor mapper gvr).1 o). intros child.
  induction (OwnerReferences o) as [|r refs IHr]; simpl; [lia|].
  rewrite length_app. unfold Spec.findingsOfRef at 1.
  destruct (Spec.verdict _ _ _ _ _ _ _ _) as [[level msg]|]; simpl; lia.
Qed.

(** With a valid output format, a run whose discovery is not fatal returns
    nil, and its findings are those of the specification in catalog order,
    fetch order and declaration order. *)
Lemma Run_completes v failures s0 gvrMap :
  Output v = "" \/ Output v = "json" ->
  discover (DiscoveryClient v) = inr (failures, s0) ->
  GroupVersionResources (DiscoveryClient v) = Ok gvrMap ->
  let fetched := fetchAll klogV (restMapper (DiscoveryClient v))
                          (MetadataClient v) (catalog gvrMap) (emptyFetch s0) in
  exists s1,
    Run ParseGroupVersion ToLower klogV v = Returned None (summarize s1)
    /\ Spec.validated (Output v)
         (Spec.findingsOfRun ParseGroupVersion ToLower (restMapper (DiscoveryClient v))
                             failures (grListErrors fetched) (byUID fetched)
                             (MetadataClient v) (catalog gvrMap))
         (fetchOut fetched) s1.
Proof.
  intros Hout Hd Hg fetched.
  destruct (validateAll_validated ParseGroupVersion ToLower
              (restMapper (DiscoveryClient v)) failures (grListErrors fetched)
              (byGVR fetched) (byUID fetched) (Output v) Hout
              (catalog gvrMap) (fetchOut fetched)) as (s1 & E & V).
  exists s1. split.
  - unfold Run. rewrite Hd, Hg. fold fetched. by rewrite E.
  - subst fetched. rewrite <- findingsOver_fetched with (s0 := s0). exact V.
Qed.

(** The counters of a run that returns nil, before the summary: the error
    counter has been incremented at most once per finding, the warning
    counter once per recorded discovery failure, once per failed listing and
    at most once per finding.  When the data of the run fit an int, no
    increment has wrapped around. *)
Lemma Run_counters v s :
  Run ParseGroupVersion ToLower klogV v = Returned None s ->
  Spec.fitsInt v ->
  exists s1 (e w : nat),
    s = summarize s1
    /\ errorCount s1 = Z.of_nat e
    /\ warningCount s1 = Z.of_nat w.
Proof.
  intros H Hfit.
  apply Run_returned in H as (failures & s0 & gvrMap & s1 & Hd & Hg & Hv & ->).
  apply discover_spec in Hd as (_ & D1 & D2 & _).
  apply validateAll_frame in Hv as (_ & e & w & He & Hw & V1 & V2).
  rewrite findingsOver_fetched in He, Hw.
  pose proof (findingsOfRun_length (restMapper (DiscoveryClient v)) failures
                (grListErrors (fetchAll klogV (restMapper (DiscoveryClient v))
                                        (MetadataClient v) (catalog gvrMap)
                                        (emptyFetch s0)))
                (byUID (fetchAll klogV (restMapper (DiscoveryClient v))
                                 (MetadataClient v) (catalog gvrMap)
                                 (emptyFetch s0)))
                (MetadataClient v) (catalog gvrMap)) as HN.
  destruct (fetchAll_spec klogV (restMapper (DiscoveryClient v)) (MetadataClient v)
              (catalog gvrMap) (emptyFetch s0)) as (_ & (F1 & F2 & _) & _).
  simpl in F1, F2.
  pose proof (length_filter (fun gvr => is_Some (Spec.listingError (MetadataClient v gvr)))
                            (catalog gvrMap)) as HL.
  fold (Spec.failedListings (MetadataClient v) (catalog gvrMap)) in HL.
  unfold Spec.fitsInt, Spec.load, Spec.resourceTypes in Hfit. rewrite Hg in Hfit.
  exists s1, e.
  exists (size (Spec.recordedDiscoveryFailures (DiscoveryClient v))
          + length (Spec.failedListings (MetadataClient v) (catalog gvrMap)) + w)%nat.
  split; [reflexivity|]. split.
  - rewrite V1, F1, D1. rewrite bump_exact by lia. lia.
  - rewrite V2, F2, D2, <- !bump_add. rewrite bump_exact by lia. lia.
Qed.

End RunFacts.

(** ** Properties of the run: C1, C3, C6, C7, C8, C9, C10 *)

(** C1. For every object of the index and each of its owner references the
    validator applies, in this order, the checks (1) parse owner apiVersion,
    (2) resolve owner kind, (3) scope, (4) UID existence, (5) multi-candidate
    cross-check; it stops at the first check that fires and emits exactly one
    finding for that owner reference, and none when no check fires.

    The findings of a run are those of the three loops: over the catalog, over
    the objects indexed under the resource type, over the owner references of
    the object, each owner reference giving the finding of its first firing
    check or nothing.  The body of the loops, at any state and against any
    indexes, adds exactly that to the findings.  In particular an apiVersion
    that cannot be parsed gives exactly one Error finding with the
    parse-failure message whatever the later checks would say, and a reference
    that parses, resolves, passes the scope check and whose UID bucket holds
    an object with matching name, namespace and group/kind gives no finding. *)
Theorem C1_ordered_checks_first_firing
        (ParseGroupVersion : string -> GroupVersion * option error)
        (ToLower : string -> string) (klogV : Z)
        (v : VerifyGCOptions) (failures : gmap GroupVersion error)
        (s0 s : Streams) (gvrMap : gset GroupVersionResource) :
  Output v = "" \/ Output v = "json" ->
  discover (DiscoveryClient v) = inr (failures, s0) ->
  GroupVersionResources (DiscoveryClient v) = Ok gvrMap ->
  Run ParseGroupVersion ToLower klogV v = Returned None s ->
  let fetched := fetchAll klogV (restMapper (DiscoveryClient v))
                          (MetadataClient v) (catalog gvrMap) (emptyFetch s0) in
  let findingOf mapper gvDiscoveryFailures grListErrs byUID' gvr child ownerRef :=
    match Spec.firstFiring
            (Spec.orderedChecks ParseGroupVersion ToLower mapper
                                gvDiscoveryFailures grListErrs byUID'
                                child ownerRef) with
    | Some (level, msg) => [mkFinding gvr child ownerRef level msg]
    | None => []
    end in
  emitted s
  = flat_map
      (fun gvr =>
         flat_map
           (fun child =>
              flat_map (findingOf (restMapper (DiscoveryClient v)) failures
                                  (grListErrors fetched) (byUID fetched) gvr child)
                       (OwnerReferences child))
           (default [] (byGVR fetched !! gvr)))
      (catalog gvrMap)
  /\ forall mapper gvDiscoveryFailures grListErrs byUID' gvr child ownerRef st,
      exists st',
        validateOwnerRef ParseGroupVersion ToLower mapper gvDiscoveryFailures
                         grListErrs byUID' (outputRefMessage (Output v))
                         gvr child ownerRef st = Some st'
        /\ emitted st'
           = emitted st
               ++ findingOf mapper gvDiscoveryFailures grListErrs byUID'
                            gvr child ownerRef
        /\ (forall err,
              (ParseGroupVersion (or_APIVersion ownerRef)).2 = Some err ->
              emitted st'
              = emitted st
                  ++ [mkFinding gvr child ownerRef levelError
                                ("invalid owner apiVersion " +:+ or_APIVersion ownerRef
                                   +:+ ": " +:+ err)])
        /\ (forall mapping owner,
              (ParseGroupVersion (or_APIVersion ownerRef)).2 = None ->
              Spec.resolved ParseGroupVersion mapper ownerRef = Ok mapping ->
              (mapping_Scope mapping = RESTScopeNameNamespace ->
               Namespace child <> "") ->
              owner ∈ Spec.bucket byUID' ownerRef ->
              Name owner = or_Name ownerRef ->
              (Namespace owner = "" \/ Namespace owner = Namespace child) ->
              Kind owner = or_Kind ownerRef ->
              gv_Group (ParseGroupVersion (APIVersion owner)).1
              = gv_Group (ParseGroupVersion (or_APIVersion ownerRef)).1 ->
              emitted st' = emitted st).
Proof.
  intros Hout Hd Hg H fetched findingOf. split.
  - destruct (validateAll_validated ParseGroupVersion ToLower
                (restMapper (DiscoveryClient v)) failures (grListErrors fetched)
                (byGVR fetched) (byUID fetched) (Output v) Hout
                (catalog gvrMap) (fetchOut fetched)) as (s1 & E & V1 & _).
    unfold Run in H. rewrite Hd, Hg in H. fold fetched in H. rewrite E in H.
    injection H as <-.
    destruct (summarize_spec s1) as (_ & _ & E3 & _). rewrite E3, V1.
    destruct (fetchAll_spec klogV (restMapper (DiscoveryClient v)) (MetadataClient v)
                (catalog gvrMap) (emptyFetch s0)) as (_ & (_ & _ & _ & _ & F5 & _) & _).
    apply discover_spec in Hd as (_ & _ & _ & _ & _ & D6 & _).
    simpl in F5. fold fetched in F5. rewrite F5, D6. reflexivity.
  - intros mapper gvDiscoveryFailures grListErrs byUID' gvr child ownerRef st.
    destruct (validateOwnerRef_emitted ParseGroupVersion ToLower mapper
                gvDiscoveryFailures grListErrs byUID' (Output v) gvr child ownerRef
                st Hout) as (st' & Hrun & Hem & _).
    exists st'. split; [exact Hrun|]. split; [exact Hem|]. split.
    + intros err HP. rewrite Hem.
      unfold Spec.findingsOfRef, Spec.verdict, Spec.orderedChecks, Spec.parseCheck.
      rewrite HP. reflexivity.
    + intros mapping owner HP HM HS Hin Hname Hns Hkind Hgroup. rewrite Hem.
      unfold Spec.findingsOfRef.
      rewrite (verdict_None ParseGroupVersion ToLower mapper gvDiscoveryFailures
                 grListErrs byUID' child ownerRef mapping HP HM HS).
      * apply app_nil_r.
      * apply (existsb_witness _ _ owner Hin). by apply namespaceAspect_true.
      * apply (existsb_witness _ _ owner Hin). by apply nameAspect_true.
      * apply (existsb_witness _ _ owner Hin). apply kindGroupAspect_true. auto.
Qed.

Lemma C1_ordered_checks_first_firing_witness :
  emitted (Scenarios.finalStreams (Scenarios.run 3 (Scenarios.mismatchedName "")))
  = [ mkFinding Scenarios.pods
                (Scenarios.pod1 [mkOwnerRef "v1" "Node" "nodex" "node1uid"])
                (mkOwnerRef "v1" "Node" "nodex" "node1uid") levelError
                "ownerReference name (nodex) does not match owner name (node1)" ]
  /\ exists st',
      validateOwnerRef Scenarios.ParseGroupVersion Scenarios.ToLower
                       (Scenarios.tableMapper Scenarios.v1Resources) ∅ ∅
                       {[ "node1uid" := [Scenarios.node1] ]}
                       (outputRefMessage "") Scenarios.pods
                       (Scenarios.pod1 [mkOwnerRef "v1" "Node" "node1" "node1uid"])
                       (mkOwnerRef "v1" "Node" "node1" "node1uid")
                       initialStreams = Some st'
      /\ emitted st' = [].
Proof.
  destruct (C1_ordered_checks_first_firing
              Scenarios.ParseGroupVersion Scenarios.ToLower 3
              (Scenarios.mismatchedName "") ∅ initialStreams
              (Scenarios.finalStreams (Scenarios.run 3 (Scenarios.mismatchedName "")))
              (list_to_set (map Scenarios.resourceGVR Scenarios.v1Resources)))
    as [Hloops Hbody].
  - left. reflexivity.
  - vm_compute. reflexivity.
  - reflexivity.
  - vm_compute. reflexivity.
  - split; [rewrite Hloops; vm_compute; reflexivity|].
    destruct (Hbody (Scenarios.tableMapper Scenarios.v1Resources) ∅ ∅
                    {[ "node1uid" := [Scenarios.node1] ]} Scenarios.pods
                    (Scenarios.pod1 [mkOwnerRef "v1" "Node" "node1" "node1uid"])
                    (mkOwnerRef "v1" "Node" "node1" "node1uid") initialStreams)
      as (st' & Hrun & _ & _ & Hvalid).
    exists st'. split; [exact Hrun|].
    apply (Hvalid (mkMapping Scenarios.nodes (mkGVK "" "v1" "Node") RESTScopeNameRoot)
                  Scenarios.node1).
    + reflexivity.
    + reflexivity.
    + discriminate.
    + vm_compute. apply list_elem_of_here.
    + reflexivity.
    + left. reflexivity.
    + reflexivity.
    + reflexivity.
Defined.

(** C8. At run end stderr receives one more line: exactly
    "No invalid ownerReferences found" when the error counter and the warning
    counter are both zero, otherwise "<N> error(s), <M> warning(s)" with both
    counts, each noun in the singular exactly when its count is 1.  (The data
    of the run fit an int, as data held in memory do.) *)
Theorem C8_final_summary_line
        (ParseGroupVersion : string -> GroupVersion * option error)
        (ToLower : string -> string) (klogV : Z)
        (v : VerifyGCOptions) (s : Streams) :
  Spec.fitsInt v ->
  Run ParseGroupVersion ToLower klogV v = Returned None s ->
  (forall n singular plural,
      pluralize n singular plural
      = itoa n +:+ " " +:+ (if decide (n = 1) then singular else plural))
  /\ exists before,
      Stderr s = before ++ [Spec.summaryLine (errorCount s) (warningCount s)].
Proof.
  intros Hfit H. split.
  - intros n singular plural. unfold pluralize.
    destruct (Z.eqb_spec n 1); destruct (decide (n = 1)); done.
  - destruct (Run_counters _ _ _ _ _ H Hfit) as (s1 & e & w & -> & He & Hw).
    destruct (summarize_spec s1) as (E1 & E2 & _ & _ & line & L1 & _ & L3).
    exists (Stderr s1). rewrite L1, E1, E2, L3 by lia. reflexivity.
Qed.

Lemma C8_final_summary_line_witness :
  exists before,
    Stderr (Scenarios.finalStreams (Scenarios.run 3 (Scenarios.unavailableVersion "")))
    = before ++ ["1 error, 0 warnings" +:+ nl].
Proof.
  destruct (C8_final_summary_line
              Scenarios.ParseGroupVersion Scenarios.ToLower 3
              (Scenarios.unavailableVersion "")
              (Scenarios.finalStreams (Scenarios.run 3 (Scenarios.unavailableVersion ""))))
    as [_ [before H]].
  - vm_compute. reflexivity.
  - vm_compute. reflexivity.
  - exists before. rewrite H. f_equal.
Defined.

(** C3, amended.  In tabular mode, at the end of a run that returns
    nil, the error counter is the number of Error findings emitted, and the
    warning counter is the number of Warning findings emitted plus the number
    of recorded discovery failures plus the number of resource types whose
    listing failed.  (The data of the run fit an int, as data held in memory
    do.) *)
Theorem C3_tabular_counters
        (ParseGroupVersion : string -> GroupVersion * option error)
        (ToLower : string -> string) (klogV : Z)
        (v : VerifyGCOptions) (s : Streams) :
  Output v = "" ->
  Spec.fitsInt v ->
  Run ParseGroupVersion ToLower klogV v = Returned None s ->
  errorCount s = Z.of_nat (Spec.countLevel levelError (emitted s))
  /\ warningCount s
     = Z.of_nat (Spec.countLevel levelWarning (emitted s))
       + Z.of_nat (size (Spec.recordedDiscoveryFailures (DiscoveryClient v)))
       + Z.of_nat (length (Spec.failedListings (MetadataClient v)
                                               (Spec.resourceTypes (DiscoveryClient v)))).
Proof.
  intros Hout Hfit H.
  destruct (Run_returned _ _ _ _ _ H) as (failures & s0 & gvrMap & s1' & Hd & Hg & _ & _).
  destruct (Run_completes ParseGroupVersion ToLower klogV v failures s0 gvrMap
              (or_introl Hout) Hd Hg) as (s1 & Hrun & V).
  rewrite Hrun in H. injection H as <-.
  destruct (summarize_spec s1) as (E1 & E2 & E3 & _).
  rewrite E1, E2, E3.
  apply discover_spec in Hd as (_ & D1 & D2 & _ & _ & D6 & _).
  destruct (fetchAll_spec klogV (restMapper (DiscoveryClient v)) (MetadataClient v)
              (catalog gvrMap) (emptyFetch s0)) as (_ & (F1 & F2 & _ & _ & F5 & _) & _).
  simpl in F1, F2, F5.
  destruct V as (V1 & _ & V3 & _). destruct (V3 Hout) as [V3e V3w].
  rewrite F5, D6 in V1. simpl in V1. rewrite V1.
  pose proof (findingsOfRun_length ParseGroupVersion ToLower
                (restMapper (DiscoveryClient v)) failures
                (grListErrors (fetchAll klogV (restMapper (DiscoveryClient v))
                                        (MetadataClient v) (catalog gvrMap)
                                        (emptyFetch s0)))
                (byUID (fetchAll klogV (restMapper (DiscoveryClient v))
                                 (MetadataClient v) (catalog gvrMap)
                                 (emptyFetch s0)))
                (MetadataClient v) (catalog gvrMap)) as HN.
  set (fs := Spec.findingsOfRun _ _ _ _ _ _ _ _) in *.
  pose proof (length_filter (fun f => f_level f = levelError) fs) as HE.
  pose proof (length_filter (fun f => f_level f = levelWarning) fs) as HW.
  fold (Spec.countLevel levelError fs) in HE.
  fold (Spec.countLevel levelWarning fs) in HW.
  pose proof (length_filter (fun gvr => is_Some (Spec.listingError (MetadataClient v gvr)))
                            (catalog gvrMap)) as HL.
  fold (Spec.failedListings (MetadataClient v) (catalog gvrMap)) in HL.
  unfold Spec.fitsInt, Spec.load in Hfit.
  unfold Spec.resourceTypes in *. rewrite Hg in *.
  split.
  - rewrite V3e, F1, D1. rewrite bump_exact by lia. lia.
  - rewrite V3w, F2, D2, <- !bump_add. rewrite bump_exact by lia. lia.
Qed.

Lemma C3_tabular_counters_witness :
  errorCount (Scenarios.finalStreams (Scenarios.run 3 (Scenarios.forbidden ""))) = 0
  /\ warningCount (Scenarios.finalStreams (Scenarios.run 3 (Scenarios.forbidden ""))) = 2.
Proof.
  destruct (C3_tabular_counters
              Scenarios.ParseGroupVersion Scenarios.ToLower 3 (Scenarios.forbidden "")
              (Scenarios.finalStreams (Scenarios.run 3 (Scenarios.forbidden ""))))
    as [He Hw].
  - reflexivity.
  - vm_compute. reflexivity.
  - vm_compute. reflexivity.
  - split; [rewrite He | rewrite Hw]; vm_compute; reflexivity.
Defined.

(** C3, counterexample to "the warning counter equals exactly the number of
    Warning-severity findings": in the "forbidden" cluster of the tests the
    tabular run ends with a warning counter of 2 and one Warning finding. *)
Lemma C3_counters_counterexample :
  exists s,
    Scenarios.run 3 (Scenarios.forbidden "") = Returned None s
    /\ Spec.countLevel levelWarning (emitted s) = 1%nat
    /\ warningCount s = 2
    /\ warningCount s <> Z.of_nat (Spec.countLevel levelWarning (emitted s)).
Proof.
  eexists. split; [vm_compute; reflexivity|].
  split; [vm_compute; reflexivity|].
  split; [vm_compute; reflexivity|].
  vm_compute. discriminate.
Qed.

(** The JSON sink does not touch the counters: the run of the "mismatched
    name" cluster emits one Error finding, counts none, and ends with the
    line for a clean run. *)
Example json_run_counts_no_finding :
  exists s,
    Scenarios.run 3 (Scenarios.mismatchedName "json") = Returned None s
    /\ Spec.countLevel levelError (emitted s) = 1%nat
    /\ errorCount s = 0
    /\ last (Stderr s) = Some ("No invalid ownerReferences found" +:+ nl).
Proof.
  eexists. split; [vm_compute; reflexivity|].
  repeat split; vm_compute; reflexivity.
Qed.

Lemma StronglySorted_lookup_le (l : list GroupVersionResource) i j a b :
  StronglySorted Spec.gvrLe l ->
  l !! i = Some a -> l !! j = Some b -> (i < j)%nat -> Spec.gvrLe a b.
Proof.
  intros HS. revert i j. induction HS as [|x l HS IH Hx]; intros i j Hi Hj Hlt.
  - by rewrite lookup_nil in Hi.
  - destruct j as [|j]; [lia|]. simpl in Hj.
    destruct i as [|i]; simpl in Hi.
    + injection Hi as ->. rewrite Forall_forall in Hx. apply Hx.
      by eapply list_elem_of_lookup_2.
    + apply (IH i j Hi Hj). lia.
Qed.

(** C6. The enumerable resource types are iterated in ascending order of
    (group, version, resource), strings compared byte by byte and so case
    sensitively, the empty group first; the order does not depend on the order
    in which the keys of the map were collected.  The findings of a run are
    produced in catalog order, then in fetch order within a resource type,
    then in declaration order within an object. *)
Theorem C6_catalog_and_finding_order
        (ParseGroupVersion : string -> GroupVersion * option error)
        (ToLower : string -> string) (klogV : Z)
        (v : VerifyGCOptions) (failures : gmap GroupVersion error)
        (s0 s : Streams) (gvrMap : gset GroupVersionResource) :
  Output v = "" \/ Output v = "json" ->
  discover (DiscoveryClient v) = inr (failures, s0) ->
  GroupVersionResources (DiscoveryClient v) = Ok gvrMap ->
  Run ParseGroupVersion ToLower klogV v = Returned None s ->
  let gvrs := catalog gvrMap in
  let fetched := fetchAll klogV (restMapper (DiscoveryClient v))
                          (MetadataClient v) gvrs (emptyFetch s0) in
  StronglySorted Spec.gvrLe gvrs
  /\ gvrs ≡ₚ elements gvrMap
  /\ (forall keys, keys ≡ₚ elements gvrMap -> sortSlice gvrLess keys = gvrs)
  /\ (forall i j a b,
        gvrs !! i = Some a -> gvrs !! j = Some b -> (i < j)%nat ->
        gvr_Group b = "" -> gvr_Group a = "")
  /\ emitted s
     = flat_map
         (fun gvr =>
            flat_map
              (fun child =>
                 flat_map
                   (Spec.findingsOfRef ParseGroupVersion ToLower
                                       (restMapper (DiscoveryClient v)) failures
                                       (grListErrors fetched) (byUID fetched)
                                       gvr child)
                   (OwnerReferences child))
              (map (backfill (mapper_KindFor (restMapper (DiscoveryClient v)) gvr).1)
                   (Spec.retrieved (MetadataClient v gvr))))
         gvrs.
Proof.
  intros Hout Hd Hg H gvrs fetched.
  split; [apply sortSlice_sorted|].
  split; [apply sortSlice_Permutation|].
  split; [intros keys Hk; by apply sortSlice_order_independent|].
  split.
  - intros i j a b Hi Hj Hlt Hb.
    pose proof (StronglySorted_lookup_le gvrs i j a b
                  (sortSlice_sorted _) Hi Hj Hlt) as Hle.
    unfold Spec.gvrLe, Spec.gvrCompare in Hle. rewrite Hb in Hle.
    apply string_compare_empty.
    destruct (String.compare (gvr_Group a) ""); congruence.
  - destruct (Run_completes ParseGroupVersion ToLower klogV v failures s0 gvrMap
                Hout Hd Hg) as (s1 & Hrun & V).
    rewrite Hrun in H. injection H as <-.
    destruct (summarize_spec s1) as (_ & _ & E3 & _). rewrite E3.
    destruct V as (V1 & _). rewrite V1.
    destruct (fetchAll_spec klogV (restMapper (DiscoveryClient v)) (MetadataClient v)
                (catalog gvrMap) (emptyFetch s0)) as (_ & (_ & _ & _ & _ & F5 & _) & _).
    apply discover_spec in Hd as (_ & _ & _ & _ & _ & D6 & _).
    simpl in F5. rewrite F5, D6. reflexivity.
Qed.

Lemma C6_catalog_and_finding_order_witness :
  catalog (list_to_set (map Scenarios.resourceGVR Scenarios.forbiddenTable))
  = [ Scenarios.nodes; Scenarios.pods; mkGVR "forbidden" "v1" "forbiddenresources" ]
  /\ StronglySorted Spec.gvrLe
       (catalog (list_to_set (map Scenarios.resourceGVR Scenarios.forbiddenTable))).
Proof.
  destruct (C6_catalog_and_finding_order
              Scenarios.ParseGroupVersion Scenarios.ToLower 3
              (Scenarios.forbidden "") ∅
              initialStreams
              (Scenarios.finalStreams (Scenarios.run 3 (Scenarios.forbidden "")))
              (list_to_set (map Scenarios.resourceGVR Scenarios.forbiddenTable)))
    as (Hsorted & _).
  - left. reflexivity.
  - vm_compute. reflexivity.
  - reflexivity.
  - vm_compute. reflexivity.
  - split; [vm_compute; reflexivity | exact Hsorted].
Defined.

Lemma GVK_Empty_true gvk :
  GVK_Empty gvk = true ->
  gvk_Group gvk = "" /\ gvk_Version gvk = "" /\ gvk_Kind gvk = "".
Proof.
  unfold GVK_Empty. rewrite !andb_true_iff, !isEmpty_true. tauto.
Qed.

(** C9. Every object retrieved with empty apiVersion and empty kind gets both
    fields from the kind that the mapping layer resolves for its resource
    type, before it is inserted; any other object is inserted as it is.  The
    per-type index holds the objects of a type in fetch order and the per-UID
    index holds, per UID, the same objects in fetch order. *)
Theorem C9_backfill_before_insert
        (klogV : Z) (mapper : RESTMapper) (client : GroupVersionResource -> Listing)
        (gvrMap : gset GroupVersionResource) (s0 : Streams)
        (gvr : GroupVersionResource) :
  gvr ∈ gvrMap ->
  let gvk := (mapper_KindFor mapper gvr).1 in
  let fetched := fetchAll klogV mapper client (catalog gvrMap) (emptyFetch s0) in
  (forall item,
      (APIVersion item = "" -> Kind item = "" ->
       backfill gvk item
       = mkObj (GroupVersion_String (GVK_GroupVersion gvk)) (gvk_Kind gvk)
               (Namespace item) (Name item) (UID item) (OwnerReferences item))
      /\ (APIVersion item <> "" \/ Kind item <> "" -> backfill gvk item = item))
  /\ default [] (byGVR fetched !! gvr)
     = map (backfill gvk) (Spec.retrieved (client gvr))
  /\ (forall uid,
        default [] (byUID fetched !! uid)
        = filter (fun o => UID o = uid)
                 (flat_map (fun g => map (backfill (mapper_KindFor mapper g).1)
                                         (Spec.retrieved (client g)))
                           (catalog gvrMap))).
Proof.
  intros Hin gvk fetched. split; [|split].
  - intros item. unfold backfill. split.
    + intros Ha Hk. rewrite Ha, Hk. simpl.
      destruct (GVK_Empty gvk) eqn:E; simpl; [|reflexivity].
      apply GVK_Empty_true in E as (E1 & E2 & E3).
      unfold GroupVersion_String, GVK_GroupVersion. simpl.
      rewrite E1, E2, E3. simpl.
      destruct item; simpl in *; congruence.
    + intros Hne.
      destruct (isEmpty (APIVersion item)) eqn:Ea;
        destruct (isEmpty (Kind item)) eqn:Ek; simpl; try reflexivity.
      apply isEmpty_true in Ea, Ek. tauto.
  - destruct (fetchAll_index klogV mapper client (catalog gvrMap) s0
                (catalog_NoDup gvrMap)) as [Hidx _].
    apply Hidx. by apply elem_of_catalog.
  - destruct (fetchAll_index klogV mapper client (catalog gvrMap) s0
                (catalog_NoDup gvrMap)) as [_ Hidx].
    exact Hidx.
Qed.

Lemma C9_backfill_before_insert_witness :
  byGVR (fetchAll 3 (Scenarios.tableMapper Scenarios.v1Resources)
                  (MetadataClient (Scenarios.bare ""))
                  (catalog (list_to_set (map Scenarios.resourceGVR Scenarios.v1Resources)))
                  (emptyFetch initialStreams))
    !! Scenarios.nodes
  = Some [Scenarios.node1].
Proof.
  destruct (C9_backfill_before_insert
              3 (Scenarios.tableMapper Scenarios.v1Resources)
              (MetadataClient (Scenarios.bare ""))
              (list_to_set (map Scenarios.resourceGVR Scenarios.v1Resources))
              initialStreams Scenarios.nodes)
    as (_ & Hidx & _).
  - apply (bool_decide_unpack _). vm_compute. exact I.
  - destruct (byGVR _ !! Scenarios.nodes) as [l|] eqn:E.
    + simpl in Hidx. rewrite Hidx. vm_compute. reflexivity.
    + exfalso. revert E. vm_compute. discriminate.
Defined.

(** C7, amended.  For every resource type whose listing fails, a
    list failure is recorded for the GroupResource of that type; the objects
    of the pages received before the failing request, and no others of that
    type, are inserted into the indexes (none when the first request fails);
    the scan goes on, so every resource type of the catalog has its retrieved
    objects in the two indexes; and the run returns nil. *)
Theorem C7_list_failure_is_not_fatal
        (ParseGroupVersion : string -> GroupVersion * option error)
        (ToLower : string -> string) (klogV : Z)
        (v : VerifyGCOptions) (failures : gmap GroupVersion error) (s0 : Streams)
        (gvrMap : gset GroupVersionResource)
        (gvr : GroupVersionResource) (err : error) :
  Output v = "" \/ Output v = "json" ->
  discover (DiscoveryClient v) = inr (failures, s0) ->
  GroupVersionResources (DiscoveryClient v) = Ok gvrMap ->
  gvr ∈ gvrMap ->
  Spec.listingError (MetadataClient v gvr) = Some err ->
  let mapper := restMapper (DiscoveryClient v) in
  let fetched := fetchAll klogV mapper (MetadataClient v) (catalog gvrMap)
                          (emptyFetch s0) in
  is_Some (grListErrors fetched !! GVR_GroupResource gvr)
  /\ default [] (byGVR fetched !! gvr)
     = map (backfill (mapper_KindFor mapper gvr).1)
           (Spec.retrieved (MetadataClient v gvr))
  /\ (MetadataClient v gvr = ListErr err -> default [] (byGVR fetched !! gvr) = [])
  /\ (forall other,
        other ∈ gvrMap ->
        default [] (byGVR fetched !! other)
        = map (backfill (mapper_KindFor mapper other).1)
              (Spec.retrieved (MetadataClient v other)))
  /\ (forall uid,
        default [] (byUID fetched !! uid)
        = filter (fun o => UID o = uid)
                 (flat_map (fun g => map (backfill (mapper_KindFor mapper g).1)
                                         (Spec.retrieved (MetadataClient v g)))
                           (catalog gvrMap)))
  /\ exists s, Run ParseGroupVersion ToLower klogV v = Returned None s.
Proof.
  intros Hout Hd Hg Hin Herr mapper fetched.
  destruct (fetchAll_index klogV mapper (MetadataClient v) (catalog gvrMap) s0
              (catalog_NoDup gvrMap)) as [Hidx Huid].
  fold fetched in Hidx, Huid.
  destruct (fetchAll_spec klogV mapper (MetadataClient v) (catalog gvrMap)
              (emptyFetch s0)) as (Hrec & _).
  fold fetched in Hrec.
  split; [|split; [|split; [|split; [|split]]]].
  - apply Hrec. right. exists gvr. rewrite Herr.
    split; [by apply elem_of_catalog|]. split; [reflexivity | eauto].
  - apply Hidx. by apply elem_of_catalog.
  - intros Hfirst. rewrite Hidx by (by apply elem_of_catalog).
    unfold Spec.fetchedOf. by rewrite Hfirst.
  - intros other Hother. apply Hidx. by apply elem_of_catalog.
  - exact Huid.
  - destruct (Run_completes ParseGroupVersion ToLower klogV v failures s0 gvrMap
                Hout Hd Hg) as (s1 & Hrun & _).
    eauto.
Qed.

Lemma C7_list_failure_is_not_fatal_witness :
  is_Some (grListErrors
             (fetchAll 3 (restMapper (DiscoveryClient (Scenarios.forbidden "")))
                       (MetadataClient (Scenarios.forbidden ""))
                       (catalog (list_to_set
                                   (map Scenarios.resourceGVR Scenarios.forbiddenTable)))
                       (emptyFetch initialStreams))
             !! mkGR "forbidden" "forbiddenresources")
  /\ exists s, Scenarios.run 3 (Scenarios.forbidden "") = Returned None s.
Proof.
  destruct (C7_list_failure_is_not_fatal
              Scenarios.ParseGroupVersion Scenarios.ToLower 3
              (Scenarios.forbidden "") ∅ initialStreams
              (list_to_set (map Scenarios.resourceGVR Scenarios.forbiddenTable))
              (mkGVR "forbidden" "v1" "forbiddenresources")
              "forbiddenresources is forbidden: not authorized")
    as (Hrec & _ & _ & _ & _ & Hrun).
  - left. reflexivity.
  - vm_compute. reflexivity.
  - reflexivity.
  - apply (bool_decide_unpack _). vm_compute. exact I.
  - vm_compute. reflexivity.
  - split; [exact Hrec | exact Hrun].
Defined.

(** C7, counterexample to "zero objects of that type are inserted into the
    indexes": when the listing of the pods fails on its second
    page, the list failure is recorded and the pod of the first page is in
    both indexes. *)
Lemma C7_zero_objects_counterexample :
  let v := Scenarios.expiring "" in
  let fetched :=
    fetchAll 3 (restMapper (DiscoveryClient v)) (MetadataClient v)
             (catalog (list_to_set (map Scenarios.resourceGVR Scenarios.v1Resources)))
             (emptyFetch initialStreams) in
  Spec.listingError (MetadataClient v Scenarios.pods)
  = Some "The provided continue parameter is too old"
  /\ grListErrors fetched !! mkGR "" "pods"
     = Some "The provided continue parameter is too old"
  /\ byGVR fetched !! Scenarios.pods
     = Some [Scenarios.pod1 [mkOwnerRef "v1" "Node" "node1" "node1uid"]]
  /\ byUID fetched !! "poduid1"
     = Some [Scenarios.pod1 [mkOwnerRef "v1" "Node" "node1" "node1uid"]]
  /\ default [] (byGVR fetched !! Scenarios.pods) <> [].
Proof.
  repeat split; try (vm_compute; reflexivity). vm_compute. discriminate.
Qed.

Lemma filter_key_unique {A : Type} (l : list (GroupVersion * A)) k x :
  NoDup l.*1 -> (k, x) ∈ l -> filter (fun entry => entry.1 = k) l = [(k, x)].
Proof.
  induction l as [|[k' x'] l IH]; intros Hnd Hin; [by apply elem_of_nil in Hin|].
  simpl in Hnd. apply NoDup_cons in Hnd as [Hk Hnd].
  assert (Hnone : k' ∉ l.*1 ->
            filter (fun entry : GroupVersion * A => entry.1 = k') l = []).
  { clear. induction l as [|[k0 x0] l IHl]; intros H; [done|].
    simpl in H. apply not_elem_of_cons in H as [Hne H].
    rewrite filter_cons_False by (simpl; congruence). by apply IHl. }
  apply elem_of_cons in Hin as [Heq|Hin].
  - injection Heq as -> ->. rewrite filter_cons_True by done.
    by rewrite (Hnone Hk).
  - rewrite filter_cons_False; [by apply IH|].
    simpl. intros ->. apply Hk. by apply (list_elem_of_fmap_2 fst) in Hin.
Qed.

(** C10. When the same group/version is in the failure sets of both discovery
    calls, the run writes exactly one "could not discover resources" notice
    for it and counts one warning for it: after the two calls stderr holds one
    notice per entry of a list in which the group/version occurs once, the
    warning counter has been incremented once per entry of that list, the
    recorded error is the one of the first call, and nothing written later in
    the run is such a notice. *)
Theorem C10_discovery_failure_noticed_once
        (ParseGroupVersion : string -> GroupVersion * option error)
        (ToLower : string -> string) (klogV : Z)
        (v : VerifyGCOptions) (G1 G2 : gmap GroupVersion error)
        (gv : GroupVersion) (e1 e2 : error) :
  GetAPIGroupResources_err (DiscoveryClient v) = ErrGroupDiscoveryFailed G1 ->
  ServerPreferredResources_err (DiscoveryClient v) = ErrGroupDiscoveryFailed G2 ->
  G1 !! gv = Some e1 ->
  G2 !! gv = Some e2 ->
  let noticed := Spec.noticed (DiscoveryClient v) in
  exists failures s0,
    discover (DiscoveryClient v) = inr (failures, s0)
    /\ failures !! gv = Some e1
    /\ Stderr s0 = map Spec.discoveryNotice noticed
    /\ warningCount s0 = Spec.bump (length noticed) 0
    /\ (Spec.fitsInt v -> warningCount s0 = Z.of_nat (length noticed))
    /\ filter (fun entry => entry.1 = gv) noticed = [(gv, e1)]
    /\ forall s,
        Run ParseGroupVersion ToLower klogV v = Returned None s ->
        exists rest,
          Stderr s = map Spec.discoveryNotice noticed ++ rest
          /\ Forall (fun line => Spec.isDiscoveryNotice line = false) rest.
Proof.
  intros H1 H2 Hgv1 Hgv2 noticed.
  destruct (discover (DiscoveryClient v)) as [[e s]|[failures s0]] eqn:Hd.
  { exfalso. unfold discover in Hd. rewrite H1, H2 in Hd. simpl in Hd.
    destruct (tolerateDiscoveryFailure _ _); discriminate. }
  exists failures, s0. split; [reflexivity|].
  destruct (discover_spec _ _ _ Hd) as (D0 & D1 & D2 & D3 & D4 & D5 & D6).
  assert (Hlen : length noticed = size (Spec.recordedDiscoveryFailures (DiscoveryClient v))).
  { subst noticed. rewrite (Permutation_length (noticed_Permutation _)).
    apply length_map_to_list. }
  split.
  { rewrite D0. unfold Spec.recordedDiscoveryFailures. rewrite H1, H2. simpl.
    rewrite lookup_union_l' by eauto. exact Hgv1. }
  split; [exact D6|]. split; [by rewrite Hlen|]. split.
  { intros Hfit. rewrite D2, <- Hlen. unfold Spec.fitsInt, Spec.load in Hfit.
    rewrite bump_exact by lia. lia. }
  split.
  { apply filter_key_unique.
    - subst noticed. rewrite (noticed_Permutation _). apply NoDup_fst_map_to_list.
    - subst noticed. unfold Spec.noticed. rewrite H1. simpl.
      apply elem_of_app. left. by apply elem_of_map_to_list. }
  intros s Hrun.
  apply Run_returned in Hrun as (failures' & s0' & gvrMap & s1 & Hd' & Hg & Hv & ->).
  rewrite Hd in Hd'. injection Hd' as <- <-.
  apply validateAll_frame in Hv as (V1 & _).
  destruct (fetchAll_spec klogV (restMapper (DiscoveryClient v)) (MetadataClient v)
              (catalog gvrMap) (emptyFetch s0))
    as (_ & (_ & _ & _ & _ & _ & lines & F6 & F7) & _).
  simpl in F6.
  destruct (summarize_spec s1) as (_ & _ & _ & _ & line & L1 & L2 & _).
  exists (lines ++ [line]). split.
  - rewrite L1, V1, F6, D6. by rewrite app_assoc.
  - apply Forall_app. split; [exact F7|]. by constructor.
Qed.

Lemma C10_discovery_failure_noticed_once_witness :
  exists failures s0,
    discover (DiscoveryClient (Scenarios.partialDiscovery "")) = inr (failures, s0)
    /\ failures !! Scenarios.metrics
       = Some "the server is currently unable to handle the request"
    /\ warningCount s0 = 1.
Proof.
  destruct (C10_discovery_failure_noticed_once
              Scenarios.ParseGroupVersion Scenarios.ToLower 3
              (Scenarios.partialDiscovery "")
              {[ Scenarios.metrics := "the server is currently unable to handle the request" ]}
              {[ Scenarios.metrics := "service unavailable" ]}
              Scenarios.metrics
              "the server is currently unable to handle the request"
              "service unavailable")
    as (failures & s0 & Hd & Hf & _ & _ & Hw & _).
  - reflexivity.
  - reflexivity.
  - vm_compute. reflexivity.
  - vm_compute. reflexivity.
  - exists failures, s0. split; [exact Hd|]. split; [exact Hf|].
    rewrite Hw; vm_compute; reflexivity.
Defined.

(** ** What stdout shows of the findings *)

Lemma writes_app out1 out2 :
  Spec.writes (out1 ++ out2) = Spec.writes out1 ++ Spec.writes out2.
Proof. unfold Spec.writes. apply List.filter_app. Qed.

Lemma report_tabularSinkOk gvr child ownerRef v s :
  Spec.tabularSinkOk s ->
  Spec.tabularSinkOk (Spec.report tabularRefMessage gvr child ownerRef v s).
Proof.
  intros [Hw Hi]. destruct v as [[level msg]|]; [|by split].
  unfold Spec.tabularSinkOk, Spec.report, tabularRefMessage.
  destruct (String.eqb level levelError); simpl;
    destruct (initialized s) eqn:E; simpl; rewrite ?E.
  all: split; [|split; [discriminate | by intros []%app_eq_nil]].
  all: rewrite <- ?app_assoc, writes_app, Hw.
  all: destruct (emitted s) as [|f fs] eqn:Ef;
    [ try (destruct Hi as [_ Hi]; discriminate (Hi eq_refl))
    | try (destruct Hi as [Hi _]; discriminate (Hi eq_refl)) ].
  all: simpl; by rewrite ?map_app.
Qed.

Lemma report_jsonSinkOk gvr child ownerRef v s :
  Spec.jsonSinkOk s ->
  Spec.jsonSinkOk (Spec.report jsonRefMessage gvr child ownerRef v s).
Proof.
  intros Hw. destruct v as [[level msg]|]; [|exact Hw].
  unfold Spec.jsonSinkOk, Spec.report, jsonRefMessage in *. simpl.
  by rewrite writes_app, Hw, map_app.
Qed.

Section SinkInvariant.

Variable ParseGroupVersion : string -> GroupVersion * option error.
Variable ToLower : string -> string.
Variable klogV : Z.
Variable sink : refMessageFn.
Variable I : Streams -> Prop.
Hypothesis report_ok :
  forall gvr child ownerRef v s, I s -> I (Spec.report sink gvr child ownerRef v s).
Hypothesis flush_ok : forall s, I s -> I (toStdout TabFlush s).

(** A property of the streams that reporting and flushing keep holds
    throughout the validation. *)
Lemma validateAll_invariant mapper failures listErrs byGVR' byUID' gvrs s s' :
  validateAll ParseGroupVersion ToLower mapper failures listErrs byGVR' byUID'
              (Some sink) gvrs s = Some s' ->
  I s -> I s'.
Proof.
  unfold validateAll.
  apply (forEach_frame (fun s s' => I s -> I s')); [auto | auto |].
  intros gvr s0 s0'. unfold validateResource.
  destruct (forEach _ _ s0) as [s1|] eqn:E1; [|discriminate].
  intros H. injection H as <-. intros H0. apply flush_ok. revert H0. revert E1.
  apply (forEach_frame (fun s s' => I s -> I s')); [auto | auto |].
  intros child t t'. unfold validateChild.
  apply (forEach_frame (fun s s' => I s -> I s')); [auto | auto |].
  intros ownerRef u u'. rewrite validateOwnerRef_verdict.
  intros H. injection H as <-. apply report_ok.
Qed.

End SinkInvariant.

(** In tabular mode the writes to the tab writer are the header, once and
    only when there is a finding, and one row per finding in the order of
    emission; in JSON mode they are one record per finding. *)
Lemma Run_Stdout ParseGroupVersion ToLower klogV v s :
  Run ParseGroupVersion ToLower klogV v = Returned None s ->
  (Output v = "" -> Spec.writes (Stdout s) = Spec.table (emitted s))
  /\ (Output v = "json" ->
      Spec.writes (Stdout s)
      = map (fun f => JsonEncode (Spec.record f)) (emitted s)).
Proof.
  intros H.
  apply Run_returned in H as (failures & s0 & gvrMap & s1 & Hd & Hg & Hv & ->).
  apply discover_spec in Hd as (_ & _ & _ & D3 & D4 & D5 & _).
  destruct (fetchAll_spec klogV (restMapper (DiscoveryClient v)) (MetadataClient v)
              (catalog gvrMap) (emptyFetch s0)) as (_ & (_ & _ & F3 & F4 & F5 & _) & _).
  simpl in F3, F4, F5. rewrite D3 in F3. rewrite D4 in F4. rewrite D5 in F5.
  destruct (summarize_spec s1) as (_ & _ & E3 & E4 & _). rewrite E3, E4.
  split; intros Hout; rewrite Hout in Hv; simpl in Hv.
  - apply (validateAll_invariant ParseGroupVersion ToLower tabularRefMessage
             Spec.tabularSinkOk) in Hv.
    + apply Hv.
    + intros. by apply report_tabularSinkOk.
    + intros s2 [Hw Hi]. split; [|exact Hi].
      simpl. by rewrite writes_app, app_nil_r.
    + split; [by rewrite F4, F5 | by rewrite F3, F5].
  - apply (validateAll_invariant ParseGroupVersion ToLower jsonRefMessage
             Spec.jsonSinkOk) in Hv.
    + apply Hv.
    + intros. by apply report_jsonSinkOk.
    + intros s2 Hw. unfold Spec.jsonSinkOk in *.
      simpl. by rewrite writes_app, app_nil_r.
    + unfold Spec.jsonSinkOk. by rewrite F4, F5.
Qed.

(** ** The expectations of verify_test.go, at verbosity 3 *)

Example test_simple :
  exists s,
    Scenarios.run 3 (Scenarios.simple "") = Returned None s
    /\ Spec.writes (Stdout s) = []
    /\ Stderr s
       = Scenarios.lines
           [ "fetching v1, nodes"; "got 1 item"; "fetching v1, pods"; "got 1 item";
             "No invalid ownerReferences found" ].
Proof. eexists. split; [vm_compute; reflexivity|]. split; vm_compute; reflexivity. Qed.

Example test_forbidden :
  exists s,
    Scenarios.run 3 (Scenarios.forbidden "") = Returned None s
    /\ Spec.writes (Stdout s)
       = [ Scenarios.headerRow;
           Scenarios.cells
             [ ""; "pods"; "ns1"; "pod1"; "forbiddenparentuid"; "Warning";
               "could not list parent resource forbiddenresources.forbidden" ] ]
    /\ Stderr s
       = Scenarios.lines
           [ "fetching v1, nodes"; "got 1 item"; "fetching v1, pods"; "got 1 item";
             "fetching forbidden/v1, forbiddenresources";
             "warning: could not list forbidden/v1, Resource=forbiddenresources: forbiddenresources is forbidden: not authorized";
             "0 errors, 2 warnings" ].
Proof. eexists. split; [vm_compute; reflexivity|]. split; vm_compute; reflexivity. Qed.

Example test_unavailable :
  exists s,
    Scenarios.run 3 (Scenarios.unavailable "") = Returned None s
    /\ Spec.writes (Stdout s)
       = [ Scenarios.headerRow;
           Scenarios.cells
             [ ""; "pods"; "ns1"; "pod1"; "unavailableparentuid"; "Warning";
               "could not list parent resource unavailableresources.unavailable" ] ]
    /\ Stderr s
       = Scenarios.lines
           [ "fetching v1, nodes"; "got 1 item"; "fetching v1, pods"; "got 1 item";
             "fetching unavailable/v1, unavailableresources";
             "warning: could not list unavailable/v1, Resource=unavailableresources: server is unavailable";
             "0 errors, 2 warnings" ].
Proof. eexists. split; [vm_compute; reflexivity|]. split; vm_compute; reflexivity. Qed.

Example test_unavailable_version :
  exists s,
    Scenarios.run 3 (Scenarios.unavailableVersion "") = Returned None s
    /\ Spec.writes (Stdout s)
       = [ Scenarios.headerRow;
           Scenarios.cells
             [ ""; "pods"; "ns1"; "pod1"; "node1uid"; "Error";
               "cannot resolve owner apiVersion/kind: no matches for kind "
                 +:+ quote +:+ "Node" +:+ quote +:+ " in version "
                 +:+ quote +:+ "v2" +:+ quote ] ]
    /\ Stderr s
       = Scenarios.lines
           [ "fetching v1, nodes"; "got 1 item"; "fetching v1, pods"; "got 1 item";
             "1 error, 0 warnings" ].
Proof. eexists. split; [vm_compute; reflexivity|]. split; vm_compute; reflexivity. Qed.

Example test_mismatched_name :
  exists s,
    Scenarios.run 3 (Scenarios.mismatchedName "") = Returned None s
    /\ Spec.writes (Stdout s)
       = [ Scenarios.headerRow;
           Scenarios.cells
             [ ""; "pods"; "ns1"; "pod1"; "node1uid"; "Error";
               "ownerReference name (nodex) does not match owner name (node1)" ] ]
    /\ Stderr s
       = Scenarios.lines
           [ "fetching v1, nodes"; "got 1 item"; "fetching v1, pods"; "got 1 item";
             "1 error, 0 warnings" ].
Proof. eexists. split; [vm_compute; reflexivity|]. split; vm_compute; reflexivity. Qed.

Example test_mismatched_kind :
  exists s,
    Scenarios.run 3 (Scenarios.mismatchedKind "") = Returned None s
    /\ Spec.writes (Stdout s)
       = [ Scenarios.headerRow;
           Scenarios.cells
             [ ""; "pods"; "ns1"; "pod1"; "node1uid"; "Error";
               "ownerReference group/kind (/Pod) does not match owner group/kind (/Node)" ] ]
    /\ Stderr s
       = Scenarios.lines
           [ "fetching v1, nodes"; "got 1 item"; "fetching v1, pods"; "got 1 item";
             "1 error, 0 warnings" ].
Proof. eexists. split; [vm_compute; reflexivity|]. split; vm_compute; reflexivity. Qed.

Example test_cluster_child_namespaced_owner :
  exists s,
    Scenarios.run 3 (Scenarios.clusterChild "") = Returned None s
    /\ Spec.writes (Stdout s)
       = [ Scenarios.headerRow;
           Scenarios.cells
             [ ""; "nodes"; ""; "node1"; "poduid1"; "Error";
               "cannot reference namespaced type as owner (apiVersion=v1,kind=Pod)" ] ]
    /\ Stderr s
       = Scenarios.lines
           [ "fetching v1, nodes"; "got 1 item"; "fetching v1, pods"; "got 1 item";
             "1 error, 0 warnings" ].
Proof. eexists. split; [vm_compute; reflexivity|]. split; vm_compute; reflexivity. Qed.

Example test_mismatched_namespace :
  exists s,
    Scenarios.run 3 (Scenarios.mismatchedNamespace "") = Returned None s
    /\ Spec.writes (Stdout s)
       = [ Scenarios.headerRow;
           Scenarios.cells
             [ ""; "pods"; "ns2"; "pod2"; "poduid1"; "Error";
               "child namespace does not match owner namespace (ns1)" ] ]
    /\ Stderr s
       = Scenarios.lines
           [ "fetching v1, nodes"; "got 0 items"; "fetching v1, pods"; "got 2 items";
             "1 error, 0 warnings" ].
Proof. eexists. split; [vm_compute; reflexivity|]. split; vm_compute; reflexivity. Qed.

Example test_multigroup_object :
  exists s,
    Scenarios.run 3 (Scenarios.multigroup "") = Returned None s
    /\ Spec.writes (Stdout s) = []
    /\ Stderr s
       = Scenarios.lines
           [ "fetching v1, nodes"; "got 0 items"; "fetching v1, pods"; "got 1 item";
             "fetching group1/v1, multigroupresources"; "got 1 item";
             "fetching group2/v1beta1, multigroupresources"; "got 1 item";
             "No invalid ownerReferences found" ].
Proof. eexists. split; [vm_compute; reflexivity|]. split; vm_compute; reflexivity. Qed.

Example test_non_preferred_version :
  exists s,
    Scenarios.run 3 (Scenarios.nonPreferred "") = Returned None s
    /\ Spec.writes (Stdout s) = []
    /\ Stderr s
       = Scenarios.lines
           [ "fetching v1, nodes"; "got 0 items"; "fetching v1, pods"; "got 1 item";
             "fetching group1/v1, multiversionresources"; "got 1 item";
             "No invalid ownerReferences found" ].
Proof. eexists. split; [vm_compute; reflexivity|]. split; vm_compute; reflexivity. Qed.

(** Without a sink, a run with a finding panics on the call of the nil
    function; a run without findings returns. *)
Example run_without_sink :
  Scenarios.run 3 (Scenarios.mismatchedName "yaml") = Panicked
  /\ exists s, Scenarios.run 3 (Scenarios.simple "yaml") = Returned None s.
Proof. split; [vm_compute; reflexivity | eexists; vm_compute; reflexivity]. Qed.

(** strings.ToLower is applied to the kind of the candidate, never to the
    kind of the owner reference: a candidate of kind Node satisfies a
    reference to kind node, a candidate of kind node does not satisfy a
    reference to kind Node. *)
Example lowercase_kind_on_the_candidate_side_only :
  Spec.kindGroupAspect Scenarios.ParseGroupVersion Scenarios.ToLower
                       (mkOwnerRef "v1" "node" "node1" "node1uid") Scenarios.node1
  = true
  /\ Spec.kindGroupAspect Scenarios.ParseGroupVersion Scenarios.ToLower
                          (mkOwnerRef "v1" "Node" "node1" "node1uid")
                          (mkObj "v1" "node" "" "node1" "node1uid" [])
     = false.
Proof. split; vm_compute; reflexivity. Qed.

(** * Further properties of the code *)

(** ** When Run returns an error *)

Lemma discoveryNotice_is_notice entry :
  Spec.isDiscoveryNotice (Spec.discoveryNotice entry) = true.
Proof. reflexivity. Qed.

(** A discovery pass that does not return leaves the counters of findings
    and stdout alone, and writes notices only. *)
Lemma discoveryPass_streams err m s st' :
  discoveryPass err (m, s) = inr st' ->
  errorCount st'.2 = errorCount s
  /\ Stdout st'.2 = Stdout s
  /\ emitted st'.2 = emitted s
  /\ exists fresh, Stderr st'.2 = Stderr s ++ map Spec.discoveryNotice fresh.
Proof.
  intros H. pose proof (discoveryPass_spec err m s) as HS. rewrite H in HS.
  destruct HS as [-> _].
  destruct (tolerateDiscoveryFailure_spec (map_to_list (Spec.groupsOf err)) m s
              (NoDup_fst_map_to_list _)) as (_ & A1 & _ & _ & A4 & A5 & A6).
  eauto.
Qed.

Lemma discover_failed d err s :
  discover d = inl (err, s) ->
  (GetAPIGroupResources_err d = OtherError err
   \/ ServerPreferredResources_err d = OtherError err)
  /\ errorCount s = 0 /\ Stdout s = [] /\ emitted s = []
  /\ Forall (fun line => Spec.isDiscoveryNotice line = true) (Stderr s).
Proof.
  unfold discover.
  destruct (discoveryPass (GetAPIGroupResources_err d) (∅, initialStreams))
    as [e1|st1] eqn:E1.
  - intros H. injection H as <- <-.
    pose proof (discoveryPass_spec (GetAPIGroupResources_err d) ∅ initialStreams) as H1.
    rewrite E1 in H1. split; [by left|]. repeat split. constructor.
  - destruct (discoveryPass (ServerPreferredResources_err d) st1) as [e2|st2] eqn:E2;
      [|discriminate].
    intros H. injection H as <- <-.
    destruct st1 as [m1 s1].
    pose proof (discoveryPass_spec (ServerPreferredResources_err d) m1 s1) as H2.
    rewrite E2 in H2. split; [by right|].
    apply discoveryPass_streams in E1 as (A1 & A2 & A3 & fresh & A4).
    simpl in *. rewrite A1, A2, A3, A4. repeat split.
    apply Forall_forall. intros line Hin. apply list_elem_of_fmap in Hin as (e & -> & _).
    apply discoveryNotice_is_notice.
Qed.

Lemma discover_fails_iff d :
  (exists err s, discover d = inl (err, s))
  <-> (exists e, GetAPIGroupResources_err d = OtherError e)
      \/ (exists e, ServerPreferredResources_err d = OtherError e).
Proof.
  split.
  - intros (err & s & H). apply discover_failed in H as [[H|H] _]; eauto.
  - unfold discover. intros [[e H]|[e H]].
    + rewrite H. simpl. eauto.
    + destruct (discoveryPass (GetAPIGroupResources_err d) (∅, initialStreams));
        [eauto|].
      rewrite H. simpl. eauto.
Qed.

(** X1. Run returns an error exactly when one of the two discovery calls
    fails with an error that is not a partial discovery failure, or when the
    preferred resources cannot be turned into resource types.  When it returns
    an error, that error is the one of the failed call, no finding has been
    emitted or counted, nothing has been written to stdout, and stderr holds
    discovery notices only (no summary line).  In every other case, with the
    output format '' or 'json', Run returns nil, whatever the listings answer
    and whatever is found. *)
Theorem Run_fails_only_on_discovery
        (ParseGroupVersion : string -> GroupVersion * option error)
        (ToLower : string -> string) (klogV : Z) (v : VerifyGCOptions) :
  let d := DiscoveryClient v in
  ((exists err s, Run ParseGroupVersion ToLower klogV v = Returned (Some err) s)
   <-> (exists e, GetAPIGroupResources_err d = OtherError e)
       \/ (exists e, ServerPreferredResources_err d = OtherError e)
       \/ (exists e, GroupVersionResources d = Err e))
  /\ (forall err s,
        Run ParseGroupVersion ToLower klogV v = Returned (Some err) s ->
        (GetAPIGroupResources_err d = OtherError err
         \/ ServerPreferredResources_err d = OtherError err
         \/ GroupVersionResources d = Err err)
        /\ errorCount s = 0 /\ Stdout s = [] /\ emitted s = []
        /\ Forall (fun line => Spec.isDiscoveryNotice line = true) (Stderr s))
  /\ (Output v = "" \/ Output v = "json" ->
      (forall e, GetAPIGroupResources_err d <> OtherError e) ->
      (forall e, ServerPreferredResources_err d <> OtherError e) ->
      (forall e, GroupVersionResources d <> Err e) ->
      exists s, Run ParseGroupVersion ToLower klogV v = Returned None s).
Proof.
  intros d.
  assert (Hwhat : forall err s,
             Run ParseGroupVersion ToLower klogV v = Returned (Some err) s ->
             (GetAPIGroupResources_err d = OtherError err
              \/ ServerPreferredResources_err d = OtherError err
              \/ GroupVersionResources d = Err err)
             /\ errorCount s = 0 /\ Stdout s = [] /\ emitted s = []
             /\ Forall (fun line => Spec.isDiscoveryNotice line = true) (Stderr s)).
  { intros err s. unfold Run. fold d.
    destruct (discover d) as [[e s0]|[failures s0]] eqn:Hd.
    - intros H. injection H as <- <-.
      apply discover_failed in Hd as ([H|H] & H'); (split; [tauto | exact H']).
    - destruct (GroupVersionResources d) as [gvrMap|e] eqn:Hg.
      + destruct (validateAll _ _ _ _ _ _ _ _ _ _); discriminate.
      + intros H. injection H as <- <-.
        apply discover_spec in Hd as (_ & D1 & _ & _ & D4 & D5 & D6).
        split; [tauto|]. rewrite D1, D4, D5, D6. repeat split.
        apply Forall_forall. intros line Hin.
        apply list_elem_of_fmap in Hin as (entry & -> & _).
        apply discoveryNotice_is_notice. }
  split; [|split; [exact Hwhat|]].
  - split.
    + intros (err & s & H). apply Hwhat in H as ([H|[H|H]] & _); eauto.
    + intros H. unfold Run. fold d.
      destruct (discover d) as [[e s0]|[failures s0]] eqn:Hd; [eauto|].
      destruct H as [H|[H|[e H]]].
      * assert (exists err s, discover d = inl (err, s)) as (err & s & Hd')
            by (apply discover_fails_iff; by left).
        congruence.
      * assert (exists err s, discover d = inl (err, s)) as (err & s & Hd')
            by (apply discover_fails_iff; by right).
        congruence.
      * rewrite H. eauto.
  - intros Hout H1 H2 H3.
    destruct (discover d) as [[e s0]|[failures s0]] eqn:Hd.
    + exfalso.
      assert (Hex : exists err s', discover d = inl (err, s')) by eauto.
      apply discover_fails_iff in Hex as [[e' He]|[e' He]];
        [by apply (H1 e') | by apply (H2 e')].
    + destruct (GroupVersionResources d) as [gvrMap|e] eqn:Hg;
        [|exfalso; by apply (H3 e)].
      destruct (Run_completes ParseGroupVersion ToLower klogV v failures s0 gvrMap
                  Hout Hd Hg) as (s1 & H & _).
      eauto.
Qed.

(** ** The recorded failures *)

(** X2. When discovery is not fatal, a group/version is recorded as failed
    exactly when one of the two discovery calls reports it, with the error of
    the first call when both do; stderr holds one notice per recorded failure,
    with the recorded error, and the warning counter has been incremented
    once per recorded failure. *)
Theorem discovery_failures_recorded
        (d : DiscoveryInterface) (failures : gmap GroupVersion error) (s0 : Streams) :
  discover d = inr (failures, s0) ->
  (forall gv,
      failures !! gv
      = match Spec.groupsOf (GetAPIGroupResources_err d) !! gv with
        | Some e => Some e
        | None => Spec.groupsOf (ServerPreferredResources_err d) !! gv
        end)
  /\ Stderr s0 ≡ₚ map Spec.discoveryNotice (map_to_list failures)
  /\ warningCount s0 = Spec.bump (size failures) 0
  /\ errorCount s0 = 0 /\ Stdout s0 = [].
Proof.
  intros H. apply discover_spec in H as (-> & D1 & D2 & _ & D4 & _ & D6).
  split; [|split; [|split; [exact D2 | split; [exact D1 | exact D4]]]].
  - intros gv. unfold Spec.recordedDiscoveryFailures. rewrite lookup_union.
    destruct (Spec.groupsOf (GetAPIGroupResources_err d) !! gv),
      (Spec.groupsOf (ServerPreferredResources_err d) !! gv); reflexivity.
  - rewrite D6. apply Permutation_map. apply noticed_Permutation.
Qed.

Lemma discovery_failures_recorded_witness :
  exists failures s0,
    discover (DiscoveryClient (Scenarios.partialDiscovery "")) = inr (failures, s0)
    /\ failures !! Scenarios.metrics
       = Some "the server is currently unable to handle the request"
    /\ failures !! mkGV "apps" "v1" = None.
Proof.
  assert (Hr : match discover (DiscoveryClient (Scenarios.partialDiscovery "")) with
               | inr _ => True
               | inl _ => False
               end) by (vm_compute; exact I).
  revert Hr.
  destruct (discover (DiscoveryClient (Scenarios.partialDiscovery "")))
    as [[e s]|[failures s0]] eqn:Hd; intros Hr; [destruct Hr|].
  exists failures, s0. split; [reflexivity|].
  destruct (discovery_failures_recorded _ _ _ Hd) as (H1 & _).
  split; rewrite H1; vm_compute; reflexivity.
Defined.

Section FetchedFacts.

Variable klogV : Z.
Variable mapper : RESTMapper.
Variable client : GroupVersionResource -> Listing.

Lemma lastFailure_cons gvr gvrs gr :
  Spec.lastFailure client (gvr :: gvrs) gr
  = match Spec.lastFailure client gvrs gr with
    | Some e => Some e
    | None => if decide (GVR_GroupResource gvr = gr)
              then Spec.listingError (client gvr) else None
    end.
Proof.
  unfold Spec.lastFailure. simpl.
  destruct (decide (GVR_GroupResource gvr = gr)); simpl.
  - destruct (Spec.listingError (client gvr)) as [err|]; simpl.
    + rewrite last_cons. by destruct (last _).
    + by destruct (last _).
  - by destruct (last _).
Qed.

Lemma fetchAll_grListErrors gvrs st gr :
  grListErrors (fetchAll klogV mapper client gvrs st) !! gr
  = match Spec.lastFailure client gvrs gr with
    | Some e => Some e
    | None => grListErrors st !! gr
    end.
Proof.
  unfold fetchAll.
  revert st. induction gvrs as [|gvr gvrs IH]; intros st; [reflexivity|].
  simpl. rewrite IH, lastFailure_cons.
  destruct (Spec.lastFailure client gvrs gr); [reflexivity|].
  destruct (fetchResource_spec klogV mapper client gvr st) as (R1 & _).
  rewrite R1.
  destruct (decide (GVR_GroupResource gvr = gr)) as [<-|Hne].
  - destruct (Spec.listingError (client gvr)); [by rewrite lookup_insert_eq | reflexivity].
  - destruct (Spec.listingError (client gvr)); [by rewrite lookup_insert_ne | reflexivity].
Qed.

End FetchedFacts.

(** X3. After the fetch loop a group and resource has a recorded list
    failure exactly when the listing of one of its resource types (of any
    version) ended in an error, and the recorded error is that of the last
    such listing in catalog order; a failure is never recorded for a group and
    resource whose listings all succeeded. *)
Theorem list_failures_recorded
        (klogV : Z) (mapper : RESTMapper) (client : GroupVersionResource -> Listing)
        (gvrMap : gset GroupVersionResource) (s0 : Streams) (gr : GroupResource) :
  let fetched := fetchAll klogV mapper client (catalog gvrMap) (emptyFetch s0) in
  grListErrors fetched !! gr = Spec.lastFailure client (catalog gvrMap) gr
  /\ (grListErrors fetched !! gr = None
      <-> forall gvr, gvr ∈ gvrMap -> GVR_GroupResource gvr = gr ->
                      Spec.listingError (client gvr) = None).
Proof.
  intros fetched.
  assert (H : grListErrors fetched !! gr = Spec.lastFailure client (catalog gvrMap) gr).
  { subst fetched. rewrite fetchAll_grListErrors. simpl. rewrite lookup_empty.
    by destruct (Spec.lastFailure _ _ _). }
  split; [exact H|].
  destruct (fetchAll_spec klogV mapper client (catalog gvrMap) (emptyFetch s0))
    as (F & _).
  fold fetched in F. specialize (F gr). simpl in F. rewrite lookup_empty in F.
  split.
  - intros Hn gvr Hin Hgr.
    destruct (Spec.listingError (client gvr)) as [e|] eqn:E; [|reflexivity].
    exfalso. assert (Hs : is_Some (grListErrors fetched !! gr)).
    { apply F. right. exists gvr. rewrite E. rewrite elem_of_catalog. eauto. }
    rewrite Hn in Hs. by destruct Hs.
  - intros Hall. apply eq_None_not_Some. intros Hs. apply F in Hs as [Hs|Hs].
    + by destruct Hs.
    + destruct Hs as (gvr & Hin & Hgr & Hsome). apply elem_of_catalog in Hin.
      rewrite (Hall gvr Hin Hgr) in Hsome. by destruct Hsome.
Qed.

Lemma elem_of_flat_map {A B : Type} (f : A -> list B) (l : list A) (y : B) :
  y ∈ flat_map f l <-> exists x, x ∈ l /\ y ∈ f x.
Proof.
  rewrite list_elem_of_In, in_flat_map. split.
  - intros (x & H1 & H2). exists x. by rewrite !list_elem_of_In.
  - intros (x & H1 & H2). exists x. by rewrite <- !list_elem_of_In.
Qed.

Lemma flat_map_select_none {B : Type} (F : GroupVersionResource -> list B)
      (g : GroupVersionResource) (gvrs : list GroupVersionResource) :
  g ∉ gvrs ->
  flat_map (fun gvr => if decide (gvr = g) then F gvr else []) gvrs = [].
Proof.
  induction gvrs as [|x l IH]; [reflexivity|].
  intros Hc. apply not_elem_of_cons in Hc as [Hx Hl]. simpl.
  destruct (decide (x = g)); [congruence|]. simpl. by apply IH.
Qed.

Lemma indexes_agree_aux klogV mapper client gvrMap s0 g o :
  o ∈ default [] (byGVR (fetchAll klogV mapper client (catalog gvrMap) (emptyFetch s0))
                    !! g) ->
  g ∈ gvrMap /\ o ∈ Spec.fetchedOf mapper client g.
Proof.
  intros Ho.
  destruct (decide (g ∈ gvrMap)) as [Hg|Hg].
  - split; [exact Hg|].
    destruct (fetchAll_index klogV mapper client (catalog gvrMap) s0
                (catalog_NoDup gvrMap)) as [HG _].
    rewrite HG in Ho by (by apply elem_of_catalog). exact Ho.
  - exfalso.
    destruct (fetchAll_spec klogV mapper client (catalog gvrMap) (emptyFetch s0))
      as (_ & _ & H3 & _).
    rewrite H3 in Ho. simpl in Ho. rewrite lookup_empty in Ho. simpl in Ho.
    rewrite flat_map_select_none in Ho by (by rewrite elem_of_catalog).
    by apply not_elem_of_nil in Ho.
Qed.

(** X4. The two indexes agree after the fetch loop: an object is found under
    a UID exactly when it has that UID and is listed under one of the
    enumerated resource types, and nothing is listed under a resource type
    that was not enumerated. *)
Theorem indexes_agree
        (klogV : Z) (mapper : RESTMapper) (client : GroupVersionResource -> Listing)
        (gvrMap : gset GroupVersionResource) (s0 : Streams) :
  let fetched := fetchAll klogV mapper client (catalog gvrMap) (emptyFetch s0) in
  (forall u o,
      o ∈ default [] (byUID fetched !! u)
      <-> UID o = u
          /\ exists g, g ∈ gvrMap /\ o ∈ default [] (byGVR fetched !! g))
  /\ (forall g o,
        o ∈ default [] (byGVR fetched !! g) ->
        g ∈ gvrMap /\ o ∈ default [] (byUID fetched !! UID o)).
Proof.
  intros fetched.
  destruct (fetchAll_index klogV mapper client (catalog gvrMap) s0
              (catalog_NoDup gvrMap)) as [HG HU].
  fold fetched in HG, HU.
  assert (Hout : forall g, g ∉ gvrMap -> default [] (byGVR fetched !! g) = []).
  { intros g Hg.
    destruct (fetchAll_spec klogV mapper client (catalog gvrMap) (emptyFetch s0))
      as (_ & _ & H3 & _).
    fold fetched in H3. rewrite H3. simpl. rewrite lookup_empty. simpl.
    apply flat_map_select_none. by rewrite elem_of_catalog. }
  assert (HUid : forall u o,
             o ∈ default [] (byUID fetched !! u)
             <-> UID o = u
                 /\ exists g, g ∈ gvrMap /\ o ∈ default [] (byGVR fetched !! g)).
  { intros u o. rewrite HU, list_elem_of_filter, elem_of_flat_map.
    split; intros [Hu (g & Hg & Ho)]; (split; [exact Hu|]); exists g.
    - rewrite HG by exact Hg. split; [by apply elem_of_catalog | exact Ho].
    - rewrite HG in Ho by (by apply elem_of_catalog).
      split; [by apply elem_of_catalog | exact Ho]. }
  split; [exact HUid|].
  intros g o Ho.
  destruct (decide (g ∈ gvrMap)) as [Hg|Hg].
  - split; [exact Hg|]. apply HUid. split; [reflexivity|]. eauto.
  - rewrite (Hout g Hg) in Ho. by apply not_elem_of_nil in Ho.
Qed.

(** ** What a run writes to stderr *)

Section StderrFacts.

Variable klogV : Z.
Variable mapper : RESTMapper.
Variable client : GroupVersionResource -> Listing.

Lemma eachItem_fetchOut gvr gvk items st :
  fetchOut (fold_left (eachItem gvr gvk) items st) = fetchOut st.
Proof. by destruct (eachItem_fold gvr gvk items st) as (_ & H & _). Qed.

Lemma listed_Stderr items st :
  Stderr (fetchOut (listed klogV items st))
  = Stderr (fetchOut st) ++ Spec.gotLine klogV items.
Proof.
  unfold listed, Spec.gotLine. destruct (3 <=? klogV); simpl;
    [reflexivity | by rewrite app_nil_r].
Qed.

Lemma eachListItem_Stderr gvr gvk answers st :
  Stderr (fetchOut (eachListItem klogV gvr gvk answers st))
  = Stderr (fetchOut st) ++ Spec.pageLog klogV gvr answers.
Proof.
  revert st. induction answers as [items|items more IH|err]; intros st; simpl.
  - by rewrite eachItem_fetchOut, listed_Stderr.
  - by rewrite IH, eachItem_fetchOut, listed_Stderr, app_assoc.
  - reflexivity.
Qed.

Lemma fetchResource_Stderr gvr st :
  Stderr (fetchOut (fetchResource klogV mapper client st gvr))
  = Stderr (fetchOut st) ++ Spec.fetchLog klogV client gvr.
Proof.
  unfold fetchResource, Spec.fetchLog. rewrite eachListItem_Stderr.
  destruct (2 <=? klogV); simpl; [by rewrite <- app_assoc | reflexivity].
Qed.

Lemma fetchAll_Stderr gvrs st :
  Stderr (fetchOut (fetchAll klogV mapper client gvrs st))
  = Stderr (fetchOut st) ++ flat_map (Spec.fetchLog klogV client) gvrs.
Proof.
  unfold fetchAll. revert st.
  induction gvrs as [|gvr gvrs IH]; intros st; simpl; [by rewrite app_nil_r|].
  by rewrite IH, fetchResource_Stderr, app_assoc.
Qed.

End StderrFacts.

(** X5. The stderr of a run that returns nil is, in this order: one notice
    per recorded discovery failure; for each resource type in catalog order
    the "fetching" line (from verbosity 2), a "got N item(s)" line for each
    page received (from verbosity 3) and the warning of a failed request; and
    one last line, the summary.  The validation of the owner references
    writes nothing to stderr. *)
Theorem stderr_of_run
        (ParseGroupVersion : string -> GroupVersion * option error)
        (ToLower : string -> string) (klogV : Z)
        (v : VerifyGCOptions) (s : Streams) :
  Run ParseGroupVersion ToLower klogV v = Returned None s ->
  exists line,
    Stderr s
    = map Spec.discoveryNotice (Spec.noticed (DiscoveryClient v))
        ++ flat_map (Spec.fetchLog klogV (MetadataClient v))
                    (Spec.resourceTypes (DiscoveryClient v))
        ++ [line]
    /\ (Spec.fitsInt v ->
        line = Spec.summaryLine (errorCount s) (warningCount s)).
Proof.
  intros H.
  pose proof H as Hrun.
  apply Run_returned in H as (failures & s0 & gvrMap & s1 & Hd & Hg & Hv & ->).
  apply discover_spec in Hd as (_ & _ & _ & _ & _ & _ & D7).
  apply validateAll_frame in Hv as (V1 & _).
  destruct (summarize_spec s1) as (E1 & E2 & _ & _ & line & L1 & _ & L3).
  exists line. split.
  - rewrite L1, V1, fetchAll_Stderr. simpl. rewrite D7.
    unfold Spec.resourceTypes. rewrite Hg. by rewrite <- app_assoc.
  - intros Hfit.
    destruct (Run_counters _ _ _ _ _ Hrun Hfit) as (s1' & e & w & Hs & He & Hw).
    assert (errorCount s1 = Z.of_nat e /\ warningCount s1 = Z.of_nat w) as [He' Hw'].
    { rewrite <- E1, <- E2, Hs.
      destruct (summarize_spec s1') as (E1' & E2' & _). by rewrite E1', E2'. }
    rewrite E1, E2. apply L3; lia.
Qed.

Lemma stderr_of_run_witness :
  Stderr (Scenarios.finalStreams (Scenarios.run 3 (Scenarios.forbidden "")))
  = Scenarios.lines
      [ "fetching v1, nodes"; "got 1 item"; "fetching v1, pods"; "got 1 item";
        "fetching forbidden/v1, forbiddenresources";
        "warning: could not list forbidden/v1, Resource=forbiddenresources: forbiddenresources is forbidden: not authorized";
        "0 errors, 2 warnings" ].
Proof.
  destruct (stderr_of_run Scenarios.ParseGroupVersion Scenarios.ToLower 3
                          (Scenarios.forbidden "")
                          (Scenarios.finalStreams
                             (Scenarios.run 3 (Scenarios.forbidden ""))))
    as (line & H & Hline).
  - vm_compute. reflexivity.
  - rewrite H, Hline by (vm_compute; reflexivity). vm_compute. reflexivity.
Defined.

(** ** What a run writes to stdout *)

Lemma flat_map_map {A B C : Type} (g : A -> list B) (f : B -> C) (l : list A) :
  flat_map (fun x => map f (g x)) l = map f (flat_map g l).
Proof.
  induction l as [|x l IH]; [reflexivity|]. simpl. by rewrite IH, map_app.
Qed.

(** A loop whose body appends events, as seen by a relation that composes. *)
Lemma forEach_events {A : Type} (R : list OutEvent -> Streams -> Streams -> Prop)
      (body : A -> Streams -> option Streams) (f : A -> list OutEvent) (l : list A) :
  (forall s, R [] s s) ->
  (forall E1 E2 s1 s2 s3, R E1 s1 s2 -> R E2 s2 s3 -> R (E1 ++ E2) s1 s3) ->
  (forall x s s', body x s = Some s' -> R (f x) s s') ->
  forall s s', forEach body l s = Some s' -> R (flat_map f l) s s'.
Proof.
  intros Hrefl Htrans Hbody.
  induction l as [|x l IH]; intros s s' H; simpl in *.
  - injection H as <-. apply Hrefl.
  - destruct (body x s) as [s1|] eqn:E; [|discriminate].
    eapply Htrans; [by apply Hbody | by apply IH].
Qed.

Section StdoutFacts.

Variable ParseGroupVersion : string -> GroupVersion * option error.
Variable ToLower : string -> string.
Variable mapper : RESTMapper.
Variable failures : gmap GroupVersion error.
Variable listErrs : gmap GroupResource error.
Variable byGVR' : gmap GroupVersionResource (list PartialObjectMetadata).
Variable byUID' : gmap string (list PartialObjectMetadata).
Variable sink : refMessageFn.
Variable event : Finding -> OutEvent.
Variable R : list OutEvent -> Streams -> Streams -> Prop.
Hypothesis R_refl : forall s, R [] s s.
Hypothesis R_trans :
  forall E1 E2 s1 s2 s3, R E1 s1 s2 -> R E2 s2 s3 -> R (E1 ++ E2) s1 s3.
Hypothesis R_report :
  forall gvr child ownerRef level msg s,
    R [event (mkFinding gvr child ownerRef level msg)] s
      (logFinding (mkFinding gvr child ownerRef level msg)
                  (sink gvr child ownerRef level msg s)).
Hypothesis R_flush : forall s, R [TabFlush] s (toStdout TabFlush s).

Let findingsOfChild :=
  Spec.findingsOfChild ParseGroupVersion ToLower mapper failures listErrs byUID'.

(** The validation loops append, for each resource type, the events of its
    findings and the flush. *)
Lemma validateAll_events gvrs s s' :
  validateAll ParseGroupVersion ToLower mapper failures listErrs byGVR' byUID'
              (Some sink) gvrs s = Some s' ->
  R (flat_map (fun gvr =>
                 map event (flat_map (findingsOfChild gvr) (default [] (byGVR' !! gvr)))
                   ++ [TabFlush])
              gvrs)
    s s'.
Proof.
  unfold validateAll. apply forEach_events; [exact R_refl | exact R_trans |].
  intros gvr s0 s0'. unfold validateResource.
  destruct (forEach _ _ s0) as [s1|] eqn:E1; [|discriminate].
  intros H. injection H as <-.
  eapply R_trans; [|apply R_flush].
  rewrite <- flat_map_map. revert E1.
  apply forEach_events; [exact R_refl | exact R_trans |].
  intros child t t'. unfold validateChild. subst findingsOfChild.
  unfold Spec.findingsOfChild. rewrite <- flat_map_map.
  apply forEach_events; [exact R_refl | exact R_trans |].
  intros ownerRef u u'. rewrite validateOwnerRef_verdict.
  intros H. injection H as <-. unfold Spec.findingsOfRef, Spec.report.
  destruct (Spec.verdict _ _ _ _ _ _ _ _) as [[level msg]|]; simpl.
  - apply R_report.
  - apply R_refl.
Qed.

End StdoutFacts.

Lemma withHeaderIf_app started out1 out2 :
  withHeaderIf started (out1 ++ out2)
  = withHeaderIf started out1 ++ withHeaderIf (started || hasWrite out1) out2.
Proof.
  destruct started; [reflexivity|]. simpl.
  induction out1 as [|e out1 IH]; [reflexivity|].
  destruct e; simpl; [reflexivity | by rewrite IH | reflexivity].
Qed.

Lemma tabularStep_trans out1 out2 s1 s2 s3 :
  tabularStep out1 s1 s2 -> tabularStep out2 s2 s3 -> tabularStep (out1 ++ out2) s1 s3.
Proof.
  intros [A1 A2] [B1 B2]. split.
  - by rewrite B1, A1, A2, withHeaderIf_app, app_assoc.
  - rewrite B2, A2. unfold hasWrite. by rewrite existsb_app, orb_assoc.
Qed.

Lemma tabularStep_report gvr child ownerRef level msg s :
  tabularStep [TabWrite (Spec.row (mkFinding gvr child ownerRef level msg))] s
              (logFinding (mkFinding gvr child ownerRef level msg)
                          (tabularRefMessage gvr child ownerRef level msg s)).
Proof.
  unfold tabularStep, tabularRefMessage.
  destruct s as [e w [|] out err fs];
    destruct (String.eqb level levelError); simpl; split; try reflexivity;
    rewrite <- ?app_assoc; reflexivity.
Qed.

(** The events that reach stdout in a run that returns nil. *)
Lemma Run_events ParseGroupVersion ToLower klogV v failures s0 gvrMap s sink event R :
  (forall s, R [] s s) ->
  (forall E1 E2 s1 s2 s3, R E1 s1 s2 -> R E2 s2 s3 -> R (E1 ++ E2) s1 s3) ->
  (forall gvr child ownerRef level msg s,
      R [event (mkFinding gvr child ownerRef level msg)] s
        (logFinding (mkFinding gvr child ownerRef level msg)
                    (sink gvr child ownerRef level msg s))) ->
  (forall s, R [TabFlush] s (toStdout TabFlush s)) ->
  outputRefMessage (Output v) = Some sink ->
  discover (DiscoveryClient v) = inr (failures, s0) ->
  GroupVersionResources (DiscoveryClient v) = Ok gvrMap ->
  Run ParseGroupVersion ToLower klogV v = Returned None s ->
  let mapper := restMapper (DiscoveryClient v) in
  let fetched := fetchAll klogV mapper (MetadataClient v) (catalog gvrMap)
                          (emptyFetch s0) in
  exists s1,
    s = summarize s1
    /\ Stdout (fetchOut fetched) = [] /\ initialized (fetchOut fetched) = false
    /\ R (flat_map
            (fun gvr =>
               map event
                   (flat_map (Spec.findingsOfChild ParseGroupVersion ToLower mapper
                                                   failures (grListErrors fetched)
                                                   (byUID fetched) gvr)
                             (Spec.fetchedOf mapper (MetadataClient v) gvr))
                 ++ [TabFlush])
            (catalog gvrMap))
         (fetchOut fetched) s1.
Proof.
  intros R1 R2 R3 R4 Hsink Hd Hg H mapper fetched.
  apply Run_returned in H as (failures' & s0' & gvrMap' & s1 & Hd' & Hg' & Hv & ->).
  rewrite Hd in Hd'. injection Hd' as <- <-. rewrite Hg in Hg'. injection Hg' as <-.
  fold mapper fetched in Hv. rewrite Hsink in Hv.
  apply discover_spec in Hd as (_ & _ & _ & D3 & D4 & _).
  destruct (fetchAll_spec klogV mapper (MetadataClient v) (catalog gvrMap)
              (emptyFetch s0)) as (_ & (_ & _ & F3 & F4 & _) & _).
  fold fetched in F3, F4. simpl in F3, F4.
  exists s1. split; [reflexivity|]. split; [congruence|]. split; [congruence|].
  apply (validateAll_events ParseGroupVersion ToLower mapper failures
           (grListErrors fetched) (byGVR fetched) (byUID fetched)
           sink event R R1 R2 R3 R4) in Hv.
  erewrite flat_map_ext_elem_of; [exact Hv|].
  intros gvr Hin. simpl.
  destruct (fetchAll_index klogV mapper (MetadataClient v) (catalog gvrMap) s0
              (catalog_NoDup gvrMap)) as [Hidx _].
  fold fetched in Hidx. by rewrite (Hidx gvr Hin).
Qed.

(** X6. In tabular mode the tab writer receives, for each resource type in
    catalog order, one row per finding of that type and then a flush; the
    header row is written once, immediately before the first row of the run,
    and not at all in a run without findings. *)
Theorem tabular_stdout_of_run
        (ParseGroupVersion : string -> GroupVersion * option error)
        (ToLower : string -> string) (klogV : Z)
        (v : VerifyGCOptions) (failures : gmap GroupVersion error)
        (s0 s : Streams) (gvrMap : gset GroupVersionResource) :
  Output v = "" ->
  discover (DiscoveryClient v) = inr (failures, s0) ->
  GroupVersionResources (DiscoveryClient v) = Ok gvrMap ->
  Run ParseGroupVersion ToLower klogV v = Returned None s ->
  let mapper := restMapper (DiscoveryClient v) in
  let fetched := fetchAll klogV mapper (MetadataClient v) (catalog gvrMap)
                          (emptyFetch s0) in
  let findings gvr :=
    flat_map (Spec.findingsOfChild ParseGroupVersion ToLower mapper failures
                                   (grListErrors fetched) (byUID fetched) gvr)
             (Spec.fetchedOf mapper (MetadataClient v) gvr) in
  Stdout s = Spec.tabularEvents findings (catalog gvrMap).
Proof.
  intros Hout Hd Hg H mapper fetched findings.
  destruct (Run_events ParseGroupVersion ToLower klogV v failures s0 gvrMap s
              tabularRefMessage (fun f => TabWrite (Spec.row f)) tabularStep)
    as (s1 & -> & S1 & S2 & [S3 _]); try assumption.
  - intros s'. unfold tabularStep, withHeaderIf.
    split; [destruct (initialized s'); simpl; by rewrite app_nil_r
           | simpl; by rewrite orb_false_r].
  - apply tabularStep_trans.
  - apply tabularStep_report.
  - intros s'. unfold tabularStep, withHeaderIf.
    split; [by destruct (initialized s') | simpl; by rewrite orb_false_r].
  - by rewrite Hout.
  - destruct (summarize_spec s1) as (_ & _ & _ & E4 & _). rewrite E4, S3.
    rewrite S1, S2. reflexivity.
Qed.

Lemma tabular_stdout_of_run_witness :
  Stdout (Scenarios.finalStreams (Scenarios.run 3 (Scenarios.forbidden "")))
  = [ TabFlush;
      Scenarios.headerRow;
      Scenarios.cells
        [ ""; "pods"; "ns1"; "pod1"; "forbiddenparentuid"; "Warning";
          "could not list parent resource forbiddenresources.forbidden" ];
      TabFlush;
      TabFlush ].
Proof.
  pose (r := match discover (DiscoveryClient (Scenarios.forbidden "")) with
             | inr p => p
             | inl _ => (∅, initialStreams)
             end).
  rewrite (tabular_stdout_of_run
             Scenarios.ParseGroupVersion Scenarios.ToLower 3 (Scenarios.forbidden "")
             r.1 r.2
             (Scenarios.finalStreams (Scenarios.run 3 (Scenarios.forbidden "")))
             (list_to_set (map Scenarios.resourceGVR Scenarios.forbiddenTable))
             eq_refl).
  - vm_compute. reflexivity.
  - vm_compute. reflexivity.
  - reflexivity.
  - vm_compute. reflexivity.
Defined.

(** X7. In JSON mode one record is encoded to stdout per finding, in the
    order of the findings; the tab writer is flushed after each resource type
    and is never written to, so that no header and no row reaches stdout. *)
Theorem json_stdout_of_run
        (ParseGroupVersion : string -> GroupVersion * option error)
        (ToLower : string -> string) (klogV : Z)
        (v : VerifyGCOptions) (failures : gmap GroupVersion error)
        (s0 s : Streams) (gvrMap : gset GroupVersionResource) :
  Output v = "json" ->
  discover (DiscoveryClient v) = inr (failures, s0) ->
  GroupVersionResources (DiscoveryClient v) = Ok gvrMap ->
  Run ParseGroupVersion ToLower klogV v = Returned None s ->
  let mapper := restMapper (DiscoveryClient v) in
  let fetched := fetchAll klogV mapper (MetadataClient v) (catalog gvrMap)
                          (emptyFetch s0) in
  let findings gvr :=
    flat_map (Spec.findingsOfChild ParseGroupVersion ToLower mapper failures
                                   (grListErrors fetched) (byUID fetched) gvr)
             (Spec.fetchedOf mapper (MetadataClient v) gvr) in
  Stdout s = Spec.jsonEvents findings (catalog gvrMap)
  /\ initialized s = false.
Proof.
  intros Hout Hd Hg H mapper fetched findings.
  destruct (Run_events ParseGroupVersion ToLower klogV v failures s0 gvrMap s
              jsonRefMessage (fun f => JsonEncode (Spec.record f))
              (fun out s s' => jsonStep out s s' /\ initialized s' = initialized s))
    as (s1 & -> & S1 & S2 & [S3 S4]); try assumption.
  - intros s'. split; [unfold jsonStep; by rewrite app_nil_r | reflexivity].
  - intros E1 E2 s1 s2 s3 [A1 A2] [B1 B2]. split; [|congruence].
    unfold jsonStep in *. by rewrite B1, A1, app_assoc.
  - intros. split; reflexivity.
  - intros. split; reflexivity.
  - by rewrite Hout.
  - destruct (summarize_spec s1) as (_ & _ & _ & E4 & _). rewrite E4.
    unfold jsonStep in S3. rewrite S3, S1.
    split; [reflexivity|].
    replace (initialized (summarize s1)) with (initialized s1)
      by (unfold summarize; by destruct (_ || _)).
    congruence.
Qed.

Lemma json_stdout_of_run_witness :
  Stdout (Scenarios.finalStreams (Scenarios.run 3 (Scenarios.mismatchedName "json")))
  = [ TabFlush;
      JsonEncode
        (mkInvalidReference
           Scenarios.pods (mkGVK "" "v1" "Pod") "ns1" "pod1"
           (mkOwnerRef "v1" "Node" "nodex" "node1uid") "Error"
           "ownerReference name (nodex) does not match owner name (node1)");
      TabFlush ].
Proof.
  pose (r := match discover (DiscoveryClient (Scenarios.mismatchedName "json")) with
             | inr p => p
             | inl _ => (∅, initialStreams)
             end).
  destruct (json_stdout_of_run
              Scenarios.ParseGroupVersion Scenarios.ToLower 3
              (Scenarios.mismatchedName "json") r.1 r.2
              (Scenarios.finalStreams (Scenarios.run 3 (Scenarios.mismatchedName "json")))
              (list_to_set (map Scenarios.resourceGVR Scenarios.v1Resources))
              eq_refl) as [H _].
  - vm_compute. reflexivity.
  - reflexivity.
  - vm_compute. reflexivity.
  - rewrite H. vm_compute. reflexivity.
Defined.

(** ** The counters in JSON mode *)

(** X8. In JSON mode no finding is counted: at the end of a run that returns
    nil the error counter is 0 and the warning counter is the number of
    recorded discovery failures plus the number of resource types whose
    listing failed.  So when discovery and all listings succeed, the last line
    on stderr is "No invalid ownerReferences found" whatever findings were
    encoded to stdout.  (The data of the run fit an int.) *)
Theorem json_counters
        (ParseGroupVersion : string -> GroupVersion * option error)
        (ToLower : string -> string) (klogV : Z)
        (v : VerifyGCOptions) (s : Streams) :
  Output v = "json" ->
  Spec.fitsInt v ->
  Run ParseGroupVersion ToLower klogV v = Returned None s ->
  errorCount s = 0
  /\ warningCount s
     = Z.of_nat (size (Spec.recordedDiscoveryFailures (DiscoveryClient v)))
       + Z.of_nat (length (Spec.failedListings (MetadataClient v)
                                               (Spec.resourceTypes (DiscoveryClient v))))
  /\ (Spec.recordedDiscoveryFailures (DiscoveryClient v) = ∅ ->
      Spec.failedListings (MetadataClient v) (Spec.resourceTypes (DiscoveryClient v)) = [] ->
      last (Stderr s) = Some ("No invalid ownerReferences found" +:+ nl)).
Proof.
  intros Hout Hfit H.
  destruct (Run_returned _ _ _ _ _ H) as (failures & s0 & gvrMap & s1' & Hd & Hg & _ & _).
  destruct (Run_completes ParseGroupVersion ToLower klogV v failures s0 gvrMap
              (or_intror Hout) Hd Hg) as (s1 & Hrun & V).
  rewrite Hrun in H. injection H as <-.
  destruct (summarize_spec s1) as (E1 & E2 & _ & _ & line & L1 & _ & L3).
  rewrite E1, E2.
  apply discover_spec in Hd as (_ & D1 & D2 & _).
  destruct (fetchAll_spec klogV (restMapper (DiscoveryClient v)) (MetadataClient v)
              (catalog gvrMap) (emptyFetch s0)) as (_ & (F1 & F2 & _) & _).
  simpl in F1, F2.
  destruct V as (_ & _ & _ & V4). destruct (V4 Hout) as [V4e V4w].
  pose proof (length_filter (fun gvr => is_Some (Spec.listingError (MetadataClient v gvr)))
                            (catalog gvrMap)) as HL.
  fold (Spec.failedListings (MetadataClient v) (catalog gvrMap)) in HL.
  unfold Spec.fitsInt, Spec.load in Hfit.
  unfold Spec.resourceTypes in *. rewrite Hg in *.
  assert (He : errorCount s1 = 0) by (by rewrite V4e, F1, D1).
  assert (Hw : warningCount s1
               = Z.of_nat (size (Spec.recordedDiscoveryFailures (DiscoveryClient v)))
                 + Z.of_nat (length (Spec.failedListings (MetadataClient v)
                                                         (catalog gvrMap)))).
  { rewrite V4w, F2, D2, <- bump_add. rewrite bump_exact by lia. lia. }
  split; [exact He|]. split; [exact Hw|].
  intros Hnone Hlist. rewrite L1, last_snoc. f_equal.
  rewrite L3 by lia. rewrite He, Hw, Hnone, Hlist. reflexivity.
Qed.

Lemma json_counters_witness :
  errorCount (Scenarios.finalStreams (Scenarios.run 3 (Scenarios.mismatchedName "json")))
  = 0
  /\ length (emitted (Scenarios.finalStreams
                        (Scenarios.run 3 (Scenarios.mismatchedName "json")))) = 1%nat
  /\ last (Stderr (Scenarios.finalStreams
                     (Scenarios.run 3 (Scenarios.mismatchedName "json"))))
     = Some ("No invalid ownerReferences found" +:+ nl).
Proof.
  destruct (json_counters Scenarios.ParseGroupVersion Scenarios.ToLower 3
                          (Scenarios.mismatchedName "json")
                          (Scenarios.finalStreams
                             (Scenarios.run 3 (Scenarios.mismatchedName "json"))))
    as (He & _ & Hlast).
  - reflexivity.
  - vm_compute. reflexivity.
  - vm_compute. reflexivity.
  - split; [exact He|]. split; [vm_compute; reflexivity|].
    apply Hlast; vm_compute; reflexivity.
Defined.

(** ** Run on options that Validate rejects *)

Section NoSinkFacts.

Variable ParseGroupVersion : string -> GroupVersion * option error.
Variable ToLower : string -> string.
Variable mapper : RESTMapper.
Variable failures : gmap GroupVersion error.
Variable listErrs : gmap GroupResource error.
Variable byGVR' : gmap GroupVersionResource (list PartialObjectMetadata).
Variable byUID' : gmap string (list PartialObjectMetadata).

Let verdict :=
  Spec.verdict ParseGroupVersion ToLower mapper failures listErrs byUID'.

(** The body of the loop over owner references calls [outputRefMessage] with
    the verdict of the first check that fires, and not at all when none
    fires. *)
Lemma validateOwnerRef_call out gvr child ownerRef s :
  validateOwnerRef ParseGroupVersion ToLower mapper failures listErrs byUID'
                   out gvr child ownerRef s
  = match verdict child ownerRef with
    | Some (level, msg) => callRefMessage out gvr child ownerRef level msg s
    | None => Some s
    end.
Proof.
  subst verdict.
  pose proof (crossCheck_verdict ParseGroupVersion ToLower child ownerRef
                (default [] (byUID' !! or_UID ownerRef))) as HC.
  unfold validateOwnerRef, Spec.verdict, Spec.orderedChecks, Spec.parseCheck,
    Spec.resolveCheck, Spec.scopeCheck, Spec.existenceCheck,
    Spec.crossCheckVerdict, Spec.resolved, Spec.bucket, Spec.ownerGV in *.
  unfold GVK_GroupKind, GVK_GroupVersion, WithKind.
  destruct (ParseGroupVersion (or_APIVersion ownerRef)) as [[g ver] [e|]] eqn:HP;
    simpl in *; [reflexivity|].
  destruct (mapper_RESTMapping mapper (mkGK g (or_Kind ownerRef)) ver)
    as [m|e] eqn:HM; simpl.
  2:{ destruct (failures !! _); reflexivity. }
  destruct (mapping_Scope m), (isEmpty (Namespace child)); simpl;
    try reflexivity.
  all: destruct (default [] (byUID' !! or_UID ownerRef)) as [|a l] eqn:HB;
    [ simpl; destruct (listErrs !! _); reflexivity | ].
  all: change (Nat.eqb (length (a :: l)) 0) with false; cbv iota.
  all: destruct HC as (H1 & H2 & H3 & A1 & A2 & A3).
  all: rewrite H1, H2, H3 in *.
  all: destruct (existsb (Spec.namespaceAspect child) (a :: l)); cbn [negb];
    [ | rewrite A1 by reflexivity; reflexivity ].
  all: destruct (existsb (Spec.nameAspect ownerRef) (a :: l)); cbn [negb];
    [ | rewrite A2 by reflexivity; reflexivity ].
  all: destruct (existsb _ (a :: l)); cbn [negb];
    [ reflexivity | rewrite A3 by reflexivity ].
  all: destruct (last (a :: l)); reflexivity.
Qed.

(** A loop whose body panics where it has a finding to report. *)
Lemma forEach_no_sink {A : Type} (body : A -> Streams -> option Streams)
      (f : A -> list Finding) (after : A -> Streams -> Streams) (l : list A) :
  (forall x s, body x s = match f x with
                          | [] => Some (after x s)
                          | _ :: _ => None
                          end) ->
  forall s, forEach body l s
            = match flat_map f l with
              | [] => Some (fold_left (fun s x => after x s) l s)
              | _ :: _ => None
              end.
Proof.
  intros Hbody. induction l as [|x l IH]; intros s; simpl; [reflexivity|].
  rewrite Hbody. destruct (f x); simpl; [apply IH | reflexivity].
Qed.

Lemma validateAll_no_sink gvrs s :
  validateAll ParseGroupVersion ToLower mapper failures listErrs byGVR' byUID'
              None gvrs s
  = match Spec.findingsOver ParseGroupVersion ToLower mapper failures listErrs
                            byUID' byGVR' gvrs with
    | [] => Some (fold_left (fun s _ => toStdout TabFlush s) gvrs s)
    | _ :: _ => None
    end.
Proof.
  unfold validateAll, Spec.findingsOver.
  apply (forEach_no_sink _ _ (fun _ s => toStdout TabFlush s)).
  intros gvr s0. unfold validateResource.
  rewrite (forEach_no_sink _
             (Spec.findingsOfChild ParseGroupVersion ToLower mapper failures
                                   listErrs byUID' gvr)
             (fun _ s => s)).
  - destruct (flat_map _ _); [|reflexivity].
    f_equal. f_equal. induction (default [] (byGVR' !! gvr)); simpl; auto.
  - intros child s1. unfold validateChild, Spec.findingsOfChild.
    rewrite (forEach_no_sink _
               (Spec.findingsOfRef ParseGroupVersion ToLower mapper failures
                                   listErrs byUID' gvr child)
               (fun _ s => s)).
    + destruct (flat_map _ _); [|reflexivity].
      f_equal. induction (OwnerReferences child); simpl; auto.
    + intros ownerRef s2. rewrite validateOwnerRef_call.
      unfold Spec.findingsOfRef. subst verdict.
      destruct (Spec.verdict _ _ _ _ _ _ _ _) as [[level msg]|]; reflexivity.
Qed.

End NoSinkFacts.

Lemma flushes_frame (gvrs : list GroupVersionResource) s :
  let s' := fold_left (fun s _ => toStdout TabFlush s) gvrs s in
  emitted s' = emitted s /\ Stderr s' = Stderr s
  /\ errorCount s' = errorCount s /\ warningCount s' = warningCount s
  /\ Spec.writes (Stdout s') = Spec.writes (Stdout s).
Proof.
  revert s. induction gvrs as [|gvr gvrs IH]; intros s; simpl; [done|].
  destruct (IH (toStdout TabFlush s)) as (A1 & A2 & A3 & A4 & A5).
  repeat split; try assumption.
  rewrite A5. simpl. by rewrite writes_app, app_nil_r.
Qed.

(** X9. With an output format other than '' and 'json', which Validate
    rejects, no sink is installed: Run panics at the first finding it has to
    report, and completes (returns nil, with nothing written to stdout) exactly
    when the scan has no finding. *)
Theorem Run_without_sink_panics_on_findings
        (ParseGroupVersion : string -> GroupVersion * option error)
        (ToLower : string -> string) (klogV : Z)
        (v : VerifyGCOptions) (failures : gmap GroupVersion error)
        (s0 : Streams) (gvrMap : gset GroupVersionResource) :
  Output v <> "" -> Output v <> "json" ->
  discover (DiscoveryClient v) = inr (failures, s0) ->
  GroupVersionResources (DiscoveryClient v) = Ok gvrMap ->
  let mapper := restMapper (DiscoveryClient v) in
  let fetched := fetchAll klogV mapper (MetadataClient v) (catalog gvrMap)
                          (emptyFetch s0) in
  let findings :=
    Spec.findingsOfRun ParseGroupVersion ToLower mapper failures
                       (grListErrors fetched) (byUID fetched)
                       (MetadataClient v) (catalog gvrMap) in
  (findings <> [] -> Run ParseGroupVersion ToLower klogV v = Panicked)
  /\ (findings = [] ->
      exists s, Run ParseGroupVersion ToLower klogV v = Returned None s
                /\ emitted s = [] /\ Spec.writes (Stdout s) = []).
Proof.
  intros H1 H2 Hd Hg mapper fetched findings.
  assert (Hout : outputRefMessage (Output v) = None).
  { unfold outputRefMessage.
    destruct (String.eqb_spec (Output v) ""); [done|].
    destruct (String.eqb_spec (Output v) "json"); done. }
  unfold Run. rewrite Hd, Hg, Hout. fold mapper fetched.
  rewrite validateAll_no_sink. subst fetched mapper.
  rewrite findingsOver_fetched. fold findings.
  split.
  - intros Hne. destruct findings; [done | reflexivity].
  - intros ->. eexists. split; [reflexivity|].
    match goal with
    | |- context [fold_left _ ?l ?s] =>
        destruct (flushes_frame l s) as (A1 & _ & _ & _ & A5)
    end.
    destruct (summarize_spec
                (fold_left (fun s _ => toStdout TabFlush s) (catalog gvrMap)
                   (fetchOut (fetchAll klogV (restMapper (DiscoveryClient v))
                                       (MetadataClient v) (catalog gvrMap)
                                       (emptyFetch s0)))))
      as (_ & _ & E3 & E4 & _).
    rewrite E3, E4, A1, A5.
    apply discover_spec in Hd as (_ & _ & _ & _ & D4 & D5 & _).
    destruct (fetchAll_spec klogV (restMapper (DiscoveryClient v)) (MetadataClient v)
                (catalog gvrMap) (emptyFetch s0)) as (_ & (_ & _ & _ & F4 & F5 & _) & _).
    simpl in F4, F5. rewrite F4, F5, D4, D5. done.
Qed.

Lemma Run_without_sink_panics_on_findings_witness :
  Scenarios.run 3 (Scenarios.mismatchedName "yaml") = Panicked
  /\ exists s, Scenarios.run 3 (Scenarios.simple "yaml") = Returned None s.
Proof.
  pose (r := fun v => match discover (DiscoveryClient v) with
                      | inr p => p
                      | inl _ => (∅, initialStreams)
                      end).
  split.
  - destruct (Run_without_sink_panics_on_findings
                Scenarios.ParseGroupVersion Scenarios.ToLower 3
                (Scenarios.mismatchedName "yaml")
                (r (Scenarios.mismatchedName "yaml")).1
                (r (Scenarios.mismatchedName "yaml")).2
                (list_to_set (map Scenarios.resourceGVR Scenarios.v1Resources)))
      as [H _].
    + discriminate.
    + discriminate.
    + vm_compute. reflexivity.
    + reflexivity.
    + apply H. vm_compute. discriminate.
  - destruct (Run_without_sink_panics_on_findings
                Scenarios.ParseGroupVersion Scenarios.ToLower 3
                (Scenarios.simple "yaml")
                (r (Scenarios.simple "yaml")).1
                (r (Scenarios.simple "yaml")).2
                (list_to_set (map Scenarios.resourceGVR Scenarios.v1Resources)))
      as [_ H].
    + discriminate.
    + discriminate.
    + vm_compute. reflexivity.
    + reflexivity.
    + destruct H as (s & Hs & _); [vm_compute; reflexivity|]. eauto.
Defined.

(** ** Where the findings come from *)

(** The findings of a run that returns nil, whatever the output format. *)
Lemma Run_emitted ParseGroupVersion ToLower klogV v failures s0 gvrMap s :
  discover (DiscoveryClient v) = inr (failures, s0) ->
  GroupVersionResources (DiscoveryClient v) = Ok gvrMap ->
  Run ParseGroupVersion ToLower klogV v = Returned None s ->
  let mapper := restMapper (DiscoveryClient v) in
  let fetched := fetchAll klogV mapper (MetadataClient v) (catalog gvrMap)
                          (emptyFetch s0) in
  emitted s
  = Spec.findingsOfRun ParseGroupVersion ToLower mapper failures
                       (grListErrors fetched) (byUID fetched)
                       (MetadataClient v) (catalog gvrMap).
Proof.
  intros Hd Hg H mapper fetched.
  assert (Hfetch : emitted (fetchOut fetched) = []).
  { destruct (fetchAll_spec klogV mapper (MetadataClient v) (catalog gvrMap)
                (emptyFetch s0)) as (_ & (_ & _ & _ & _ & F5 & _) & _).
    fold fetched in F5. rewrite F5. simpl.
    by apply discover_spec in Hd as (_ & _ & _ & _ & _ & D5 & _). }
  destruct (outputRefMessage (Output v)) as [sink|] eqn:Hsink.
  - assert (Hout : Output v = "" \/ Output v = "json").
    { unfold outputRefMessage in Hsink.
      destruct (String.eqb_spec (Output v) ""); [by left|].
      destruct (String.eqb_spec (Output v) "json"); [by right | discriminate]. }
    destruct (Run_completes ParseGroupVersion ToLower klogV v failures s0 gvrMap
                Hout Hd Hg) as (s1 & Hrun & V1 & _).
    rewrite Hrun in H. injection H as <-.
    destruct (summarize_spec s1) as (_ & _ & E3 & _). rewrite E3, V1.
    fold mapper fetched. by rewrite Hfetch.
  - unfold Run in H. rewrite Hd, Hg, Hsink in H. fold mapper fetched in H.
    rewrite validateAll_no_sink in H. subst fetched mapper.
    rewrite findingsOver_fetched in H.
    destruct (Spec.findingsOfRun _ _ _ _ _ _ _ _); [|discriminate].
    injection H as <-.
    match goal with
    | |- context [fold_left _ ?l ?s1] =>
        destruct (flushes_frame l s1) as (A1 & _);
        destruct (summarize_spec (fold_left (fun s _ => toStdout TabFlush s) l s1))
          as (_ & _ & E3 & _)
    end.
    by rewrite E3, A1.
Qed.

(** X10. Every finding of a run concerns an owner reference that an object
    retrieved for an enumerated resource type carries, and has the level Error
    or Warning; there is at most one finding per retrieved owner reference, so
    that objects without owner references are never reported. *)
Theorem findings_come_from_owner_references
        (ParseGroupVersion : string -> GroupVersion * option error)
        (ToLower : string -> string) (klogV : Z)
        (v : VerifyGCOptions) (s : Streams) :
  Run ParseGroupVersion ToLower klogV v = Returned None s ->
  let d := DiscoveryClient v in
  (forall f,
      f ∈ emitted s ->
      f_gvr f ∈ Spec.resourceTypes d
      /\ f_item f ∈ Spec.fetchedOf (restMapper d) (MetadataClient v) (f_gvr f)
      /\ f_ownerRef f ∈ OwnerReferences (f_item f)
      /\ (f_level f = levelError \/ f_level f = levelWarning))
  /\ (length (emitted s)
      <= length (Spec.ownerReferencesOf (MetadataClient v) (Spec.resourceTypes d)))%nat.
Proof.
  intros H d.
  destruct (Run_returned _ _ _ _ _ H) as (failures & s0 & gvrMap & s1 & Hd & Hg & _ & _).
  rewrite (Run_emitted _ _ _ _ _ _ _ _ Hd Hg H).
  unfold Spec.resourceTypes. subst d. rewrite Hg. split.
  - intros f Hf. unfold Spec.findingsOfRun in Hf.
    apply elem_of_flat_map in Hf as (gvr & Hgvr & Hf).
    apply elem_of_flat_map in Hf as (child & Hchild & Hf).
    unfold Spec.findingsOfChild in Hf.
    apply elem_of_flat_map in Hf as (ownerRef & Href & Hf).
    unfold Spec.findingsOfRef in Hf.
    destruct (Spec.verdict _ _ _ _ _ _ _ _) as [[level msg]|] eqn:Hv;
      [|by apply not_elem_of_nil in Hf].
    apply list_elem_of_singleton in Hf as ->. simpl.
    split; [exact Hgvr|]. split; [exact Hchild|]. split; [exact Href|].
    eapply verdict_level. exact Hv.
  - apply findingsOfRun_length.
Qed.

Lemma findings_come_from_owner_references_witness :
  (length (emitted (Scenarios.finalStreams (Scenarios.run 3 (Scenarios.forbidden "json"))))
   <= 2)%nat.
Proof.
  destruct (findings_come_from_owner_references
              Scenarios.ParseGroupVersion Scenarios.ToLower 3
              (Scenarios.forbidden "json")
              (Scenarios.finalStreams (Scenarios.run 3 (Scenarios.forbidden "json"))))
    as [_ H].
  - vm_compute. reflexivity.
  - etransitivity; [exact H|]. vm_compute. reflexivity.
Defined.

(** ** When an owner reference is not reported *)

Section PassFacts.

Variable ParseGroupVersion : string -> GroupVersion * option error.
Variable ToLower : string -> string.
Variable mapper : RESTMapper.
Variable failures : gmap GroupVersion error.
Variable listErrs : gmap GroupResource error.
Variable byUID' : gmap string (list PartialObjectMetadata).

Lemma verdict_None_inv child ownerRef :
  Spec.verdict ParseGroupVersion ToLower mapper failures listErrs byUID'
               child ownerRef = None ->
  (ParseGroupVersion (or_APIVersion ownerRef)).2 = None
  /\ exists mapping,
      Spec.resolved ParseGroupVersion mapper ownerRef = Ok mapping
      /\ (mapping_Scope mapping = RESTScopeNameNamespace -> Namespace child <> "")
      /\ existsb (Spec.namespaceAspect child) (Spec.bucket byUID' ownerRef) = true
      /\ existsb (Spec.nameAspect ownerRef) (Spec.bucket byUID' ownerRef) = true
      /\ existsb (Spec.kindGroupAspect ParseGroupVersion ToLower ownerRef)
                 (Spec.bucket byUID' ownerRef) = true.
Proof.
  unfold Spec.verdict, Spec.orderedChecks, Spec.parseCheck, Spec.resolveCheck,
    Spec.scopeCheck, Spec.existenceCheck, Spec.crossCheckVerdict.
  destruct ((ParseGroupVersion (or_APIVersion ownerRef)).2); [discriminate|].
  destruct (Spec.resolved ParseGroupVersion mapper ownerRef) as [mapping|e];
    [|simpl; destruct (failures !! _); discriminate].
  intros H. split; [reflexivity|]. exists mapping. split; [reflexivity|].
  simpl in H.
  assert (Hscope : mapping_Scope mapping = RESTScopeNameNamespace ->
                   Namespace child <> "").
  { intros Hs Hn. rewrite Hs in H.
    assert (E : isEmpty (Namespace child) = true) by (by apply isEmpty_true).
    rewrite E in H. discriminate. }
  split; [exact Hscope|].
  assert (Hrest :
            match Spec.bucket byUID' ownerRef with
            | [] => Some (levelError, "no object found for uid")
            | _ :: _ => None
            end = None
            /\ Spec.crossCheckVerdict ParseGroupVersion ToLower byUID' child ownerRef
               = None).
  { unfold Spec.crossCheckVerdict.
    destruct (mapping_Scope mapping); [destruct (isEmpty (Namespace child)); [discriminate|]|];
      simpl in H.
    all: destruct (Spec.bucket byUID' ownerRef) as [|a l];
      [destruct (listErrs !! _); discriminate|].
    all: split; [reflexivity|].
    all: cbv beta iota delta [Spec.firstFiring] in H.
    all: match type of H with
         | match ?x with _ => _ end = None => destruct x eqn:E; [discriminate|]
         end.
    all: reflexivity. }
  destruct Hrest as [_ Hc]. unfold Spec.crossCheckVerdict in Hc.
  destruct (existsb (Spec.namespaceAspect child) _); [|discriminate].
  destruct (existsb (Spec.nameAspect ownerRef) _); [|discriminate].
  destruct (existsb (Spec.kindGroupAspect ParseGroupVersion ToLower ownerRef) _);
    [|discriminate].
  done.
Qed.

End PassFacts.

(** X11. An owner reference is not reported exactly when its apiVersion
    parses, its kind resolves, it does not name a namespaced type from a
    cluster-scoped child, and among the objects with its UID there is one with
    its name, one in no namespace or in the child's namespace, and one whose
    group and kind are compatible with it or unknown.  The three objects need
    not be the same one. *)
Theorem owner_reference_passes_iff
        (ParseGroupVersion : string -> GroupVersion * option error)
        (ToLower : string -> string) (mapper : RESTMapper)
        (gvDiscoveryFailures : gmap GroupVersion error)
        (grListErrs : gmap GroupResource error)
        (byUID' : gmap string (list PartialObjectMetadata))
        (output : string) (gvr : GroupVersionResource)
        (child : PartialObjectMetadata) (ownerRef : OwnerReference) (s : Streams) :
  output = "" \/ output = "json" ->
  let candidates := Spec.bucket byUID' ownerRef in
  exists s',
    validateOwnerRef ParseGroupVersion ToLower mapper gvDiscoveryFailures
                     grListErrs byUID' (outputRefMessage output)
                     gvr child ownerRef s = Some s'
    /\ (emitted s' = emitted s
        <-> (ParseGroupVersion (or_APIVersion ownerRef)).2 = None
            /\ exists mapping,
                Spec.resolved ParseGroupVersion mapper ownerRef = Ok mapping
                /\ (mapping_Scope mapping = RESTScopeNameNamespace ->
                    Namespace child <> "")
                /\ (exists a, a ∈ candidates /\ Name a = or_Name ownerRef)
                /\ (exists a, a ∈ candidates
                              /\ (Namespace a = "" \/ Namespace a = Namespace child))
                /\ (exists a, a ∈ candidates
                              /\ ((APIVersion a = "" \/ Kind a = "")
                                  \/ (gv_Group (ParseGroupVersion (APIVersion a)).1
                                      = gv_Group (ParseGroupVersion
                                                    (or_APIVersion ownerRef)).1
                                      /\ (Kind a = or_Kind ownerRef
                                          \/ ToLower (Kind a) = or_Kind ownerRef))))).
Proof.
  intros Hout candidates.
  destruct (validateOwnerRef_emitted ParseGroupVersion ToLower mapper
              gvDiscoveryFailures grListErrs byUID' output gvr child ownerRef s Hout)
    as (s' & Hrun & Hem & _).
  exists s'. split; [exact Hrun|]. rewrite Hem. unfold Spec.findingsOfRef.
  assert (Hex : forall (f : PartialObjectMetadata -> bool) (Q : PartialObjectMetadata -> Prop),
             (forall a, f a = true <-> Q a) ->
             existsb f candidates = true <-> exists a, a ∈ candidates /\ Q a).
  { intros f Q HfQ. rewrite existsb_exists. split; intros (a & Ha & Hq); exists a.
    - split; [by apply list_elem_of_In | by apply HfQ].
    - split; [by apply list_elem_of_In | by apply HfQ]. }
  split.
  - intros Hnil.
    destruct (Spec.verdict _ _ _ _ _ _ _ _) as [[level msg]|] eqn:Hv.
    { exfalso. apply (f_equal length) in Hnil. rewrite length_app in Hnil.
      simpl in Hnil. lia. }
    apply verdict_None_inv in Hv as (HP & mapping & HM & HS & H1 & H2 & H3).
    split; [exact HP|]. exists mapping. split; [exact HM|]. split; [exact HS|].
    split; [|split].
    + apply (Hex _ _ (nameAspect_true ownerRef)). exact H2.
    + apply (Hex _ _ (namespaceAspect_true child)). exact H1.
    + apply (Hex _ _ (kindGroupAspect_true ParseGroupVersion ToLower ownerRef)).
      exact H3.
  - intros (HP & mapping & HM & HS & H2 & H1 & H3).
    rewrite (verdict_None ParseGroupVersion ToLower mapper gvDiscoveryFailures
               grListErrs byUID' child ownerRef mapping HP HM HS).
    + by rewrite app_nil_r.
    + apply (Hex _ _ (namespaceAspect_true child)). exact H1.
    + apply (Hex _ _ (nameAspect_true ownerRef)). exact H2.
    + apply (Hex _ _ (kindGroupAspect_true ParseGroupVersion ToLower ownerRef)).
      exact H3.
Qed.

Lemma owner_reference_passes_iff_witness :
  exists s',
    validateOwnerRef Scenarios.ParseGroupVersion Scenarios.ToLower
                     (Scenarios.tableMapper Scenarios.v1Resources) ∅ ∅
                     {[ "node1uid" := [ mkObj "v1" "Node" "ns2" "node1" "node1uid" [];
                                        mkObj "v1" "Pod" "ns1" "other" "node1uid" [] ] ]}
                     (outputRefMessage "") Scenarios.pods
                     (Scenarios.pod1 [mkOwnerRef "v1" "Node" "node1" "node1uid"])
                     (mkOwnerRef "v1" "Node" "node1" "node1uid")
                     initialStreams = Some s'
    /\ emitted s' = [].
Proof.
  destruct (owner_reference_passes_iff
              Scenarios.ParseGroupVersion Scenarios.ToLower
              (Scenarios.tableMapper Scenarios.v1Resources) ∅ ∅
              {[ "node1uid" := [ mkObj "v1" "Node" "ns2" "node1" "node1uid" [];
                                 mkObj "v1" "Pod" "ns1" "other" "node1uid" [] ] ]}
              "" Scenarios.pods
              (Scenarios.pod1 [mkOwnerRef "v1" "Node" "node1" "node1uid"])
              (mkOwnerRef "v1" "Node" "node1" "node1uid")
              initialStreams (or_introl eq_refl))
    as (s' & Hrun & Hiff).
  exists s'. split; [exact Hrun|]. apply Hiff.
  split; [reflexivity|].
  exists (mkMapping Scenarios.nodes (mkGVK "" "v1" "Node") RESTScopeNameRoot).
  split; [reflexivity|]. split; [discriminate|].
  assert (B : Spec.bucket
                {[ "node1uid" := [ mkObj "v1" "Node" "ns2" "node1" "node1uid" [];
                                   mkObj "v1" "Pod" "ns1" "other" "node1uid" [] ] ]}
                (mkOwnerRef "v1" "Node" "node1" "node1uid")
              = [ mkObj "v1" "Node" "ns2" "node1" "node1uid" [];
                  mkObj "v1" "Pod" "ns1" "other" "node1uid" [] ])
    by (vm_compute; reflexivity).
  rewrite B. split; [|split].
  - exists (mkObj "v1" "Node" "ns2" "node1" "node1uid" []).
    split; [apply list_elem_of_here | reflexivity].
  - exists (mkObj "v1" "Pod" "ns1" "other" "node1uid" []).
    split; [apply list_elem_of_further, list_elem_of_here | right; reflexivity].
  - exists (mkObj "v1" "Node" "ns2" "node1" "node1uid" []).
    split; [apply list_elem_of_here | right; split; [reflexivity | left; reflexivity]].
Defined.

(** ** What the cross-check shows of the objects found *)

Section MismatchFacts.

Variable ParseGroupVersion : string -> GroupVersion * option error.
Variable ToLower : string -> string.
Variable child : PartialObjectMetadata.
Variable ownerRef : OwnerReference.

Let ownerGV := (ParseGroupVersion (or_APIVersion ownerRef)).1.
Let check := crossCheck ParseGroupVersion ToLower child ownerRef ownerGV.
Let differs (aspect : PartialObjectMetadata -> bool) (l : list PartialObjectMetadata) :=
  List.filter (fun a => negb (aspect a)) l.

Lemma crossCheck_snoc l a :
  check (l ++ [a])
  = crossCheckStep ParseGroupVersion ToLower child ownerRef ownerGV (check l) a.
Proof. subst check. unfold crossCheck. by rewrite fold_left_app. Qed.

Lemma last_differs_snoc {B : Type} (f : PartialObjectMetadata -> B) (d : B)
      aspect l a :
  default d (f <$> last (differs aspect (l ++ [a])))
  = if aspect a then default d (f <$> last (differs aspect l)) else f a.
Proof.
  subst differs. simpl. rewrite List.filter_app. simpl.
  destruct (aspect a); simpl; [by rewrite app_nil_r | by rewrite last_snoc].
Qed.

Lemma crossCheck_actual l :
  actualName (check l)
  = default "" (Name <$> last (differs (Spec.nameAspect ownerRef) l))
  /\ actualNamespace (check l)
     = default "" (Namespace <$> last (differs (Spec.namespaceAspect child) l))
  /\ actualGVK (check l)
     = default (mkGVK "" "" "")
               ((fun a => WithKind (ParseGroupVersion (APIVersion a)).1 (Kind a))
                  <$> last (differs (Spec.kindGroupAspect ParseGroupVersion ToLower
                                                          ownerRef) l)).
Proof.
  induction l as [|a l IH] using rev_ind; [done|].
  destruct IH as (I1 & I2 & I3).
  rewrite crossCheck_snoc, !last_differs_snoc.
  rewrite <- I1, <- I2, <- I3.
  unfold crossCheckStep, Spec.nameAspect, Spec.namespaceAspect, Spec.kindGroupAspect.
  subst ownerGV.
  destruct (String.eqb (Name a) (or_Name ownerRef)),
    (isEmpty (Namespace a)), (String.eqb (Namespace a) (Namespace child)),
    (isEmpty (APIVersion a)), (isEmpty (Kind a)),
    (String.eqb (Kind a) (or_Kind ownerRef)),
    (String.eqb (ToLower (Kind a)) (or_Kind ownerRef)),
    (String.eqb (gv_Group (ParseGroupVersion (APIVersion a)).1)
                (gv_Group (ParseGroupVersion (or_APIVersion ownerRef)).1));
    simpl; done.
Qed.

End MismatchFacts.

(** X12. For each aspect the cross-check keeps the value of the last object
    of the bucket, in fetch order, that lacks the aspect.  So the namespace,
    the name or the group and kind that the message of a failed aspect shows
    are those of the last object found with the owner's UID. *)
Theorem cross_check_reports_last_mismatch
        (ParseGroupVersion : string -> GroupVersion * option error)
        (ToLower : string -> string)
        (child : PartialObjectMetadata) (ownerRef : OwnerReference)
        (candidates : list PartialObjectMetadata) :
  let c := crossCheck ParseGroupVersion ToLower child ownerRef
                      (ParseGroupVersion (or_APIVersion ownerRef)).1 candidates in
  let lacking aspect := List.filter (fun a => negb (aspect a)) candidates in
  let gvkOf a := WithKind (ParseGroupVersion (APIVersion a)).1 (Kind a) in
  (actualNamespace c
   = default "" (Namespace <$> last (lacking (Spec.namespaceAspect child)))
   /\ actualName c = default "" (Name <$> last (lacking (Spec.nameAspect ownerRef)))
   /\ actualGVK c
      = default (mkGVK "" "" "")
                (gvkOf <$> last (lacking (Spec.kindGroupAspect ParseGroupVersion ToLower
                                                               ownerRef))))
  /\ (namespaceOk c = false ->
      actualNamespace c = default "" (Namespace <$> last candidates))
  /\ (nameOk c = false -> actualName c = default "" (Name <$> last candidates))
  /\ (groupKindOk c = false ->
      actualGVK c = default (mkGVK "" "" "") (gvkOf <$> last candidates)).
Proof.
  intros c lacking gvkOf.
  destruct (crossCheck_actual ParseGroupVersion ToLower child ownerRef candidates)
    as (A1 & A2 & A3).
  destruct (crossCheck_verdict ParseGroupVersion ToLower child ownerRef candidates)
    as (_ & _ & _ & B1 & B2 & B3).
  split; [by split; [|split]|]. split; [exact B1|]. split; [exact B2 | exact B3].
Qed.

(** ** The order of the catalog *)

Lemma isSorted_Sorted l :
  Spec.isSorted gvrLess l = true -> Sorted Spec.gvrLe l.
Proof.
  induction l as [|a [|b l] IH]; intros H.
  - constructor.
  - repeat constructor.
  - simpl in H. apply andb_true_iff in H as [H1 H2].
    constructor; [by apply IH|]. constructor.
    apply gvrLess_false_le. by apply negb_true_iff.
Qed.

Lemma Sorted_isSorted l :
  StronglySorted Spec.gvrLe l -> NoDup l -> Spec.isSorted gvrLess l = true.
Proof.
  induction l as [|a [|b l] IH]; intros H Hnd; [reflexivity | reflexivity |].
  apply StronglySorted_inv in H as [H1 H2]. apply NoDup_cons in Hnd as [Hn Hnd].
  simpl. apply andb_true_iff. split; [|by apply IH].
  apply negb_true_iff. apply Forall_cons in H2 as [Hab _].
  destruct (gvrLess b a) eqn:E; [|reflexivity].
  exfalso. apply Hn. apply gvrLess_true_le in E.
  assert (a = b) as -> by (by apply (anti_symm Spec.gvrLe)).
  apply list_elem_of_here.
Qed.

(** X13. The comparison that Run gives to sort.Slice is a strict total order
    on resource types: irreflexive, asymmetric, transitive, and any two
    different resource types are ordered.  So the sorted catalog is unique:
    every arrangement of the keys of the map in which no element is less than
    the one before it is the catalog, whichever way the slice was sorted. *)
Theorem catalog_is_the_sorted_order (gvrMap : gset GroupVersionResource) :
  (forall a, gvrLess a a = false)
  /\ (forall a b, gvrLess a b = true -> gvrLess b a = false)
  /\ (forall a b c, gvrLess a b = true -> gvrLess b c = true -> gvrLess a c = true)
  /\ (forall a b, a <> b -> gvrLess a b = true \/ gvrLess b a = true)
  /\ Spec.isSorted gvrLess (catalog gvrMap) = true
  /\ (forall l,
        l ≡ₚ elements gvrMap -> Spec.isSorted gvrLess l = true ->
        l = catalog gvrMap).
Proof.
  assert (Hlt : forall a b, gvrLess a b = false <-> Spec.gvrCompare a b <> Lt).
  { intros a b. rewrite <- gvrLess_compare. by destruct (gvrLess a b). }
  split; [|split; [|split; [|split; [|split]]]].
  - intros a. apply Hlt. by rewrite gvrCompare_refl.
  - intros a b H. apply gvrLess_compare in H. apply Hlt.
    rewrite gvrCompare_antisym, H. discriminate.
  - intros a b c H1 H2. apply gvrLess_compare in H1, H2. apply gvrLess_compare.
    by eapply gvrCompare_lt_trans.
  - intros a b Hne. rewrite !gvrLess_compare.
    destruct (Spec.gvrCompare a b) eqn:E.
    + by apply gvrCompare_eq in E.
    + by left.
    + right. by rewrite gvrCompare_antisym, E.
  - apply Sorted_isSorted; [apply sortSlice_sorted | apply catalog_NoDup].
  - intros l Hp Hs.
    apply (StronglySorted_unique Spec.gvrLe).
    + apply Sorted_StronglySorted; [apply gvrLe_trans | by apply isSorted_Sorted].
    + apply sortSlice_sorted.
    + rewrite Hp. symmetry. apply sortSlice_Permutation.
Qed.

(** ** Validate, then Run *)

(** With one of the two output formats, Run returns: it does not panic. *)
Lemma Run_returns ParseGroupVersion ToLower klogV v :
  Output v = "" \/ Output v = "json" ->
  exists err s, Run ParseGroupVersion ToLower klogV v = Returned err s.
Proof.
  intros Hout.
  destruct (discover (DiscoveryClient v)) as [[e s0]|[failures s0]] eqn:Hd.
  - unfold Run. rewrite Hd. eauto.
  - destruct (GroupVersionResources (DiscoveryClient v)) as [gvrMap|e] eqn:Hg.
    + destruct (Run_completes ParseGroupVersion ToLower klogV v failures s0 gvrMap
                  Hout Hd Hg) as (s1 & H & _).
      eauto.
    + unfold Run. rewrite Hd, Hg. eauto.
Qed.

(** X14. Validate returns nil exactly when both clients and both writers
    are set and the output format is '' or 'json'; and on options that
    Validate accepts, Run returns (nil or an error): the function value that
    reports the findings is never nil when it is called. *)
Theorem validated_options_run
        (ParseGroupVersion : string -> GroupVersion * option error)
        (ToLower : string -> string) (klogV : Z) (o : Unchecked.Options) :
  (Unchecked.Validate o = None
   <-> is_Some (Unchecked.o_DiscoveryClient o)
       /\ is_Some (Unchecked.o_MetadataClient o)
       /\ Unchecked.o_Stderr o = true /\ Unchecked.o_Stdout o = true
       /\ (Unchecked.o_Output o = "" \/ Unchecked.o_Output o = "json"))
  /\ (Unchecked.Validate o = None ->
      exists v,
        withClients o = Some v
        /\ exists err s, Run ParseGroupVersion ToLower klogV v = Returned err s).
Proof.
  assert (Hiff : Unchecked.Validate o = None
                 <-> is_Some (Unchecked.o_DiscoveryClient o)
                     /\ is_Some (Unchecked.o_MetadataClient o)
                     /\ Unchecked.o_Stderr o = true /\ Unchecked.o_Stdout o = true
                     /\ (Unchecked.o_Output o = "" \/ Unchecked.o_Output o = "json")).
  { unfold Unchecked.Validate.
    destruct (Unchecked.o_DiscoveryClient o) as [d|];
      [|split; [discriminate | intros ([? ?] & _); discriminate]].
    destruct (Unchecked.o_MetadataClient o) as [m|];
      [|split; [discriminate | intros (_ & [? ?] & _); discriminate]].
    destruct (Unchecked.o_Stderr o);
      [|split; [discriminate | intros (_ & _ & ? & _); discriminate]].
    destruct (Unchecked.o_Stdout o);
      [|split; [discriminate | intros (_ & _ & _ & ? & _); discriminate]].
    simpl.
    destruct (String.eqb_spec (Unchecked.o_Output o) "") as [E1|E1]; simpl.
    { split; [|done]. intros _. repeat split; eauto. }
    destruct (String.eqb_spec (Unchecked.o_Output o) "json") as [E2|E2]; simpl.
    { split; [|done]. intros _. repeat split; eauto. }
    split; [discriminate|]. intros (_ & _ & _ & _ & [?|?]); done. }
  split; [exact Hiff|].
  intros H. apply Hiff in H as ([d Hd] & [m Hm] & _ & _ & Hout).
  exists (mkOptions d m (Unchecked.o_Output o)). split.
  - unfold withClients. by rewrite Hd, Hm.
  - by apply Run_returns.
Qed.

(** ** main *)

(** With one of the two output formats Run returns nil exactly when no
    discovery call fails outright. *)
Lemma Run_nil_iff ParseGroupVersion ToLower klogV v :
  Output v = "" \/ Output v = "json" ->
  (exists s, Run ParseGroupVersion ToLower klogV v = Returned None s)
  <-> (forall e, GetAPIGroupResources_err (DiscoveryClient v) <> OtherError e)
      /\ (forall e, ServerPreferredResources_err (DiscoveryClient v) <> OtherError e)
      /\ (forall e, GroupVersionResources (DiscoveryClient v) <> Err e).
Proof.
  intros Hout. split.
  - intros [s H].
    apply Run_returned in H as (failures & s0 & gvrMap & s1 & Hd & Hg & _).
    assert (Hno : ~ exists err s', discover (DiscoveryClient v) = inl (err, s')).
    { intros (err & s' & H'). congruence. }
    rewrite discover_fails_iff in Hno.
    split; [|split].
    + intros e He. apply Hno. left. eauto.
    + intros e He. apply Hno. right. eauto.
    + intros e He. congruence.
  - intros (H1 & H2 & H3).
    destruct (discover (DiscoveryClient v)) as [[e s0]|[failures s0]] eqn:Hd.
    + exfalso.
      assert (Hex : exists err s', discover (DiscoveryClient v) = inl (err, s'))
        by eauto.
      apply discover_fails_iff in Hex as [[e' He]|[e' He]];
        [by apply (H1 e') | by apply (H2 e')].
    + destruct (GroupVersionResources (DiscoveryClient v)) as [gvrMap|e] eqn:Hg;
        [|exfalso; by apply (H3 e)].
      destruct (Run_completes ParseGroupVersion ToLower klogV v failures s0 gvrMap
                  Hout Hd Hg) as (s1 & H & _).
      eauto.
Qed.

(** The options that main gives to Validate pass its first four checks. *)
Lemma main_Validate d m output :
  Unchecked.Validate (Unchecked.mkOptions (Some d) (Some m) output true true)
  = Validate (mkOptions d m output).
Proof. reflexivity. Qed.

(** X15. main never calls Run on options that Validate rejects, so that the
    process never panics on the missing report function; with an output
    format other than '' and 'json' it ends before Run has written anything:
    with the version line, with a fatal flag error, or with status 1. *)
Theorem main_validates_before_running
        (ParseGroupVersion : string -> GroupVersion * option error)
        (ToLower : string -> string) (Version GoVersion : string)
        (float32 : Type) (toFloat32 : Z -> float32) (Loaded : Type)
        (f : Cmd.Flags) (env : Cmd.Env float32 Loaded) :
  let exit := Cmd.main ParseGroupVersion ToLower Version GoVersion float32
                       toFloat32 Loaded f env in
  (forall log, exit <> Cmd.Panic log)
  /\ (Cmd.output f <> "" -> Cmd.output f <> "json" ->
      match exit with
      | Cmd.ExitVersion _ | Cmd.Fatalf _ => True
      | Cmd.ExitError _ s _ => s = initialStreams
      | Cmd.Return _ _ | Cmd.Panic _ => False
      end).
Proof.
  intros exit. subst exit. unfold Cmd.main, Cmd.checkErr.
  destruct (Cmd.version f); [split; [discriminate | done]|].
  destruct (Cmd.burst f <=? 0); [split; [discriminate | done]|].
  destruct (Cmd.qps f <? -1); [split; [discriminate | done]|].
  destruct (Cmd.loadConfig float32 Loaded env) as [[config|e] log];
    [|split; [discriminate | done]].
  destruct (Cmd.NewDiscoveryClientForConfig _ _ env _) as [d|e];
    [|split; [discriminate | done]].
  destruct (Cmd.NewForConfig _ _ env _) as [m|e];
    [|split; [discriminate | done]].
  rewrite main_Validate.
  destruct (Validate (mkOptions d m (Cmd.output f))) as [e|] eqn:HV.
  - split; [discriminate | done].
  - apply Validate_nil in HV. simpl in HV.
    destruct (Run_returns ParseGroupVersion ToLower (Cmd.verbosity f)
                          (mkOptions d m (Cmd.output f)) HV) as (err & s & ->).
    split.
    + destruct err; discriminate.
    + intros H1 H2. destruct HV; contradiction.
Qed.

(** X16. Whether main returns (exit status 0) depends on the flags, on the
    client configuration and on discovery only: it returns exactly when
    [-version] is not set, the burst is positive and the qps at least -1, the
    configuration loads and both clients are built from it with these rates,
    the output format is '' or 'json', and no discovery call fails outright.
    Neither a failed listing nor a finding changes the exit status. *)
Theorem main_exit_ignores_findings
        (ParseGroupVersion : string -> GroupVersion * option error)
        (ToLower : string -> string) (Version GoVersion : string)
        (float32 : Type) (toFloat32 : Z -> float32) (Loaded : Type)
        (f : Cmd.Flags) (env : Cmd.Env float32 Loaded) :
  (exists log s,
      Cmd.main ParseGroupVersion ToLower Version GoVersion float32 toFloat32 Loaded
               f env = Cmd.Return log s)
  <-> Cmd.version f = false /\ 0 < Cmd.burst f /\ -1 <= Cmd.qps f
      /\ exists loaded d m,
          (Cmd.loadConfig float32 Loaded env).1 = Ok loaded
          /\ (let config :=
                Cmd.mkConfig float32 Loaded (Cmd.cfg_Loaded _ _ loaded) (Cmd.burst f)
                             (toFloat32 (Cmd.qps f)) Cmd.NoWarnings
                             "application/vnd.kubernetes.protobuf,application/json" in
              Cmd.NewDiscoveryClientForConfig _ _ env config = Ok d
              /\ Cmd.NewForConfig _ _ env config = Ok m)
          /\ (Cmd.output f = "" \/ Cmd.output f = "json")
          /\ (forall e, GetAPIGroupResources_err d <> OtherError e)
          /\ (forall e, ServerPreferredResources_err d <> OtherError e)
          /\ (forall e, GroupVersionResources d <> Err e).
Proof.
  unfold Cmd.main, Cmd.checkErr.
  destruct (Cmd.version f);
    [split; [intros (? & ? & ?); discriminate | intros (? & _); discriminate]|].
  destruct (Z.leb_spec (Cmd.burst f) 0);
    [split; [intros (? & ? & ?); discriminate | intros (_ & ? & _); lia]|].
  destruct (Z.ltb_spec (Cmd.qps f) (-1));
    [split; [intros (? & ? & ?); discriminate | intros (_ & _ & ? & _); lia]|].
  destruct (Cmd.loadConfig float32 Loaded env) as [[config|e] log]; simpl;
    [|split; [intros (? & ? & ?); discriminate
             | intros (_ & _ & _ & ? & ? & ? & ? & _); discriminate]].
  destruct (Cmd.NewDiscoveryClientForConfig _ _ env _) as [d|e] eqn:Hd;
    [|split; [intros (? & ? & ?); discriminate
             | intros (_ & _ & _ & c & ? & ? & Hc & [Hd' _] & _);
               injection Hc as <-; congruence]].
  destruct (Cmd.NewForConfig _ _ env _) as [m|e] eqn:Hm;
    [|split; [intros (? & ? & ?); discriminate
             | intros (_ & _ & _ & c & ? & ? & Hc & [_ Hm'] & _);
               injection Hc as <-; congruence]].
  rewrite main_Validate.
  destruct (Validate (mkOptions d m (Cmd.output f))) as [e|] eqn:HV.
  - split; [intros (? & ? & ?); discriminate|].
    intros (_ & _ & _ & c & d' & m' & _ & _ & Hout & _).
    apply (Validate_nil (mkOptions d m (Cmd.output f))) in Hout. congruence.
  - apply Validate_nil in HV. simpl in HV.
    pose proof (Run_nil_iff ParseGroupVersion ToLower (Cmd.verbosity f)
                            (mkOptions d m (Cmd.output f)) HV) as Hnil.
    simpl in Hnil. split.
    + intros (log' & s & H2).
      do 3 (split; [reflexivity || lia|]).
      exists config, d, m. split; [reflexivity|]. split; [by split|].
      split; [exact HV|]. apply Hnil.
      destruct (Run _ _ _ _) as [[err|] s'|]; try discriminate. eauto.
    + intros (_ & _ & _ & c & d' & m' & Hc & [Hd' Hm'] & _ & Hdisc).
      injection Hc as <-. rewrite Hd in Hd'. injection Hd' as <-.
      apply Hnil in Hdisc as [s Hs]. rewrite Hs. eauto.
Qed.

(** ** Where the warnings come from *)

Section WarningFacts.

Variable ParseGroupVersion : string -> GroupVersion * option error.
Variable ToLower : string -> string.
Variable mapper : RESTMapper.
Variable failures : gmap GroupVersion error.
Variable listErrs : gmap GroupResource error.
Variable byUID' : gmap string (list PartialObjectMetadata).

(** A verdict is a Warning only for a recorded discovery failure of the
    owner's group/version or a recorded list failure of the owner's
    resource. *)
Lemma verdict_warning child ownerRef msg :
  Spec.verdict ParseGroupVersion ToLower mapper failures listErrs byUID'
               child ownerRef = Some (levelWarning, msg) ->
  (exists e, failures !! Spec.ownerGV ParseGroupVersion ownerRef = Some e
             /\ msg = "failed resolving resources for " +:+ or_APIVersion ownerRef
                        +:+ ": " +:+ e)
  \/ (exists mapping e,
         Spec.resolved ParseGroupVersion mapper ownerRef = Ok mapping
         /\ listErrs !! GVR_GroupResource (mapping_Resource mapping) = Some e
         /\ msg = "could not list parent resource "
                    +:+ GroupResource_String
                          (GVR_GroupResource (mapping_Resource mapping))).
Proof.
  unfold Spec.verdict, Spec.orderedChecks, Spec.parseCheck, Spec.resolveCheck,
    Spec.scopeCheck, Spec.existenceCheck, Spec.crossCheckVerdict.
  intros H.
  destruct (ParseGroupVersion (or_APIVersion ownerRef)).2;
    [simplify_eq/=|].
  destruct (Spec.resolved ParseGroupVersion mapper ownerRef) as [m|e] eqn:HM.
  2:{ destruct (failures !! _) as [e'|] eqn:HF; simplify_eq/=. left. eauto. }
  destruct (mapping_Scope m), (isEmpty (Namespace child));
    try (simplify_eq/=; fail).
  all: destruct (Spec.bucket byUID' ownerRef) as [|a l];
    [destruct (listErrs !! _) as [e'|] eqn:HL; simplify_eq/=; right; eauto|].
  all: destruct (existsb (Spec.namespaceAspect child) (a :: l));
    [|simplify_eq/=].
  all: destruct (existsb (Spec.nameAspect ownerRef) (a :: l));
    [|simplify_eq/=].
  all: destruct (existsb _ (a :: l)); simplify_eq/=.
Qed.

End WarningFacts.

(** X17. A Warning finding is emitted only for an owner whose group/version
    has a recorded discovery failure, or in a run where the listing of some
    enumerated resource type failed.  So in a run where both discovery calls
    report no failed group and every listing succeeds, every finding is an
    Error. *)
Theorem warnings_need_a_recorded_failure
        (ParseGroupVersion : string -> GroupVersion * option error)
        (ToLower : string -> string) (klogV : Z)
        (v : VerifyGCOptions) (s : Streams) :
  Run ParseGroupVersion ToLower klogV v = Returned None s ->
  let d := DiscoveryClient v in
  (forall f,
      f ∈ emitted s -> f_level f = levelWarning ->
      is_Some (Spec.recordedDiscoveryFailures d
                 !! (ParseGroupVersion (or_APIVersion (f_ownerRef f))).1)
      \/ (exists gvr, gvr ∈ Spec.resourceTypes d
                      /\ is_Some (Spec.listingError (MetadataClient v gvr))))
  /\ (Spec.recordedDiscoveryFailures d = ∅ ->
      Spec.failedListings (MetadataClient v) (Spec.resourceTypes d) = [] ->
      forall f, f ∈ emitted s -> f_level f = levelError).
Proof.
  intros H d.
  destruct (Run_returned _ _ _ _ _ H) as (failures & s0 & gvrMap & s1 & Hd & Hg & _ & _).
  rewrite (Run_emitted _ _ _ _ _ _ _ _ Hd Hg H).
  apply discover_spec in Hd as (-> & _).
  set (fetched := fetchAll klogV (restMapper (DiscoveryClient v)) (MetadataClient v)
                           (catalog gvrMap) (emptyFetch s0)).
  unfold Spec.resourceTypes. subst d. rewrite Hg.
  assert (Hwarn : forall f,
             f ∈ Spec.findingsOfRun ParseGroupVersion ToLower
                   (restMapper (DiscoveryClient v))
                   (Spec.recordedDiscoveryFailures (DiscoveryClient v))
                   (grListErrors fetched) (byUID fetched)
                   (MetadataClient v) (catalog gvrMap) ->
             (f_level f = levelError \/ f_level f = levelWarning)
             /\ (f_level f = levelWarning ->
                 is_Some (Spec.recordedDiscoveryFailures (DiscoveryClient v)
                            !! (ParseGroupVersion (or_APIVersion (f_ownerRef f))).1)
                 \/ (exists gvr, gvr ∈ catalog gvrMap
                                 /\ is_Some (Spec.listingError (MetadataClient v gvr))))).
  { intros f Hf. unfold Spec.findingsOfRun in Hf.
    apply elem_of_flat_map in Hf as (gvr & Hgvr & Hf).
    apply elem_of_flat_map in Hf as (child & Hchild & Hf).
    unfold Spec.findingsOfChild in Hf.
    apply elem_of_flat_map in Hf as (ownerRef & Href & Hf).
    unfold Spec.findingsOfRef in Hf.
    destruct (Spec.verdict _ _ _ _ _ _ _ _) as [[level msg]|] eqn:Hv;
      [|by apply not_elem_of_nil in Hf].
    apply list_elem_of_singleton in Hf as ->. simpl.
    split; [eapply verdict_level; exact Hv|].
    intros ->. apply verdict_warning in Hv as [(e & He & _)|(mapping & e & _ & He & _)].
    - left. unfold Spec.ownerGV in He. eauto.
    - right.
      destruct (fetchAll_spec klogV (restMapper (DiscoveryClient v)) (MetadataClient v)
                  (catalog gvrMap) (emptyFetch s0)) as (F & _).
      fold fetched in F.
      assert (Hs : is_Some (grListErrors fetched
                              !! GVR_GroupResource (mapping_Resource mapping))) by eauto.
      apply F in Hs as [Hs|(g & Hin & _ & Hfail)].
      + simpl in Hs. rewrite lookup_empty in Hs. by destruct Hs.
      + eauto. }
  split.
  - intros f Hf Hlevel. by apply Hwarn.
  - intros Hnone Hlist f Hf. destruct (Hwarn f Hf) as [[Hl|Hl] Hw]; [exact Hl|].
    exfalso. destruct (Hw Hl) as [Hs|(gvr & Hin & Hfail)].
    + rewrite Hnone, lookup_empty in Hs. by destruct Hs.
    + assert (Hmem : gvr ∈ Spec.failedListings (MetadataClient v) (catalog gvrMap)).
      { unfold Spec.failedListings. apply list_elem_of_filter. by split. }
      rewrite Hlist in Hmem. by apply not_elem_of_nil in Hmem.
Qed.

Lemma warnings_need_a_recorded_failure_witness :
  Forall (fun f => f_level f = levelError)
         (emitted (Scenarios.finalStreams (Scenarios.run 3 (Scenarios.mismatchedKind "")))).
Proof.
  apply Forall_forall.
  destruct (warnings_need_a_recorded_failure
              Scenarios.ParseGroupVersion Scenarios.ToLower 3
              (Scenarios.mismatchedKind "")
              (Scenarios.finalStreams (Scenarios.run 3 (Scenarios.mismatchedKind ""))))
    as [_ H].
  - vm_compute. reflexivity.
  - apply H; vm_compute; reflexivity.
Defined.

(** ** The order in which a map is ranged over *)

(** X18. Go leaves open in which order the loop over the failed groups of a
    discovery error visits them.  Whatever the order, the loop records the
    same failures and counts the same number of warnings, and it writes the
    same notices, in the order of the visit: one for each failed group/version
    that was not recorded before. *)
Theorem discovery_pass_order_independent
        (Groups : gmap GroupVersion error) (visit : list (GroupVersion * error))
        (m : gmap GroupVersion error) (s : Streams) :
  visit ≡ₚ map_to_list Groups ->
  let st := tolerateDiscoveryFailure visit (m, s) in
  st.1 = m ∪ Groups
  /\ st.1 = (tolerateDiscoveryFailure (map_to_list Groups) (m, s)).1
  /\ warningCount st.2
     = warningCount (tolerateDiscoveryFailure (map_to_list Groups) (m, s)).2
  /\ errorCount st.2 = errorCount s
  /\ Stdout st.2 = Stdout s
  /\ Stderr st.2
     = Stderr s
         ++ map Spec.discoveryNotice (filter (fun entry => m !! entry.1 = None) visit)
  /\ Stderr st.2 ≡ₚ Stderr (tolerateDiscoveryFailure (map_to_list Groups) (m, s)).2.
Proof.
  intros Hp st.
  assert (Hnd : NoDup visit.*1).
  { rewrite Hp. apply NoDup_fst_map_to_list. }
  destruct (tolerateDiscoveryFailure_spec visit m s Hnd)
    as (A1 & A2 & A3 & _ & A5 & _ & A7).
  destruct (tolerateDiscoveryFailure_spec (map_to_list Groups) m s
              (NoDup_fst_map_to_list _)) as (B1 & _ & B3 & _ & _ & _ & B7).
  fold st in A1, A2, A3, A5, A7.
  assert (Hmap : (list_to_map visit : gmap GroupVersion error) = Groups).
  { rewrite (list_to_map_proper visit (map_to_list Groups) Hnd Hp).
    apply list_to_map_to_list. }
  split; [by rewrite A1, Hmap|].
  split; [by rewrite A1, B1, Hmap, list_to_map_to_list|].
  split; [by rewrite A3, B3, Hp|].
  split; [exact A2|]. split; [exact A5|]. split; [exact A7|].
  by rewrite A7, B7, Hp.
Qed.

Lemma discovery_pass_order_independent_witness :
  (tolerateDiscoveryFailure
     [ (mkGV "b" "v1", "second"); (mkGV "a" "v1", "first") ]
     (∅, initialStreams)).1
  = {[ mkGV "a" "v1" := "first" ]} ∪ {[ mkGV "b" "v1" := "second" ]}.
Proof.
  destruct (discovery_pass_order_independent
              ({[ mkGV "a" "v1" := "first" ]} ∪ {[ mkGV "b" "v1" := "second" ]})
              [ (mkGV "b" "v1", "second"); (mkGV "a" "v1", "first") ]
              ∅ initialStreams) as (H & _).
  - apply NoDup_Permutation.
    + apply (bool_decide_unpack _). vm_compute. exact I.
    + apply NoDup_map_to_list.
    + intros [gv e]. rewrite elem_of_map_to_list.
      rewrite !elem_of_cons, elem_of_nil.
      rewrite lookup_union_Some_raw, !lookup_singleton_Some, lookup_singleton_None.
      split.
      * intros [H|[H|[]]]; injection H as -> ->; [right|left]; done.
      * intros [[<- <-]|[_ [<- <-]]]; auto.
  - rewrite H. by rewrite (left_id_L ∅ (∪)).
Defined.

(** ** The verbosity *)

Section VerbosityFacts.

Variable ParseGroupVersion : string -> GroupVersion * option error.
Variable ToLower : string -> string.

Lemma eachItem_same gvr gvk items st1 st2 :
  sameFetch st1 st2 ->
  sameFetch (fold_left (eachItem gvr gvk) items st1)
            (fold_left (eachItem gvr gvk) items st2).
Proof.
  revert st1 st2. induction items as [|o items IH]; intros st1 st2 H; [exact H|].
  simpl. apply IH. destruct H as (H1 & H2 & H3 & H4).
  unfold eachItem, sameFetch. simpl. by rewrite H1, H2, H3, H4.
Qed.

Lemma listed_same k1 k2 items st1 st2 :
  sameFetch st1 st2 -> sameFetch (listed k1 items st1) (listed k2 items st2).
Proof.
  intros (H1 & H2 & H3 & H4). unfold listed, sameFetch.
  destruct (3 <=? k1), (3 <=? k2); simpl; done.
Qed.

Lemma eachListItem_same k1 k2 gvr gvk answers st1 st2 :
  sameFetch st1 st2 ->
  sameFetch (eachListItem k1 gvr gvk answers st1)
            (eachListItem k2 gvr gvk answers st2).
Proof.
  revert st1 st2.
  induction answers as [items|items more IH|err]; intros st1 st2 H; simpl.
  - by apply eachItem_same, listed_same.
  - by apply IH, eachItem_same, listed_same.
  - destruct H as (H1 & H2 & H3 & H4). unfold listFailed, sameFetch. simpl.
    rewrite H1, H2, H3. repeat split.
    unfold Spec.quiet in *. injection H4 as He Hw Hi Ho Hf. simpl.
    by rewrite He, Hw, Hi, Ho, Hf.
Qed.

Lemma fetchAll_same k1 k2 mapper client gvrs st1 st2 :
  sameFetch st1 st2 ->
  sameFetch (fetchAll k1 mapper client gvrs st1) (fetchAll k2 mapper client gvrs st2).
Proof.
  unfold fetchAll. revert st1 st2.
  induction gvrs as [|gvr gvrs IH]; intros st1 st2 H; [exact H|].
  simpl. apply IH. unfold fetchResource. apply eachListItem_same.
  destruct H as (H1 & H2 & H3 & H4).
  destruct (2 <=? k1), (2 <=? k2); unfold sameFetch; simpl; done.
Qed.

(** Validation neither reads nor writes stderr. *)
Lemma forEach_quiet {A : Type} (body : A -> Streams -> option Streams) (l : list A) :
  (forall x s, body x (Spec.quiet s) = Spec.quiet <$> body x s) ->
  forall s, forEach body l (Spec.quiet s) = Spec.quiet <$> forEach body l s.
Proof.
  intros Hbody. induction l as [|x l IH]; intros s; simpl; [reflexivity|].
  rewrite Hbody. destruct (body x s) as [s1|]; simpl; [apply IH | reflexivity].
Qed.

Lemma validateAll_quiet mapper failures listErrs byGVR' byUID' output gvrs s :
  validateAll ParseGroupVersion ToLower mapper failures listErrs byGVR' byUID'
              (outputRefMessage output) gvrs (Spec.quiet s)
  = Spec.quiet <$> validateAll ParseGroupVersion ToLower mapper failures listErrs
                               byGVR' byUID' (outputRefMessage output) gvrs s.
Proof.
  unfold validateAll. apply forEach_quiet. intros gvr s0. unfold validateResource.
  rewrite forEach_quiet.
  - by destruct (forEach _ _ s0).
  - intros child s1. unfold validateChild. apply forEach_quiet.
    intros ownerRef s2. rewrite !validateOwnerRef_call.
    destruct (Spec.verdict _ _ _ _ _ _ _ _) as [[level msg]|]; [|reflexivity].
    unfold outputRefMessage, callRefMessage.
    destruct (String.eqb output ""); [|destruct (String.eqb output "json")];
      simpl; try reflexivity.
    unfold tabularRefMessage. destruct s2 as [e w [|] out err fs];
      destruct (String.eqb level levelError); reflexivity.
Qed.

Lemma summarize_quiet s1 s2 :
  Spec.quiet s1 = Spec.quiet s2 ->
  Spec.quiet (summarize s1) = Spec.quiet (summarize s2)
  /\ last (Stderr (summarize s1)) = last (Stderr (summarize s2)).
Proof.
  intros H. unfold Spec.quiet in H. injection H as He Hw Hi Ho Hf.
  unfold summarize. rewrite He, Hw.
  destruct (_ || _); simpl; rewrite !last_snoc; unfold Spec.quiet; simpl;
    by rewrite He, Hw, Hi, Ho, Hf.
Qed.

End VerbosityFacts.

Lemma gotLine_sublist k1 k2 items :
  k1 <= k2 -> Spec.gotLine k1 items `sublist_of` Spec.gotLine k2 items.
Proof.
  intros H. unfold Spec.gotLine.
  destruct (Z.leb_spec 3 k1), (Z.leb_spec 3 k2); try lia;
    [reflexivity | apply sublist_nil_l | reflexivity].
Qed.

Lemma fetchLog_sublist k1 k2 client gvr :
  k1 <= k2 -> Spec.fetchLog k1 client gvr `sublist_of` Spec.fetchLog k2 client gvr.
Proof.
  intros H. unfold Spec.fetchLog. apply sublist_app.
  - destruct (Z.leb_spec 2 k1), (Z.leb_spec 2 k2); try lia;
      [reflexivity | apply sublist_nil_l | reflexivity].
  - induction (client gvr) as [items|items more IH|err]; simpl.
    + by apply gotLine_sublist.
    + apply sublist_app; [by apply gotLine_sublist | exact IH].
    + reflexivity.
Qed.

Lemma flat_map_sublist {A B : Type} (f g : A -> list B) (l : list A) :
  (forall x, f x `sublist_of` g x) -> flat_map f l `sublist_of` flat_map g l.
Proof.
  intros H. induction l as [|x l IH]; [reflexivity|].
  simpl. by apply sublist_app.
Qed.

(** X19. The verbosity changes what a run writes to stderr and nothing else:
    at any two verbosities Run ends in the same way (it returns the same
    error, or nil, or panics), with the same counters, the same findings, the
    same output on stdout and the same last line on stderr; and the stderr of
    the lower verbosity is that of the higher one with lines left out. *)
Theorem verbosity_only_changes_stderr
        (ParseGroupVersion : string -> GroupVersion * option error)
        (ToLower : string -> string) (k1 k2 : Z) (v : VerifyGCOptions) :
  match Run ParseGroupVersion ToLower k1 v, Run ParseGroupVersion ToLower k2 v with
  | Returned err1 s1, Returned err2 s2 =>
      err1 = err2
      /\ errorCount s1 = errorCount s2 /\ warningCount s1 = warningCount s2
      /\ Stdout s1 = Stdout s2 /\ emitted s1 = emitted s2
      /\ last (Stderr s1) = last (Stderr s2)
      /\ (k1 <= k2 -> Stderr s1 `sublist_of` Stderr s2)
  | Panicked, Panicked => True
  | _, _ => False
  end.
Proof.
  unfold Run.
  destruct (discover (DiscoveryClient v)) as [[e s0]|[failures s0]] eqn:Hd;
    [by repeat split|].
  destruct (GroupVersionResources (DiscoveryClient v)) as [gvrMap|e];
    [|by repeat split].
  set (mapper := restMapper (DiscoveryClient v)).
  set (f1 := fetchAll k1 mapper (MetadataClient v) (catalog gvrMap) (emptyFetch s0)).
  set (f2 := fetchAll k2 mapper (MetadataClient v) (catalog gvrMap) (emptyFetch s0)).
  assert (Hsame : sameFetch f1 f2) by (by apply fetchAll_same).
  destruct Hsame as (H1 & H2 & H3 & H4). rewrite <- H1, <- H2, <- H3.
  pose proof (validateAll_quiet ParseGroupVersion ToLower mapper failures
                (grListErrors f1) (byGVR f1) (byUID f1) (Output v)
                (catalog gvrMap) (fetchOut f1)) as Q1.
  pose proof (validateAll_quiet ParseGroupVersion ToLower mapper failures
                (grListErrors f1) (byGVR f1) (byUID f1) (Output v)
                (catalog gvrMap) (fetchOut f2)) as Q2.
  rewrite H4 in Q1. rewrite Q1 in Q2.
  destruct (validateAll _ _ _ _ _ _ _ _ _ (fetchOut f1)) as [s1|] eqn:E1;
    destruct (validateAll _ _ _ _ _ _ _ _ _ (fetchOut f2)) as [s2|] eqn:E2;
    simpl in Q2; try discriminate; [|exact I].
  assert (Q : Spec.quiet s1 = Spec.quiet s2) by congruence.
  destruct (summarize_quiet s1 s2 Q) as [Hq Hlast].
  unfold Spec.quiet in Hq. injection Hq as He Hw _ Ho Hf.
  split; [reflexivity|]. do 4 (split; [assumption|]). split; [exact Hlast|].
  intros Hk.
  apply validateAll_frame in E1 as (V1 & _). apply validateAll_frame in E2 as (V2 & _).
  destruct (summarize_spec s1) as (_ & _ & _ & _ & line1 & L1 & _).
  destruct (summarize_spec s2) as (_ & _ & _ & _ & line2 & L2 & _).
  rewrite L1, L2 in Hlast. rewrite !last_snoc in Hlast. injection Hlast as ->.
  rewrite L1, L2, V1, V2. subst f1 f2. rewrite !fetchAll_Stderr.
  apply sublist_app; [|reflexivity]. apply sublist_app; [reflexivity|].
  apply flat_map_sublist. intros gvr. by apply fetchLog_sublist.
Qed.

(** ** The type of the indexed objects *)

Lemma GroupVersion_String_empty gv :
  GroupVersion_String gv = "" -> gv_Group gv = "" /\ gv_Version gv = "".
Proof.
  unfold GroupVersion_String.
  destruct (isEmpty (gv_Group gv)) eqn:E.
  - apply isEmpty_true in E. auto.
  - destruct (gv_Group gv); discriminate.
Qed.

Lemma backfill_typed gvk item :
  GVK_Empty gvk = false ->
  ~ (APIVersion (backfill gvk item) = "" /\ Kind (backfill gvk item) = "").
Proof.
  intros Hne [H1 H2]. unfold backfill in *.
  destruct (isEmpty (APIVersion item) && isEmpty (Kind item) && negb (GVK_Empty gvk))
    eqn:E; simpl in *.
  - apply GroupVersion_String_empty in H1 as [Hg Hv]. simpl in Hg, Hv.
    unfold GVK_Empty in Hne. by rewrite Hg, Hv, H2 in Hne.
  - rewrite H1, H2, Hne in E. discriminate.
Qed.

(** X20. When the mapper knows the kind of a resource type, no object
    indexed under that type is left with both apiVersion and kind empty, and
    filling the two fields in a second time changes nothing: an indexed
    object lacks both only where the kind of its type is unknown. *)
Theorem indexed_objects_are_typed
        (klogV : Z) (mapper : RESTMapper) (client : GroupVersionResource -> Listing)
        (gvrMap : gset GroupVersionResource) (s0 : Streams)
        (gvr : GroupVersionResource) (o : PartialObjectMetadata) :
  let gvk := (mapper_KindFor mapper gvr).1 in
  let fetched := fetchAll klogV mapper client (catalog gvrMap) (emptyFetch s0) in
  o ∈ default [] (byGVR fetched !! gvr) ->
  backfill gvk o = o
  /\ (GVK_Empty gvk = false -> ~ (APIVersion o = "" /\ Kind o = "")).
Proof.
  intros gvk fetched Ho.
  destruct (indexes_agree_aux klogV mapper client gvrMap s0 gvr o Ho) as [Hg Hin].
  apply list_elem_of_fmap in Hin as (item & -> & _). fold gvk. split.
  - unfold backfill at 1.
    destruct (isEmpty (APIVersion (backfill gvk item))
              && isEmpty (Kind (backfill gvk item)) && negb (GVK_Empty gvk)) eqn:E;
      [|reflexivity].
    exfalso. apply andb_true_iff in E as [E E3]. apply andb_true_iff in E as [E1 E2].
    apply isEmpty_true in E1, E2. apply negb_true_iff in E3.
    by apply (backfill_typed gvk item E3).
  - intros Hne. by apply backfill_typed.
Qed.

Lemma indexed_objects_are_typed_witness :
  backfill (mkGVK "" "v1" "Node") Scenarios.node1 = Scenarios.node1
  /\ ~ (APIVersion Scenarios.node1 = "" /\ Kind Scenarios.node1 = "").
Proof.
  destruct (indexed_objects_are_typed
              3 (Scenarios.tableMapper Scenarios.v1Resources)
              (MetadataClient (Scenarios.bare ""))
              (list_to_set (map Scenarios.resourceGVR Scenarios.v1Resources))
              initialStreams Scenarios.nodes Scenarios.node1) as [H1 H2].
  - vm_compute. apply list_elem_of_here.
  - split; [exact H1|]. apply H2. reflexivity.
Defined.

(** ** The counts that pluralize prints *)

Lemma append_assoc (a b c : string) : (a +:+ b) +:+ c = a +:+ (b +:+ c).
Proof.
  induction a as [|x a IH]; [reflexivity|].
  change (String x ((a +:+ b) +:+ c) = String x (a +:+ (b +:+ c))).
  by rewrite IH.
Qed.

Lemma beforeSpace_append a rest :
  noSpace a = true -> Spec.beforeSpace (a +:+ " " +:+ rest) = a.
Proof.
  induction a as [|c a IH]; intros H; [reflexivity|].
  simpl in *. apply andb_true_iff in H as [Hc Ha].
  apply negb_true_iff in Hc. rewrite Hc. by rewrite IH.
Qed.

Lemma string_of_uint_noSpace d : noSpace (NilEmpty.string_of_uint d) = true.
Proof. induction d; simpl; auto. Qed.

Lemma itoa_noSpace n : noSpace (itoa n) = true.
Proof.
  unfold itoa, NilZero.string_of_int, NilZero.string_of_uint.
  destruct (Z.to_int n) as [d|d]; destruct d; simpl;
    try reflexivity; apply string_of_uint_noSpace.
Qed.

Lemma itoa_read n : Z.of_int <$> NilZero.int_of_string (itoa n) = Some n.
Proof.
  unfold itoa. rewrite NilZero.isi.
  - simpl. f_equal. apply DecimalZ.of_to.
  - destruct n; simpl; try discriminate.
    intros H. injection H as H. by apply DecimalPos.Unsigned.to_uint_nonnil in H.
  - destruct n; simpl; try discriminate.
    intros H. injection H as H. by apply DecimalPos.Unsigned.to_uint_nonnil in H.
Qed.

(** X21. The count that pluralize prints can be read back: for every int,
    negative ones included, the characters before the first space of the
    result are the decimal form of the count, whatever the noun and whatever
    follows.  So the first count of the summary line is the error counter. *)
Theorem pluralize_count_reads_back (n : Z) (singular plural rest : string) :
  Spec.readCount (pluralize n singular plural +:+ rest) = Some n
  /\ forall s,
      Spec.readCount
        (pluralize (errorCount s) "error" "errors" +:+ ", "
           +:+ pluralize (warningCount s) "warning" "warnings" +:+ nl)
      = Some (errorCount s).
Proof.
  assert (H : forall m a b r, Spec.readCount (pluralize m a b +:+ r) = Some m).
  { intros m a b r. unfold Spec.readCount, pluralize.
    destruct (m =? 1).
    - replace ((itoa m +:+ " " +:+ a) +:+ r) with (itoa m +:+ " " +:+ (a +:+ r))
        by (by rewrite !append_assoc).
      rewrite beforeSpace_append by apply itoa_noSpace. apply itoa_read.
    - replace ((itoa m +:+ " " +:+ b) +:+ r) with (itoa m +:+ " " +:+ (b +:+ r))
        by (by rewrite !append_assoc).
      rewrite beforeSpace_append by apply itoa_noSpace. apply itoa_read. }
  split; [apply H|]. intros s.
  pose proof (H (errorCount s) "error" "errors"
                (", " +:+ pluralize (warningCount s) "warning" "warnings" +:+ nl)) as Hs.
  exact Hs.
Qed.

(** ** normalize *)

Section TrimFacts.

Import Testing.

Lemma hasPrefix_app e r : hasPrefix e (e ++ r) = true.
Proof.
  induction e as [|a e IH]; [reflexivity|]. simpl.
  by rewrite Ascii.eqb_refl.
Qed.

Lemma hasPrefix_inv e s : hasPrefix e s = true -> s = e ++ drop (length e) s.
Proof.
  revert s. induction e as [|a e IH]; intros [|b s] H; try done.
  simpl in H. apply andb_true_iff in H as [H1 H2].
  apply Ascii.eqb_eq in H1 as ->. simpl. f_equal. by apply IH.
Qed.

Lemma stripOne_Some ws s r :
  stripOne ws s = Some r -> exists e, e ∈ ws /\ s = e ++ r.
Proof.
  unfold stripOne. destruct (List.find _ ws) as [e|] eqn:E; [|discriminate].
  intros H. injection H as <-. apply find_some in E as [Hin Hp].
  exists e. split; [by apply list_elem_of_In | by apply hasPrefix_inv].
Qed.

Lemma stripOne_None ws s : stripOne ws s = None <-> leftFixed ws s.
Proof.
  unfold stripOne, leftFixed. split.
  - destruct (List.find _ ws) as [e|] eqn:E; [discriminate|].
    intros _ e He.
    pose proof (find_none _ _ E e) as H.
    apply H. by apply list_elem_of_In.
  - intros H. destruct (List.find _ ws) as [e|] eqn:E; [|reflexivity].
    apply find_some in E as [Hin Hp]. rewrite H in Hp; [discriminate|].
    by apply list_elem_of_In.
Qed.

Lemma trimLeftN_fixed ws n s :
  (forall e, e ∈ ws -> e <> []) -> (length s <= n)%nat ->
  leftFixed ws (trimLeftN ws n s).
Proof.
  intros Hne. revert s. induction n as [|n IH]; intros s Hlen; simpl.
  - destruct s; [|simpl in Hlen; lia].
    intros e He. specialize (Hne e He). by destruct e.
  - destruct (stripOne ws s) as [r|] eqn:E; [|by apply stripOne_None].
    apply IH. apply stripOne_Some in E as (e & He & ->).
    specialize (Hne e He). rewrite length_app in Hlen.
    destruct e; [done|]. simpl in Hlen. lia.
Qed.

Lemma trimLeftN_id ws n s : leftFixed ws s -> trimLeftN ws n s = s.
Proof.
  intros H. apply stripOne_None in H. destruct n; simpl; [reflexivity|].
  by rewrite H.
Qed.

(** What is trimmed off is a sequence of white space characters. *)
Lemma trimLeftN_split ws n s :
  exists es, Forall (fun e => e ∈ ws) es /\ s = concat es ++ trimLeftN ws n s.
Proof.
  revert s. induction n as [|n IH]; intros s; simpl.
  - exists []. split; [constructor | reflexivity].
  - destruct (stripOne ws s) as [r|] eqn:E.
    + apply stripOne_Some in E as (e & He & ->).
      destruct (IH r) as (es & Hes & Hr).
      exists (e :: es). split; [by constructor|].
      simpl. rewrite <- app_assoc. by rewrite <- Hr.
    + exists []. split; [constructor | reflexivity].
Qed.

Lemma reverse_concat (l : list (list ascii)) :
  reverse (concat l) = concat (reverse (reverse <$> l)).
Proof.
  induction l as [|x l IH]; [reflexivity|].
  rewrite fmap_cons, reverse_cons, concat_app, concat_cons, reverse_app, IH.
  simpl. by rewrite app_nil_r.
Qed.

Lemma reverse_fmap_involutive (ws : list (list ascii)) :
  reverse <$> (reverse <$> ws) = ws.
Proof.
  induction ws as [|e ws IH]; [reflexivity|].
  rewrite !fmap_cons, reverse_involutive. by rewrite IH.
Qed.

Lemma elem_of_reverse_fmap (ws : list (list ascii)) e :
  e ∈ reverse <$> ws <-> reverse e ∈ ws.
Proof.
  rewrite list_elem_of_fmap. split.
  - intros (x & -> & Hx). by rewrite reverse_involutive.
  - intros H. exists (reverse e). by rewrite reverse_involutive.
Qed.

Lemma nonempty_reverse_fmap (ws : list (list ascii)) :
  (forall e, e ∈ ws -> e <> []) -> forall e, e ∈ reverse <$> ws -> e <> [].
Proof.
  intros H e He ->. apply elem_of_reverse_fmap in He. by apply (H _ He).
Qed.

Lemma TrimLeft_fixed ws s :
  (forall e, e ∈ ws -> e <> []) -> leftFixed ws (TrimLeft ws s).
Proof. intros H. by apply trimLeftN_fixed. Qed.

Lemma TrimLeft_id ws s : leftFixed ws s -> TrimLeft ws s = s.
Proof. apply trimLeftN_id. Qed.

Lemma TrimLeft_split ws s :
  exists es, Forall (fun e => e ∈ ws) es /\ s = concat es ++ TrimLeft ws s.
Proof. apply trimLeftN_split. Qed.

Lemma TrimRight_fixed ws s :
  (forall e, e ∈ ws -> e <> []) -> rightFixed ws (TrimRight ws s).
Proof.
  intros H. unfold rightFixed, TrimRight. rewrite reverse_involutive.
  apply TrimLeft_fixed. by apply nonempty_reverse_fmap.
Qed.

Lemma TrimRight_id ws s : rightFixed ws s -> TrimRight ws s = s.
Proof.
  intros H. unfold TrimRight. rewrite TrimLeft_id by exact H.
  apply reverse_involutive.
Qed.

Lemma TrimRight_split ws s :
  exists es, Forall (fun e => e ∈ ws) es /\ s = TrimRight ws s ++ concat es.
Proof.
  destruct (TrimLeft_split (reverse <$> ws) (reverse s)) as (es & Hes & Hs).
  exists (reverse (reverse <$> es)). split.
  - apply Forall_reverse. apply Forall_fmap. eapply Forall_impl; [exact Hes|].
    intros e He. simpl. by apply elem_of_reverse_fmap.
  - unfold TrimRight. rewrite <- reverse_concat, <- reverse_app, <- Hs.
    by rewrite reverse_involutive.
Qed.

Lemma TrimLeft_reverse ws s :
  TrimLeft ws s = reverse (TrimRight (reverse <$> ws) (reverse s)).
Proof.
  unfold TrimRight. by rewrite reverse_fmap_involutive, !reverse_involutive.
Qed.

Lemma hasPrefix_app_l e s q : hasPrefix e s = true -> hasPrefix e (s ++ q) = true.
Proof.
  intros H. apply hasPrefix_inv in H. rewrite H, <- app_assoc.
  apply hasPrefix_app.
Qed.

Lemma leftFixed_prefix ws s q : leftFixed ws (s ++ q) -> leftFixed ws s.
Proof.
  intros H e He. specialize (H e He).
  destruct (hasPrefix e s) eqn:E; [|reflexivity].
  by rewrite (hasPrefix_app_l e s q E) in H.
Qed.

Lemma rightFixed_suffix ws p s : rightFixed ws (p ++ s) -> rightFixed ws s.
Proof.
  unfold rightFixed. rewrite reverse_app. apply leftFixed_prefix.
Qed.

Lemma TrimRight_leftFixed ws s : leftFixed ws s -> leftFixed ws (TrimRight ws s).
Proof.
  intros H. destruct (TrimRight_split ws s) as (es & _ & Hs).
  rewrite Hs in H. by apply leftFixed_prefix in H.
Qed.

Lemma TrimLeft_rightFixed ws s : rightFixed ws s -> rightFixed ws (TrimLeft ws s).
Proof.
  intros H. destruct (TrimLeft_split ws s) as (es & _ & Hs).
  rewrite Hs in H. by apply rightFixed_suffix in H.
Qed.

(** Trimming on one side does not empty a string that has no white space
    on the other side. *)
Lemma TrimRight_nonempty ws s :
  (forall e, e ∈ ws -> e <> []) ->
  s <> [] -> leftFixed ws s -> TrimRight ws s <> [].
Proof.
  intros Hne Hs Hfix Hnil.
  destruct (TrimRight_split ws s) as (es & Hes & Heq).
  rewrite Hnil in Heq. simpl in Heq.
  destruct es as [|e es]; [by simpl in Heq|].
  apply Forall_cons in Hes as [He _].
  specialize (Hfix e He). rewrite Heq in Hfix. simpl in Hfix.
  by rewrite hasPrefix_app in Hfix.
Qed.

Lemma TrimLeft_nonempty ws s :
  (forall e, e ∈ ws -> e <> []) ->
  s <> [] -> rightFixed ws s -> TrimLeft ws s <> [].
Proof.
  intros Hne Hs Hfix. rewrite TrimLeft_reverse. intros Hnil.
  apply (f_equal reverse) in Hnil. rewrite reverse_involutive in Hnil.
  revert Hnil. apply TrimRight_nonempty.
  - by apply nonempty_reverse_fmap.
  - intros H. apply Hs. apply (f_equal reverse) in H.
    by rewrite reverse_involutive in H.
  - exact Hfix.
Qed.

Lemma whiteSpace_nonempty e : e ∈ whiteSpace -> e <> [].
Proof.
  intros He ->. revert He. apply (bool_decide_unpack _). vm_compute. exact I.
Qed.

Lemma TrimSpace_fixed s :
  leftFixed whiteSpace (TrimSpace s) /\ rightFixed whiteSpace (TrimSpace s).
Proof.
  unfold TrimSpace. split.
  - apply TrimRight_leftFixed, TrimLeft_fixed, whiteSpace_nonempty.
  - apply TrimRight_fixed, whiteSpace_nonempty.
Qed.

Lemma TrimSpace_id s :
  leftFixed whiteSpace s -> rightFixed whiteSpace s -> TrimSpace s = s.
Proof.
  intros H1 H2. unfold TrimSpace. rewrite (TrimLeft_id _ _ H1).
  by apply TrimRight_id.
Qed.

Lemma TrimSpace_split s :
  exists p q, s = p ++ TrimSpace s ++ q.
Proof.
  unfold TrimSpace.
  destruct (TrimLeft_split whiteSpace s) as (es & _ & H1).
  destruct (TrimRight_split whiteSpace (TrimLeft whiteSpace s)) as (es' & _ & H2).
  exists (concat es), (concat es'). by rewrite <- H2.
Qed.

End TrimFacts.

Section SplitFacts.

Import Testing.

Lemma Split_nonempty s : Split s <> [].
Proof.
  destruct s as [|c s]; [done|]. simpl.
  destruct (Ascii.eqb c newline); [done|]. by destruct (Split s).
Qed.

Lemma Split_cons c s :
  Split (c :: s)
  = if Ascii.eqb c newline then [] :: Split s
    else (c :: hd [] (Split s)) :: tl (Split s).
Proof.
  simpl. destruct (Ascii.eqb c newline); [reflexivity|].
  pose proof (Split_nonempty s). by destruct (Split s).
Qed.

Lemma joinLines_cons line rest :
  rest <> [] -> joinLines (line :: rest) = line ++ newline :: joinLines rest.
Proof. by destruct rest. Qed.

Lemma joinLines_Split s : joinLines (Split s) = s.
Proof.
  induction s as [|c s IH]; [reflexivity|].
  rewrite Split_cons. destruct (Ascii.eqb c newline) eqn:E.
  - apply Ascii.eqb_eq in E as ->.
    rewrite joinLines_cons by apply Split_nonempty. simpl. by rewrite IH.
  - pose proof (Split_nonempty s) as Hne.
    destruct (Split s) as [|l0 [|l1 rest]]; [done| |]; simpl in *;
      by rewrite <- IH.
Qed.

Lemma Split_noNewline s : Forall noNewline (Split s).
Proof.
  induction s as [|c s IH].
  - repeat constructor. apply not_elem_of_nil.
  - rewrite Split_cons. destruct (Ascii.eqb c newline) eqn:E.
    + constructor; [apply not_elem_of_nil | exact IH].
    + pose proof (Split_nonempty s) as Hne.
      destruct (Split s) as [|l0 rest]; [done|]. simpl.
      apply Forall_cons in IH as [H0 Hrest]. constructor; [|exact Hrest].
      unfold noNewline. rewrite not_elem_of_cons. split; [|exact H0].
      intros <-. by rewrite Ascii.eqb_refl in E.
Qed.

Lemma Split_line line :
  noNewline line -> Split line = [line].
Proof.
  induction line as [|c line IH]; intros H; [reflexivity|].
  unfold noNewline in H. apply not_elem_of_cons in H as [Hc Hl].
  rewrite Split_cons. destruct (Ascii.eqb c newline) eqn:E.
  - apply Ascii.eqb_eq in E. congruence.
  - by rewrite (IH Hl).
Qed.

Lemma Split_app_newline line rest :
  noNewline line -> Split (line ++ newline :: rest) = line :: Split rest.
Proof.
  induction line as [|c line IH]; intros H.
  - rewrite app_nil_l, Split_cons. by rewrite Ascii.eqb_refl.
  - unfold noNewline in H. apply not_elem_of_cons in H as [Hc Hl].
    rewrite <- app_comm_cons, Split_cons. destruct (Ascii.eqb c newline) eqn:E.
    + apply Ascii.eqb_eq in E. congruence.
    + by rewrite (IH Hl).
Qed.

Lemma Split_joinLines lines :
  lines <> [] -> Forall noNewline lines -> Split (joinLines lines) = lines.
Proof.
  induction lines as [|l0 [|l1 rest] IH]; intros Hne H; [done| |].
  - apply Forall_cons in H as [H0 _]. by apply Split_line.
  - apply Forall_cons in H as [H0 Hrest].
    rewrite joinLines_cons by done. rewrite Split_app_newline by exact H0.
    by rewrite IH.
Qed.

Lemma joinLines_snoc lines line :
  lines <> [] -> joinLines (lines ++ [line]) = joinLines lines ++ newline :: line.
Proof.
  induction lines as [|l0 [|l1 rest] IH]; intros Hne; [done|reflexivity|].
  change ((l0 :: l1 :: rest) ++ [line]) with (l0 :: ((l1 :: rest) ++ [line])).
  rewrite (joinLines_cons l0 ((l1 :: rest) ++ [line])) by discriminate.
  rewrite IH by discriminate.
  rewrite (joinLines_cons l0 (l1 :: rest)) by discriminate.
  by rewrite <- app_assoc.
Qed.

(** Every line is a piece of the text. *)
Lemma joinLines_elem lines line :
  line ∈ lines -> exists p q, joinLines lines = p ++ line ++ q.
Proof.
  induction lines as [|l0 [|l1 rest] IH]; intros Hin.
  - by apply not_elem_of_nil in Hin.
  - apply list_elem_of_singleton in Hin as ->. exists [], []. simpl.
    by rewrite app_nil_r.
  - rewrite joinLines_cons by done.
    apply elem_of_cons in Hin as [->|Hin].
    + exists [], (newline :: joinLines (l1 :: rest)). reflexivity.
    + destruct (IH Hin) as (p & q & ->).
      exists (l0 ++ newline :: p), q. by rewrite <- app_assoc.
Qed.

End SplitFacts.

Section CollapseFacts.

Import Testing.

Lemma collapsed_cons c s :
  collapsed (c :: s)
  = negb (Ascii.eqb c (byte 9)) && negb (isBlank c && startsBlank s) && collapsed s.
Proof. by destruct s. Qed.

Lemma replaceBlanks_collapsed b s :
  collapsed (replaceBlanks b s) = true
  /\ (b = true -> startsBlank (replaceBlanks b s) = false).
Proof.
  revert b. induction s as [|c s IH]; intros b; [done|].
  simpl. destruct (isBlank c) eqn:E.
  - destruct b.
    + apply IH.
    + destruct (IH true) as [H1 H2]. split; [|done].
      rewrite collapsed_cons, H1, H2 by reflexivity. reflexivity.
  - destruct (IH false) as [H1 _]. split.
    + rewrite collapsed_cons, H1, E.
      unfold isBlank in E. apply orb_false_iff in E as [_ E]. by rewrite E.
    + intros _. exact E.
Qed.

Lemma collapsed_suffix p s : collapsed (p ++ s) = true -> collapsed s = true.
Proof.
  induction p as [|c p IH]; [done|].
  rewrite <- app_comm_cons, collapsed_cons. intros H.
  apply andb_true_iff in H as [_ H]. by apply IH.
Qed.

Lemma collapsed_prefix s q : collapsed (s ++ q) = true -> collapsed s = true.
Proof.
  induction s as [|c s IH]; [done|].
  rewrite <- app_comm_cons, !collapsed_cons. intros H.
  apply andb_true_iff in H as [H H3]. apply andb_true_iff in H as [H1 H2].
  rewrite H1, (IH H3). simpl. rewrite andb_true_r.
  destruct s as [|c' s]; [by rewrite andb_false_r|]. exact H2.
Qed.

Lemma collapsed_id b s :
  collapsed s = true -> (b = true -> startsBlank s = false) ->
  replaceBlanks b s = s.
Proof.
  revert b. induction s as [|c s IH]; intros b H Hb; [done|].
  rewrite collapsed_cons in H.
  apply andb_true_iff in H as [H H3]. apply andb_true_iff in H as [H1 H2].
  simpl. destruct (isBlank c) eqn:E.
  - destruct b; [specialize (Hb eq_refl); simpl in Hb; congruence|].
    simpl in H2. apply negb_true_iff in H2.
    rewrite (IH true H3) by done. f_equal.
    unfold isBlank in E. apply negb_true_iff in H1. rewrite H1, orb_false_r in E.
    symmetry. by apply Ascii.eqb_eq.
  - by rewrite (IH false H3).
Qed.

Lemma collapsed_join a b :
  collapsed a = true -> collapsed b = true -> collapsed (a ++ newline :: b) = true.
Proof.
  intros Ha Hb. induction a as [|c a IH]; [exact Hb|].
  rewrite <- app_comm_cons, collapsed_cons. rewrite collapsed_cons in Ha.
  apply andb_true_iff in Ha as [H H3]. apply andb_true_iff in H as [H1 H2].
  rewrite H1, (IH H3). simpl. rewrite andb_true_r.
  destruct a as [|c' a]; [by rewrite andb_false_r | exact H2].
Qed.

Lemma collapsed_joinLines lines :
  Forall (fun l => collapsed l = true) lines -> collapsed (joinLines lines) = true.
Proof.
  induction lines as [|l0 [|l1 rest] IH]; intros H; [done| |].
  - by apply Forall_cons in H as [H _].
  - apply Forall_cons in H as [H0 Hrest]. rewrite joinLines_cons by done.
    apply collapsed_join; [exact H0 | by apply IH].
Qed.

End CollapseFacts.

Section NormalizeFacts.

Import Testing.

Lemma collapsed_mid p m q : collapsed (p ++ m ++ q) = true -> collapsed m = true.
Proof. intros H. apply collapsed_suffix in H. by apply collapsed_prefix in H. Qed.

Lemma whiteSpace_newline e : e ∈ whiteSpace -> newline ∈ e -> e = [newline].
Proof.
  assert (H : Forall (fun e => newline ∈ e -> e = [newline]) whiteSpace).
  { apply (bool_decide_unpack _). vm_compute. exact I. }
  rewrite Forall_forall in H. apply H.
Qed.

Lemma reverse_whiteSpace_newline e :
  e ∈ reverse <$> whiteSpace -> newline ∈ e -> e = [newline].
Proof.
  intros He Hn. apply elem_of_reverse_fmap in He.
  apply elem_of_reverse in Hn.
  apply (whiteSpace_newline _ He) in Hn.
  apply (f_equal reverse) in Hn. by rewrite reverse_involutive in Hn.
Qed.

Lemma newline_whiteSpace : [newline] ∈ whiteSpace.
Proof. apply (bool_decide_unpack _). vm_compute. exact I. Qed.

(** A white space character at the start of [a ++ b] is at the start of [a],
    or goes on into [b]. *)
Lemma hasPrefix_app_inv e a b :
  hasPrefix e (a ++ b) = true ->
  hasPrefix e a = true
  \/ exists e2, e = a ++ e2 /\ e2 <> [] /\ hasPrefix e2 b = true.
Proof.
  revert e. induction a as [|x a IH]; intros e H.
  - destruct e as [|y e]; [by left|]. right. exists (y :: e). done.
  - destruct e as [|y e]; [by left|]. simpl in H.
    apply andb_true_iff in H as [H1 H2]. apply Ascii.eqb_eq in H1 as ->.
    destruct (IH e H2) as [H|(e2 & -> & Hne & H)].
    + left. simpl. by rewrite Ascii.eqb_refl.
    + right. exists e2. done.
Qed.

Lemma leftFixed_app_newline ws a x :
  (forall e, e ∈ ws -> newline ∈ e -> e = [newline]) ->
  a <> [] -> leftFixed ws a -> leftFixed ws (a ++ newline :: x).
Proof.
  intros Hnl Hne Hfix e He.
  destruct (hasPrefix e (a ++ newline :: x)) eqn:E; [|reflexivity].
  exfalso. apply hasPrefix_app_inv in E as [E|(e2 & -> & Hne2 & E)].
  - by rewrite (Hfix e He) in E.
  - destruct e2 as [|y e2]; [done|]. simpl in E.
    apply andb_true_iff in E as [E _]. apply Ascii.eqb_eq in E as ->.
    assert (Hin : newline ∈ a ++ newline :: e2).
    { apply elem_of_app. right. apply list_elem_of_here. }
    apply (Hnl _ He) in Hin. apply (f_equal length) in Hin.
    rewrite length_app in Hin. simpl in Hin. destruct a; [done|]. simpl in Hin. lia.
Qed.

Lemma leftFixed_cons_newline s : leftFixed whiteSpace (newline :: s) -> False.
Proof.
  intros H. specialize (H [newline] newline_whiteSpace).
  change (Ascii.eqb newline newline && true = false) in H.
  by rewrite Ascii.eqb_refl in H.
Qed.

Lemma rightFixed_snoc_newline s : rightFixed whiteSpace (s ++ [newline]) -> False.
Proof.
  unfold rightFixed. rewrite reverse_app. simpl. intros H.
  assert (Hin : [newline] ∈ reverse <$> whiteSpace).
  { apply elem_of_reverse_fmap. exact newline_whiteSpace. }
  specialize (H [newline] Hin).
  change (Ascii.eqb newline newline && true = false) in H.
  by rewrite Ascii.eqb_refl in H.
Qed.

(** The lines of [normalize]. *)
Lemma normalize_clean input :
  Forall (fun line =>
            (leftFixed whiteSpace line /\ rightFixed whiteSpace line)
            /\ collapsed line = true
            /\ noNewline line)
         (normalize input).
Proof.
  unfold normalize.
  set (c := ReplaceAllString input). set (t := TrimSpace c).
  apply Forall_fmap, Forall_forall. intros l Hl. simpl.
  split; [apply TrimSpace_fixed|].
  destruct (TrimSpace_split l) as (p & q & Hr).
  destruct (joinLines_elem (Split t) l Hl) as (p' & q' & Ht).
  rewrite joinLines_Split in Ht.
  destruct (TrimSpace_split c) as (p'' & q'' & Hc). fold t in Hc.
  split.
  - apply (collapsed_mid p _ q). rewrite <- Hr.
    apply (collapsed_mid p' _ q'). rewrite <- Ht.
    apply (collapsed_mid p'' _ q''). rewrite <- Hc.
    apply replaceBlanks_collapsed.
  - pose proof (Split_noNewline t) as Hn. rewrite Forall_forall in Hn.
    specialize (Hn l Hl). unfold noNewline in *. rewrite Hr in Hn.
    rewrite !not_elem_of_app in Hn. tauto.
Qed.

Lemma map_fixed {A : Type} (f : A -> A) (l : list A) :
  Forall (fun x => f x = x) l -> map f l = l.
Proof.
  induction 1 as [|x l Hx _ IH]; [reflexivity|]. simpl. by rewrite Hx, IH.
Qed.

(** The first line of a trimmed text of several lines, trimmed, has no
    white space at its start and is not empty; so has the last one at its
    end. *)
Lemma first_line l0 rest :
  rest <> [] ->
  leftFixed whiteSpace (joinLines (l0 :: rest)) ->
  TrimSpace l0 <> [].
Proof.
  intros Hne Hfix. rewrite joinLines_cons in Hfix by exact Hne.
  assert (H0 : l0 <> []).
  { intros ->. by apply leftFixed_cons_newline in Hfix. }
  apply leftFixed_prefix in Hfix.
  unfold TrimSpace. rewrite (TrimLeft_id _ _ Hfix).
  apply TrimRight_nonempty; [apply whiteSpace_nonempty | exact H0 | exact Hfix].
Qed.

Lemma last_line front lk :
  front <> [] ->
  rightFixed whiteSpace (joinLines (front ++ [lk])) ->
  TrimSpace lk <> [].
Proof.
  intros Hne Hfix. rewrite joinLines_snoc in Hfix by exact Hne.
  assert (Hk : lk <> []).
  { intros ->.
    change (joinLines front ++ [newline]) with (joinLines front ++ [newline]) in Hfix.
    by apply rightFixed_snoc_newline in Hfix. }
  change (newline :: lk) with ([newline] ++ lk) in Hfix.
  rewrite app_assoc in Hfix. apply rightFixed_suffix in Hfix.
  unfold TrimSpace.
  rewrite (TrimRight_id _ _ (TrimLeft_rightFixed _ _ Hfix)).
  apply TrimLeft_nonempty; [apply whiteSpace_nonempty | exact Hk | exact Hfix].
Qed.

Lemma list_snoc_inv {A : Type} (x y : A) (l : list A) :
  exists front z, x :: y :: l = front ++ [z] /\ front <> [].
Proof.
  revert x y. induction l as [|a l IH]; intros x y.
  - exists [x], y. done.
  - destruct (IH y a) as (front & z & H & _).
    exists (x :: front), z. rewrite H. done.
Qed.

Lemma normalize_joined_fixed input :
  leftFixed whiteSpace (joinLines (normalize input))
  /\ rightFixed whiteSpace (joinLines (normalize input)).
Proof.
  pose proof (normalize_clean input) as Hclean.
  unfold normalize in *.
  set (t := TrimSpace (ReplaceAllString input)) in *.
  destruct (TrimSpace_fixed (ReplaceAllString input)) as [HL HR]. fold t in HL, HR.
  rewrite <- (joinLines_Split t) in HL, HR.
  pose proof (Split_nonempty t) as Hne.
  destruct (Split t) as [|l0 [|l1 rest]] eqn:E; [done| |].
  - simpl. apply TrimSpace_fixed.
  - split.
    + change (map TrimSpace (l0 :: l1 :: rest))
        with (TrimSpace l0 :: map TrimSpace (l1 :: rest)).
      rewrite joinLines_cons by discriminate.
      apply leftFixed_app_newline.
      * apply whiteSpace_newline.
      * by apply (first_line l0 (l1 :: rest)).
      * apply TrimSpace_fixed.
    + destruct (list_snoc_inv l0 l1 rest) as (front & lk & Hsplit & Hfront).
      rewrite Hsplit in HR |- *. rewrite map_app. simpl.
      rewrite joinLines_snoc by (by destruct front).
      unfold rightFixed. rewrite reverse_app, reverse_cons, <- app_assoc. simpl.
      apply leftFixed_app_newline.
      * apply reverse_whiteSpace_newline.
      * intros H. apply (f_equal reverse) in H. rewrite reverse_involutive in H.
        revert H. by apply (last_line front lk).
      * apply TrimSpace_fixed.
Qed.

End NormalizeFacts.

Lemma normalize_lines_are_normal_aux (input : list ascii) :
  Testing.normalize input <> []
  /\ Forall (fun line =>
               Testing.TrimSpace line = line
               /\ Testing.ReplaceAllString line = line
               /\ Testing.newline ∉ line)
            (Testing.normalize input).
Proof.
  split.
  - unfold Testing.normalize. intros H. apply fmap_nil_inv in H.
    by apply Split_nonempty in H.
  - eapply Forall_impl; [apply normalize_clean|].
    intros line ([H1 H2] & H3 & H4). simpl.
    split; [by apply TrimSpace_id|]. split; [|exact H4].
    by apply collapsed_id.
Qed.

(** X22. normalize returns at least one line, and each of its lines is in
    normal form: no white space at its start or its end (trimming it again
    changes nothing), no tab, no two blanks in a row, and no line feed. *)
Theorem normalize_lines_are_normal (input : list ascii) :
  Testing.normalize input <> []
  /\ Forall (fun line =>
               Testing.TrimSpace line = line
               /\ Testing.ReplaceAllString line = line
               /\ Testing.newline ∉ line)
            (Testing.normalize input).
Proof. apply normalize_lines_are_normal_aux. Qed.

(** X23. normalize is idempotent: the lines it returns, put together again
    with line feeds, are normalized to themselves.  So two outputs that are
    compared after normalize differ only where their normal forms differ. *)
Theorem normalize_idempotent (input : list ascii) :
  Testing.normalize (Testing.joinLines (Testing.normalize input))
  = Testing.normalize input.
Proof.
  pose proof (normalize_clean input) as Hclean.
  destruct (normalize_joined_fixed input) as [HL HR].
  destruct (normalize_lines_are_normal_aux input) as [Hne Hnormal].
  set (R := Testing.normalize input) in *.
  unfold Testing.normalize at 1.
  assert (HB : Testing.ReplaceAllString (Testing.joinLines R) = Testing.joinLines R).
  { apply collapsed_id; [|done]. apply collapsed_joinLines.
    eapply Forall_impl; [exact Hclean|]. intros line (_ & H & _). exact H. }
  rewrite HB, (TrimSpace_id _ HL HR).
  rewrite Split_joinLines.
  - apply map_fixed. eapply Forall_impl; [exact Hnormal|]. by intros line [H _].
  - exact Hne.
  - eapply Forall_impl; [exact Hclean|]. intros line (_ & _ & H). exact H.
Qed.

(** ** The comparison of TestVerify *)

(** "forbidden", as the test compares it: the expected texts with their
    indentation and column padding, against what the run writes. *)
Example TestVerify_forbidden :
  let indent := tab +:+ tab +:+ tab in
  let spaces := "            " in
  let expectOut :=
    nl +:+ indent
       +:+ "GROUP   RESOURCE   NAMESPACE   NAME   OWNER_UID            LEVEL     MESSAGE"
       +:+ nl +:+ indent
       +:+ "        pods       ns1         pod1   forbiddenparentuid   Warning   could not list parent resource forbiddenresources.forbidden"
       +:+ nl +:+ indent in
  let expectErr :=
    nl +:+ indent +:+ "fetching v1, nodes"
       +:+ nl +:+ spaces +:+ "got 1 item"
       +:+ nl +:+ spaces +:+ "fetching v1, pods"
       +:+ nl +:+ spaces +:+ "got 1 item"
       +:+ nl +:+ spaces +:+ "fetching forbidden/v1, forbiddenresources"
       +:+ nl +:+ spaces
       +:+ "warning: could not list forbidden/v1, Resource=forbiddenresources: forbiddenresources is forbidden: not authorized"
       +:+ nl +:+ spaces +:+ "0 errors, 2 warnings"
       +:+ nl +:+ indent in
  exists s,
    Scenarios.run 3 (Scenarios.forbidden "") = Returned None s
    /\ Testing.sameText expectOut (Testing.tableText (Stdout s))
    /\ Testing.sameText expectErr (Testing.streamText (Stderr s)).
Proof.
  eexists. split; [vm_compute; reflexivity|].
  split; vm_compute; reflexivity.
Qed.

(** "simple": nothing on stdout. *)
Example TestVerify_simple :
  let indent := tab +:+ tab +:+ tab +:+ tab in
  let expectErr :=
    nl +:+ indent +:+ "fetching v1, nodes"
       +:+ nl +:+ indent +:+ "got 1 item"
       +:+ nl +:+ indent +:+ "fetching v1, pods"
       +:+ nl +:+ indent +:+ "got 1 item"
       +:+ nl +:+ indent +:+ "No invalid ownerReferences found"
       +:+ nl +:+ tab +:+ tab +:+ tab in
  exists s,
    Scenarios.run 3 (Scenarios.simple "") = Returned None s
    /\ Testing.sameText "" (Testing.tableText (Stdout s))
    /\ Testing.sameText expectErr (Testing.streamText (Stderr s)).
Proof.
  eexists. split; [vm_compute; reflexivity|].
  split; vm_compute; reflexivity.
Qed.
